(** * StackMorph backend: the conversion pipeline of [server.js]

    A shallow embedding of the two variants of [server.js], whole-project
    mode and per-file mode: the directory walk [getAllFilePaths], the two
    response parsers [parseAIResponse] and [parseCodeFromResponse] with
    their regular expressions, the [/convert] request handlers, and the
    request that the test client [testAPI.js] posts.

    - A JavaScript string is its sequence of UTF-16 code units, and the
      classes [\s], [\S], [\w] and [[a-z]] are those of ECMA-262.
    - A regular expression is a backtracking matcher in
      continuation-passing style, as ECMA-262 defines the semantics of
      patterns: greedy and lazy quantifiers, groups, a backreference,
      [^] and [$], and the search of [exec] from [lastIndex].
    - The [while] loop of [parseAIResponse] runs on fuel, and the fuel
      given to it is shown to suffice for every input.
    - The file system below the temporary directory is a tree; a path
      is the list of its segments. A handler is a function of the
      state, made of the file system and of the prompts sent so far,
      that answers with a response; exceptions are explicit.
    - What comes from outside the repository (the encoding ['utf-8'],
      [path.extname], the archive library and the model) is the class
      [Platform]: every property holds for every instance of it. An
      archive that is sent is the buffer that the library returns, of
      which nothing is known but what it was made from; the times that
      the library writes into an archive are left out.
    - A header is set as Node sets it: a value with a character that a
      header cannot carry makes [res.set] throw.

    The definitions come first: the source, then the notions that the
    properties are stated with, then the data of the examples. The
    lemmas follow, with the claims C1 to C10, the further properties X1
    to X21, and their examples. *)

From Stdlib Require Import List NArith Arith Bool Lia.
From Stdlib Require String Ascii.
Import ListNotations String.StringSyntax.

Set Implicit Arguments.

(* ================================================================== *)
(** ** JavaScript strings *)
(* ================================================================== *)

(** A string is its sequence of UTF-16 code units. *)
Definition jsString := list N.

(** An ASCII literal as a JavaScript string. *)
Definition js (s : String.string) : jsString :=
  map Ascii.N_of_ascii (String.list_ascii_of_string s).
Arguments js s%_string_scope.

Definition LF : N := 10%N.
Definition BACKTICK : N := 96%N.

Definition jsString_eqb (a b : jsString) : bool :=
  if list_eq_dec N.eq_dec a b then true else false.

(** [\s] of ECMA-262, which is also what [String.prototype.trim] strips:
    WhiteSpace (TAB, VT, FF, SP, NBSP, ZWNBSP and the category Zs) and
    LineTerminator (LF, CR, LS, PS). *)
Definition isSpace (c : N) : bool :=
  ((9 <=? c) && (c <=? 13) || (c =? 32) || (c =? 160) || (c =? 5760)
   || (8192 <=? c) && (c <=? 8202) || (c =? 8232) || (c =? 8233)
   || (c =? 8239) || (c =? 8287) || (c =? 12288) || (c =? 65279))%N.

(** [\S] *)
Definition notSpace (c : N) : bool := negb (isSpace c).

(** [[\s\S]] *)
Definition anyChar (c : N) : bool := isSpace c || notSpace c.

(** [[a-z]] *)
Definition isLower (c : N) : bool := ((97 <=? c) && (c <=? 122))%N.

(** [\w], that is [[A-Za-z0-9_]] *)
Definition isWord (c : N) : bool :=
  ((97 <=? c) && (c <=? 122) || (65 <=? c) && (c <=? 90)
   || (48 <=? c) && (c <=? 57) || (c =? 95))%N.

Fixpoint dropWhile (P : N -> bool) (s : jsString) : jsString :=
  match s with
  | c :: s' => if P c then dropWhile P s' else s
  | [] => []
  end.

Definition trimStart (s : jsString) : jsString := dropWhile isSpace s.
Definition trimEnd (s : jsString) : jsString := rev (dropWhile isSpace (rev s)).

(** [String.prototype.trim] *)
Definition trim (s : jsString) : jsString := trimEnd (trimStart s).

(** [Array.prototype.join] on strings *)
Fixpoint join (sep : jsString) (l : list jsString) : jsString :=
  match l with
  | [] => []
  | [x] => x
  | x :: l' => x ++ sep ++ join sep l'
  end.

(* ================================================================== *)
(** ** Regular expressions: backtracking matchers *)
(* ================================================================== *)

Module RegExp.

(** The state of a match: the index reached in the input, the input
    from there on, and the captures made so far. *)
Record MatchState := mkState {
  endIndex : nat;
  rest : jsString;
  captures : nat -> option jsString
}.

Definition Continuation := MatchState -> option MatchState.
Definition Matcher := MatchState -> Continuation -> option MatchState.

Definition noCaptures : nat -> option jsString := fun _ => None.

Definition setCapture (n : nat) (v : jsString) (caps : nat -> option jsString)
  : nat -> option jsString :=
  fun j => if Nat.eqb j n then Some v else caps j.

(** A character class: one code unit satisfying [P]. *)
Definition charSet (P : N -> bool) : Matcher := fun st k =>
  match rest st with
  | c :: r => if P c then k (mkState (S (endIndex st)) r (captures st)) else None
  | [] => None
  end.

Definition seq (m1 m2 : Matcher) : Matcher := fun st k =>
  m1 st (fun st' => m2 st' k).

Definition empty : Matcher := fun st k => k st.

(** A run of literal characters. *)
Fixpoint literal (l : jsString) : Matcher :=
  match l with
  | [] => empty
  | c :: l' => seq (charSet (N.eqb c)) (literal l')
  end.

(** [C*] for a character class [C], greedy: one more character is tried
    first, the continuation at the present position after it. *)
Fixpoint starGreedyFrom (P : N -> bool) (r : jsString) (i : nat)
    (caps : nat -> option jsString) (k : Continuation) : option MatchState :=
  match r with
  | c :: r' =>
      if P c then
        match starGreedyFrom P r' (S i) caps k with
        | Some x => Some x
        | None => k (mkState i r caps)
        end
      else k (mkState i r caps)
  | [] => k (mkState i r caps)
  end.

Definition starGreedy (P : N -> bool) : Matcher := fun st k =>
  starGreedyFrom P (rest st) (endIndex st) (captures st) k.

(** [C+], greedy *)
Definition plusGreedy (P : N -> bool) : Matcher :=
  seq (charSet P) (starGreedy P).

(** [C*?], lazy: the continuation is tried first. *)
Fixpoint starLazyFrom (P : N -> bool) (r : jsString) (i : nat)
    (caps : nat -> option jsString) (k : Continuation) : option MatchState :=
  match k (mkState i r caps) with
  | Some x => Some x
  | None =>
      match r with
      | c :: r' => if P c then starLazyFrom P r' (S i) caps k else None
      | [] => None
      end
  end.

Definition starLazy (P : N -> bool) : Matcher := fun st k =>
  starLazyFrom P (rest st) (endIndex st) (captures st) k.

(** [(?:m)?], greedy *)
Definition optional (m : Matcher) : Matcher := fun st k =>
  match m st k with
  | Some x => Some x
  | None => k st
  end.

(** Capturing group number [n]. *)
Definition group (n : nat) (m : Matcher) : Matcher := fun st k =>
  m st (fun st' =>
    k (mkState (endIndex st') (rest st')
         (setCapture n (firstn (endIndex st' - endIndex st) (rest st))
            (captures st')))).

(** Backreference [\n]; an unset capture matches the empty string. *)
Definition backref (n : nat) : Matcher := fun st k =>
  match captures st n with
  | Some s => literal s st k
  | None => k st
  end.

(** [^] without the multiline flag *)
Definition assertStart : Matcher := fun st k =>
  if Nat.eqb (endIndex st) 0 then k st else None.

(** [$] without the multiline flag *)
Definition assertEnd : Matcher := fun st k =>
  match rest st with
  | [] => k st
  | _ :: _ => None
  end.

(** One attempt at index [i], where the input continues with [r]. *)
Definition matchAt (m : Matcher) (r : jsString) (i : nat) : option MatchState :=
  m (mkState i r noCaptures) Some.

(** The search of RegExpBuiltinExec: the first index from [i] on at
    which the pattern matches, the end of the input included. *)
Fixpoint searchFrom (m : Matcher) (r : jsString) (i : nat)
  : option (nat * MatchState) :=
  match matchAt m r i with
  | Some st => Some (i, st)
  | None =>
      match r with
      | [] => None
      | _ :: r' => searchFrom m r' (S i)
      end
  end.

(** [regex.exec(s)] read at [lastIndex]; a match sets [lastIndex] to
    its [endIndex]. *)
Definition exec (m : Matcher) (s : jsString) (lastIndex : nat)
  : option (nat * MatchState) :=
  if Nat.ltb (length s) lastIndex then None
  else searchFrom m (skipn lastIndex s) lastIndex.

(** [s.match(regex)] for a regex without the [g] flag. *)
Definition matchFirst (m : Matcher) (s : jsString) : option (nat * MatchState) :=
  searchFrom m s 0.

End RegExp.
Import RegExp.

(* ================================================================== *)
(** ** The response parsers *)
(* ================================================================== *)

(** The start marker, with the space that follows the colon. *)
Definition START_FILE : jsString := Eval vm_compute in js "// START_FILE: ".

(** The end marker, from the line feed before it to the space after
    the colon. *)
Definition END_FILE : jsString := Eval vm_compute in LF :: js "// END_FILE: ".

(** Three backticks. *)
Definition FENCE : jsString := [BACKTICK; BACKTICK; BACKTICK].

(** [/\/\/ START_FILE: ([\S]+)\n([\s\S]*?)\n\/\/ END_FILE: \1/g] *)
Definition fileRegex : Matcher :=
  seq (literal START_FILE)
   (seq (group 1 (plusGreedy notSpace))
     (seq (literal [LF])
       (seq (group 2 (starLazy anyChar))
         (seq (literal END_FILE) (backref 1))))).

(** [/^\s*```[a-z]*\n([\s\S]*?)\n```\s*$/] *)
Definition markdownFenceRegex : Matcher :=
  seq assertStart
   (seq (starGreedy isSpace)
     (seq (literal FENCE)
       (seq (starGreedy isLower)
         (seq (literal [LF])
           (seq (group 1 (starLazy anyChar))
             (seq (literal (LF :: FENCE))
               (seq (starGreedy isSpace) assertEnd))))))).

(** [/```(?:\w+\n)?([\s\S]+)```/] *)
Definition codeBlockRegex : Matcher :=
  seq (literal FENCE)
   (seq (optional (seq (plusGreedy isWord) (literal [LF])))
     (seq (group 1 (plusGreedy anyChar))
       (literal FENCE))).

Record ConvertedFile := mkFile { path : jsString; content : jsString }.

(** A capture read as [match[n]]; a group that did not take part reads
    [undefined], which none of the three patterns can produce for their
    groups once the pattern matched. *)
Definition capture (st : MatchState) (n : nat) : jsString :=
  match captures st n with
  | Some s => s
  | None => []
  end.

(** Lines 85 to 93: the fence is removed when the block is fenced, and
    the content is trimmed. *)
Definition blockContent (fileContent : jsString) : jsString :=
  match matchFirst markdownFenceRegex fileContent with
  | Some (_, fenceMatch) => trim (capture fenceMatch 1)
  | None => trim fileContent
  end.

(** The [while] loop of [parseAIResponse]; [None] when the fuel does
    not suffice. *)
Fixpoint parseLoop (fuel : nat) (responseText : jsString) (lastIndex : nat)
    (files : list ConvertedFile) : option (list ConvertedFile) :=
  match fuel with
  | O => None
  | S fuel' =>
      match exec fileRegex responseText lastIndex with
      | None => Some files
      | Some (_, m) =>
          let filePath := capture m 1 in
          let fileContent := capture m 2 in
          parseLoop fuel' responseText (endIndex m)
            (files ++ [mkFile filePath (blockContent fileContent)])
      end
  end.

(** Every match consumes at least the start marker, so the loop runs at
    most once per character: [parseLoop_terminates] below shows that
    this fuel always suffices. *)
Definition parseAIResponse (responseText : jsString) : list ConvertedFile :=
  match parseLoop (S (length responseText)) responseText 0 [] with
  | Some files => files
  | None => []
  end.

(** [match && match[1] ? match[1].trim() : text.trim()] *)
Definition parseCodeFromResponse (text : jsString) : jsString :=
  match matchFirst codeBlockRegex text with
  | Some (_, m) =>
      match captures m 1 with
      | Some (c :: s) => trim (c :: s)
      | _ => trim text
      end
  | None => trim text
  end.


(* ================================================================== *)
(** ** The patterns and the texts, as functions and predicates *)
(* ================================================================== *)

(** The definitions of this part are not in the source: they say what the
    three patterns compute, and what texts the claims are about. The
    lemmas further down relate them to the matchers above. *)

(** [l] removed from the front of [r], when [r] starts with [l]. *)
Fixpoint stripPrefix (l r : jsString) : option jsString :=
  match l with
  | [] => Some r
  | c :: l' =>
      match r with
      | d :: r' => if N.eqb c d then stripPrefix l' r' else None
      | [] => None
      end
  end.

Fixpoint takeWhile (P : N -> bool) (s : jsString) : jsString :=
  match s with
  | c :: s' => if P c then c :: takeWhile P s' else []
  | [] => []
  end.

(** The first split [r = a ++ b] at which the test [T] accepts [b]. *)
Fixpoint findFirst (A : Type) (T : jsString -> option A) (r : jsString)
  : option (jsString * jsString * A) :=
  match T r with
  | Some x => Some ([], r, x)
  | None =>
      match r with
      | [] => None
      | c :: r' =>
          match findFirst T r' with
          | Some (a, b, x) => Some (c :: a, b, x)
          | None => None
          end
      end
  end.

(** The last split [r = a ++ b] at which the test [T] accepts [b]. *)
Fixpoint findLast (A : Type) (T : jsString -> option A) (r : jsString)
  : option (jsString * jsString * A) :=
  match r with
  | [] =>
      match T [] with
      | Some x => Some ([], [], x)
      | None => None
      end
  | c :: r' =>
      match findLast T r' with
      | Some (a, b, x) => Some (c :: a, b, x)
      | None =>
          match T r with
          | Some x => Some ([], r, x)
          | None => None
          end
      end
  end.

(** What [fileRegex] matches where the input continues with [r]: the
    path, the content and the input after the match. *)
Definition fileBlockAt (r : jsString) : option (jsString * jsString * jsString) :=
  match stripPrefix START_FILE r with
  | None => None
  | Some r1 =>
      match takeWhile notSpace r1, dropWhile notSpace r1 with
      | c :: p, d :: r3 =>
          if N.eqb LF d then
            match findFirst (stripPrefix (END_FILE ++ c :: p)) r3 with
            | Some (a, _, x) => Some (c :: p, a, x)
            | None => None
            end
          else None
      | _, _ => None
      end
  end.

Definition fileMatchEnd (i : nat) (p c : jsString) : nat :=
  length p + (length END_FILE + (length c + S (length p + (length START_FILE + i)))).

(** The closing fence: a line feed, the fence, and white space up to
    the end of the input. *)
Definition fenceClose (b : jsString) : option jsString :=
  match stripPrefix (LF :: FENCE) b with
  | Some r5 =>
      match dropWhile isSpace r5 with
      | [] => Some r5
      | _ :: _ => None
      end
  | None => None
  end.

(** What [markdownFenceRegex] captures on the input [r]. *)
Definition fenceBody (r : jsString) : option jsString :=
  match stripPrefix FENCE (dropWhile isSpace r) with
  | None => None
  | Some r2 =>
      match dropWhile isLower r2 with
      | d :: r4 =>
          if N.eqb LF d then
            match findFirst fenceClose r4 with
            | Some (a, _, _) => Some a
            | None => None
            end
          else None
      | [] => None
      end
  end.

(** The group of [codeBlockRegex]: at least one character, up to the
    last fence that follows. *)
Definition codeGroupAt (r : jsString) : option jsString :=
  match r with
  | c :: r' =>
      match findLast (stripPrefix FENCE) r' with
      | Some (a, _, _) => Some (c :: a)
      | None => None
      end
  | [] => None
  end.

(** What [codeBlockRegex] captures where the input continues with [r]. *)
Definition codeBlockAt (r : jsString) : option jsString :=
  match stripPrefix FENCE r with
  | None => None
  | Some r1 =>
      match
        match takeWhile isWord r1, dropWhile isWord r1 with
        | _ :: _, d :: r2 => if N.eqb LF d then codeGroupAt r2 else None
        | _, _ => None
        end
      with
      | Some g => Some g
      | None => codeGroupAt r1
      end
  end.

(** *** Blocks, declaratively *)

(** [l] occurs in [s]. *)
Definition occursIn (l s : jsString) : Prop :=
  exists a b, s = a ++ l ++ b.

(** A path that the pattern can capture. *)
Definition validPath (p : jsString) : Prop :=
  p <> [] /\ forallb notSpace p = true.

(** *** The loop of [parseAIResponse], block after block *)

(** [blocksOf r files]: scanning [r] finds the blocks [files] in turn,
    each search starting where the previous match ended. *)
Inductive blocksOf : jsString -> list ConvertedFile -> Prop :=
| blocksOf_done (r : jsString) :
    findFirst fileBlockAt r = None -> blocksOf r []
| blocksOf_step (r a b p c x : jsString) (files : list ConvertedFile) :
    findFirst fileBlockAt r = Some (a, b, (p, c, x)) ->
    blocksOf x files ->
    blocksOf r (mkFile p (blockContent c) :: files).

(** A response text laid out as blocks. *)
Record Block := mkBlock { blockPath : jsString; blockBody : jsString }.

(** [// START_FILE: <path>], the content, [// END_FILE: <path>] *)
Definition renderBlock (b : Block) : jsString :=
  START_FILE ++ blockPath b ++ LF :: blockBody b ++ END_FILE ++ blockPath b.

(** Blocks in sequence, each with the text that follows it. *)
Fixpoint renderBlocks (bs : list (Block * jsString)) : jsString :=
  match bs with
  | [] => []
  | (b, f) :: bs' => renderBlock b ++ f ++ renderBlocks bs'
  end.

Definition fileOfBlock (b : Block) : ConvertedFile :=
  mkFile (blockPath b) (blockContent (blockBody b)).

Definition cleanBlock (bf : Block * jsString) : Prop :=
  validPath (blockPath (fst bf)) /\
  ~ occursIn (END_FILE ++ blockPath (fst bf)) (blockBody (fst bf)) /\
  ~ occursIn START_FILE (snd bf).

(** *** Fences, declaratively *)

(** [c] is [inner] wrapped in a markdown fence: white space, the opening
    fence with a tag of lower-case letters, a line feed, [inner], a line
    feed, the closing fence, white space. *)
Definition fenced (c inner : jsString) : Prop :=
  exists ws1 tag ws2,
    forallb isSpace ws1 = true /\ forallb isLower tag = true /\
    forallb isSpace ws2 = true /\
    c = ws1 ++ FENCE ++ tag ++ LF :: inner ++ LF :: FENCE ++ ws2.

Definition isEmpty (s : jsString) : bool :=
  match s with
  | [] => true
  | _ :: _ => false
  end.

(** [occursIn], decided. *)
Definition occursInb (l s : jsString) : bool :=
  match findFirst (stripPrefix l) s with
  | Some _ => true
  | None => false
  end.

(** [cleanBlock], decided: a path that is a non-empty run without white
    space, a content without the end marker of the path, and no start
    marker in the text that follows the block. *)
Definition cleanBlockb (bf : Block * jsString) : bool :=
  negb (isEmpty (blockPath (fst bf)))
  && forallb notSpace (blockPath (fst bf))
  && negb (occursInb (END_FILE ++ blockPath (fst bf)) (blockBody (fst bf)))
  && negb (occursInb START_FILE (snd bf)).

(** *** Responses without a block *)


(** *** Blocks, in the words of the specification *)






(* ================================================================== *)
(** ** The file system, the request and the handlers *)
(* ================================================================== *)

Definition DQUOTE : N := 34%N.

Definition SLASH : N := 47%N.

Definition BACKSLASH : N := 92%N.

Definition lines (l : list jsString) : jsString := join [LF] l.

(** A path, as its segments below the temporary directory [tempDir]. *)
Definition fsPath := list jsString.

(** [path.basename] *)
Definition basename (p : fsPath) : jsString := last p [].

(** [path.relative(from, to)] for [to] below [from], with
    [.replace(/\\/g, '/')] applied to it where the source does so. *)
Definition relative (from to : fsPath) : jsString :=
  join [SLASH] (skipn (length from) to).

Definition replaceBackslashes (s : jsString) : jsString :=
  map (fun c => if N.eqb c BACKSLASH then SLASH else c) s.

(** [CODE_EXTENSIONS] *)
Definition CODE_EXTENSIONS : list jsString :=
  [js ".js"; js ".jsx"; js ".ts"; js ".tsx"; js ".vue"; js ".svelte";
   js ".html"; js ".css"; js ".scss"; js ".json"; js ".md"].

(** [CODE_EXTENSIONS.has] *)
Definition CODE_EXTENSIONS_has (ext : jsString) : bool :=
  existsb (jsString_eqb ext) CODE_EXTENSIONS.

Definition skippedDirectory (file : jsString) : bool :=
  jsString_eqb file (js "node_modules") || jsString_eqb file (js ".git").

(** The prompt of whole-project mode. *)
Definition wholeProjectPrompt (targetStack fullProjectCode : jsString) : jsString :=
  lines [
    [];
    js "You are an expert AI software engineer. Your task is to perform a complete migration of the provided source code to a new, runnable project using " ++ targetStack ++ js ".";
    [];
    js "You will be given the complete source code for a project, with each file clearly demarcated.";
    [];
    js "**Your goal is to output a complete, runnable " ++ targetStack ++ js " project, not just a 1-to-1 file conversion.**";
    [];
    js "**MANDATORY INSTRUCTIONS:**";
    [];
    js "1.  **Convert Logic:** Convert all source files to be idiomatic for " ++ targetStack ++ js ", preserving all logic and functionality.";
    js "2.  **Create Folder Structure:** Organize all converted files into a standard, professional folder structure for a modern " ++ targetStack ++ js " project (e.g., for Vue/React, use a 'src' directory with 'components', 'assets', etc.).";
    js "3.  **Generate 'package.json':** Create a new 'package.json' file. It must include:";
    js "    * The correct main dependency (e.g., " ++ DQUOTE :: js "react" ++ DQUOTE :: js ", " ++ DQUOTE :: js "vue" ++ DQUOTE :: js ", " ++ DQUOTE :: js "svelte" ++ DQUOTE :: js ").";
    js "    * The necessary build tools as 'devDependencies' (e.g., " ++ DQUOTE :: js "vite" ++ DQUOTE :: js " and its plugins).";
    js "    * Script commands for " ++ DQUOTE :: js "dev" ++ DQUOTE :: js " and " ++ DQUOTE :: js "build" ++ DQUOTE :: js ".";
    js "4.  **Generate Build Config:** Create any necessary build configuration files (e.g., 'vite.config.js').";
    js "5.  **Generate 'index.html':** Create a new root 'index.html' file to load the new " ++ targetStack ++ js " application.";
    js "6.  **Generate 'README.md':** Create a new 'README.md' file that includes:";
    js "    * A title for the converted project.";
    js "    * Simple setup instructions: 'npm install' and 'npm run dev'.";
    js "7.  **Handle Imports:** Ensure all file imports/exports are updated to reflect the new file structure and syntax.";
    [];
    js "**OUTPUT FORMAT:**";
    js "- The output must *only* be the raw code for the new files.";
    js "- Do not include *any* explanations or introductory text.";
    js "- You *must* format your response as a series of files, using the following exact format for *every* file (including 'package.json', 'README.md', etc.):";
    [];
    js "// START_FILE: path/to/new/file.js";
    js "... (all the content for this file) ...";
    js "// END_FILE: path/to/new/file.js";
    [];
    js "---";
    js "**ORIGINAL PROJECT SOURCE CODE:**";
    js "---";
    fullProjectCode;
    js "---";
    js "    "
  ].

(** One entry of [projectContext]. *)
Definition contextEntry (relativePath content : jsString) : jsString :=
  js "File: " ++ relativePath ++ LF :: FENCE ++ LF :: content ++ LF :: FENCE.

(** The separator of [projectContext.join]. *)
Definition contextSeparator : jsString :=
  [LF; LF] ++ js "---" ++ [LF; LF].

(** The prompt of per-file mode. *)
Definition filePrompt (targetStack fileName originalContent : jsString) : jsString :=
  lines [
    js "You are an expert programmer specializing in frontend framework migration. Convert the following code snippet to " ++ targetStack ++ js ".";
    js "        - Preserve the original logic, functionality, and file structure.";
    js "        - Use modern best practices and idiomatic code for " ++ targetStack ++ js ".";
    js "        - Ensure the converted code is fully functional and equivalent to the original.";
    js "        - The output must be ONLY the raw code for the new file, without any explanations, introductions, or markdown code blocks.";
    js "        ";
    js "        Original file content (" ++ fileName ++ js "):";
    js "        ---";
    js "        " ++ originalContent;
    js "        ---";
    js "        ";
    js "        Converted " ++ targetStack ++ js " code:"
  ].

Definition MSG_NO_KEY : jsString :=
  js "Server is not configured with a Gemini API key.".

Definition MSG_NO_UPLOAD (field : jsString) : jsString :=
  js "No .zip file was uploaded under the " ++ DQUOTE :: field ++ DQUOTE :: js " field.".

Definition MSG_NO_TARGET : jsString :=
  js "The " ++ DQUOTE :: js "targetStack" ++ DQUOTE :: js " field is required.".

Definition MSG_BAD_TYPE (mimetype : jsString) : jsString :=
  js "Invalid file type: " ++ mimetype ++ js ". Please upload a .zip file.".

Definition MSG_UNPARSABLE : jsString :=
  js "Conversion failed: The AI returned an unparsable response.".

Definition MSG_SERVER_ERROR : jsString :=
  js "Failed to convert project due to a server error.".

(** The directory of one request below [tempDir]. *)
Definition requestDirName (now : jsString) : jsString := js "request-" ++ now.

(** The characters that Node accepts in the value of a header, those
    that [/[^\t\x20-\x7e\x80-\xff]/] does not match. *)
Definition headerChar (c : N) : bool :=
  ((c =? 9) || (32 <=? c) && (c <=? 126) || (128 <=? c) && (c <=? 255))%N.

(** Whether [res.set] accepts the value. *)
Definition validHeaderValue (value : jsString) : bool := forallb headerChar value.

Definition truthy (s : option jsString) : bool :=
  match s with
  | Some (_ :: _) => true
  | _ => false
  end.

Section Server.

(** The bytes of files and archives. *)
Variable Buffer : Type.

#[local] Set Warnings "-register-all".

(** A file with its bytes, or a directory with its listing. *)
Inductive node :=
| File (data : Buffer)
| Dir (entries : list (jsString * node)).

#[local] Set Warnings "register-all".

(** What is below [tempDir], by name. *)
Definition World := jsString -> option node.

(** An extraction leaves something at the directory of the request
    and returns, or throws. *)
Inductive ExtractResult :=
| ExtractThrows (after : option node)
| Extracted (after : option node).

Inductive ModelReply :=
| ModelThrows
| ModelText (text : jsString).

(** The archive library returns the buffer of an archive, or throws. *)
Inductive ZipResult :=
| ZipThrows
| Zipped (outputZipBuffer : Buffer).

Record UploadedFile := mkUpload {
  data : Buffer;
  name : jsString;
  mimetype : jsString
}.

Record Request := mkRequest {
  files : option (jsString -> option UploadedFile);
  body_targetStack : option jsString
}.

(** [req.files && req.files[field]] *)
Definition uploadOf (req : Request) (field : jsString) : option UploadedFile :=
  match files req with
  | Some fields => fields field
  | None => None
  end.

(** [res.status(status).json({ error })], or the headers of an
    archive and [res.send(outputZipBuffer)]. *)
Inductive Response :=
| Json (status : nat) (error : jsString)
| SendZip (contentDisposition : jsString) (outputZipBuffer : Buffer).

(** *** The file system *)

Fixpoint lookupEntry (n : jsString) (es : list (jsString * node)) : option node :=
  match es with
  | [] => None
  | (m, c) :: es' => if jsString_eqb n m then Some c else lookupEntry n es'
  end.

Fixpoint lookupPath (p : fsPath) (t : node) : option node :=
  match p with
  | [] => Some t
  | n :: p' =>
      match t with
      | File _ => None
      | Dir es =>
          match lookupEntry n es with
          | Some c => lookupPath p' c
          | None => None
          end
      end
  end.

(** The entry [n] replaced by [c], or added at the end. *)
Fixpoint setEntry (n : jsString) (c : node) (es : list (jsString * node))
  : list (jsString * node) :=
  match es with
  | [] => [(n, c)]
  | (m, d) :: es' =>
      if jsString_eqb n m then (m, c) :: es' else (m, d) :: setEntry n c es'
  end.

(** [fs.writeFileSync] below a node: the file is replaced, or created
    in an existing directory; [None] when it throws. *)
Fixpoint writePath (p : fsPath) (content : Buffer) (t : node) : option node :=
  match p with
  | [] =>
      match t with
      | File _ => Some (File content)
      | Dir _ => None
      end
  | n :: p' =>
      match t with
      | File _ => None
      | Dir es =>
          match lookupEntry n es with
          | Some c =>
              match writePath p' content c with
              | Some c' => Some (Dir (setEntry n c' es))
              | None => None
              end
          | None =>
              match p' with
              | [] => Some (Dir (setEntry n (File content) es))
              | _ :: _ => None
              end
          end
      end
  end.

Definition fsLookup (w : World) (p : fsPath) : option node :=
  match p with
  | [] => None
  | n :: p' =>
      match w n with
      | Some t => lookupPath p' t
      | None => None
      end
  end.

Definition fsReadFile (w : World) (p : fsPath) : option Buffer :=
  match fsLookup w p with
  | Some (File d) => Some d
  | _ => None
  end.

Definition fsSet (w : World) (n : jsString) (t : option node) : World :=
  fun m => if jsString_eqb m n then t else w m.

Definition fsWriteFile (w : World) (p : fsPath) (content : Buffer) : option World :=
  match p with
  | [] => None
  | n :: p' =>
      match w n with
      | Some t =>
          match writePath p' content t with
          | Some t' => Some (fsSet w n (Some t'))
          | None => None
          end
      | None => None
      end
  end.

(** [fs.existsSync] of a directory of [tempDir] *)
Definition existsSync (w : World) (n : jsString) : bool :=
  match w n with
  | Some _ => true
  | None => false
  end.

(** [fs.rmSync(_, { recursive: true, force: true })] *)
Definition rmSync (w : World) (n : jsString) : World := fsSet w n None.

(** The walk of [getAllFilePaths] in the directory [dir], which is the
    node [t]: the entries in the order of [readdirSync], a directory
    entered unless it is a skipped one, any other entry pushed. *)
Fixpoint walk (dir : fsPath) (t : node) : list fsPath :=
  match t with
  | File _ => []
  | Dir es =>
      flat_map (fun e =>
        let file := fst e in
        let filePath := dir ++ [file] in
        match snd e with
        | Dir _ =>
            if negb (skippedDirectory file) then walk filePath (snd e) else []
        | File _ => [filePath]
        end) es
  end.

(** [getAllFilePaths(dir)]; [None] when [readdirSync] throws. *)
Definition getAllFilePaths (w : World) (dir : fsPath) : option (list fsPath) :=
  match fsLookup w dir with
  | Some (Dir es) => Some (walk dir (Dir es))
  | _ => None
  end.

(** *** Effects: the file system, the prompts sent, and exceptions *)

Record State := mkSt { fs : World; sent : list jsString }.

(** A computation returns a value or throws. *)
Definition M (A : Type) := State -> State * option A.

Definition ret (A : Type) (a : A) : M A := fun s => (s, Some a).

Definition bind (A B : Type) (m : M A) (f : A -> M B) : M B := fun s =>
  match m s with
  | (s', Some a) => f a s'
  | (s', None) => (s', None)
  end.

Definition throw {A : Type} : M A := fun s => (s, None).

Definition tryCatch (A : Type) (m : M A) (handler : M A) : M A := fun s =>
  match m s with
  | (s', Some a) => (s', Some a)
  | (s', None) => handler s'
  end.

Definition liftOption (A : Type) (f : State -> option A) : M A := fun s =>
  match f s with
  | Some a => (s, Some a)
  | None => (s, None)
  end.

Notation "x <- m ;; k" := (bind m (fun x => k))
  (at level 61, m at next level, right associativity).

(** What the handlers use from outside the repository: the encoding
    ['utf-8'] of [fs] and [Buffer.from], [path.extname] (which reads the
    last segment of a path), the archive library, and the model. *)
Class Platform := {
  utf8_decode : Buffer -> jsString;
  utf8_encode : jsString -> Buffer;
  extname : jsString -> jsString;
  (** [new AdmZip(data)] and [extractAllTo], given what is at the
      directory of the request. *)
  extractAllTo : Buffer -> option node -> ExtractResult;
  (** [ai.models.generateContent], after the prompts sent before. *)
  generateContent : list jsString -> jsString -> ModelReply;
  (** [new AdmZip()], [addFile(path, data)] for each pair in turn, and
      [toBuffer()]. The library decides what the archive holds when a
      path is added twice, how it writes the paths, and in what order
      it writes the entries. *)
  zipOfFiles : list (jsString * Buffer) -> ZipResult;
  (** [new AdmZip()], [addLocalFolder(dir)] for a directory with this
      listing of files and directories, and [toBuffer()]. *)
  zipOfFolder : list (jsString * node) -> ZipResult
}.

Context {platform : Platform}.

(** [const zip = new AdmZip(projectZip.data); zip.extractAllTo(extractPath, true)] *)
Definition extractProject (bytes : Buffer) (requestTempDir : jsString) : M unit :=
  fun s =>
    match extractAllTo bytes (fs s requestTempDir) with
    | ExtractThrows after => (mkSt (fsSet (fs s) requestTempDir after) (sent s), None)
    | Extracted after => (mkSt (fsSet (fs s) requestTempDir after) (sent s), Some tt)
    end.

Definition readFileSync (filePath : fsPath) : M jsString :=
  liftOption (fun s => option_map utf8_decode (fsReadFile (fs s) filePath)).

Definition writeFileSync (filePath : fsPath) (text : jsString) : M unit := fun s =>
  match fsWriteFile (fs s) filePath (utf8_encode text) with
  | Some w => (mkSt w (sent s), Some tt)
  | None => (s, None)
  end.

(** [(await ai.models.generateContent({ model, contents: prompt })).text] *)
Definition generate (prompt : jsString) : M jsString := fun s =>
  match generateContent (sent s) prompt with
  | ModelText text => (mkSt (fs s) (sent s ++ [prompt]), Some text)
  | ModelThrows => (mkSt (fs s) (sent s ++ [prompt]), None)
  end.

Definition isCodeFile (file : fsPath) : bool :=
  CODE_EXTENSIONS_has (extname (basename file)).

Definition contentDispositionOf (projectZip : UploadedFile) : jsString :=
  js "attachment; filename=" ++ DQUOTE :: js "converted-" ++ name projectZip ++ [DQUOTE].

(** [new AdmZip()], [outputZip.addFile(file.path, Buffer.from(file.content, 'utf8'))]
    for each file, and [outputZip.toBuffer()]. *)
Definition zipConvertedFiles (convertedFiles : list ConvertedFile) : M Buffer :=
  fun s =>
    match zipOfFiles
            (map (fun file => (path file, utf8_encode (content file))) convertedFiles)
    with
    | Zipped outputZipBuffer => (s, Some outputZipBuffer)
    | ZipThrows => (s, None)
    end.

(** [new AdmZip()], [outputZip.addLocalFolder(dir)], which throws when
    [dir] is not a directory, and [outputZip.toBuffer()]. *)
Definition addLocalFolder (dir : fsPath) : M Buffer := fun s =>
  match fsLookup (fs s) dir with
  | Some (Dir es) =>
      match zipOfFolder es with
      | Zipped outputZipBuffer => (s, Some outputZipBuffer)
      | ZipThrows => (s, None)
      end
  | _ => (s, None)
  end.

(** [res.set('Content-Type', 'application/zip')],
    [res.set('Content-Disposition', ...)], which throws when the value
    is not one that a header can carry, and [res.send(outputZipBuffer)]. *)
Definition sendZip (projectZip : UploadedFile) (outputZipBuffer : Buffer)
  : M Response :=
  let contentDisposition := contentDispositionOf projectZip in
  if validHeaderValue contentDisposition
  then ret (SendZip contentDisposition outputZipBuffer)
  else throw.

(** *** Whole-project mode *)

(** The loop that fills [projectContext]. *)
Fixpoint readProjectContext (extractPath : fsPath) (codeFiles : list fsPath)
    (projectContext : list jsString) : M (list jsString) :=
  match codeFiles with
  | [] => ret projectContext
  | filePath :: more =>
      content <- readFileSync filePath ;;
      let relativePath := replaceBackslashes (relative extractPath filePath) in
      match trim content with
      | _ :: _ =>
          readProjectContext extractPath more
            (projectContext ++ [contextEntry relativePath content])
      | [] => readProjectContext extractPath more projectContext
      end
  end.

(** The body of [try] in whole-project mode. *)
Definition convertWholeProject (projectZip : UploadedFile) (targetStack : jsString)
    (requestTempDir : jsString) : M Response :=
  let extractPath := [requestTempDir; js "source"] in
  _ <- extractProject (data projectZip) requestTempDir ;;
  allFiles <- liftOption (fun s => getAllFilePaths (fs s) extractPath) ;;
  let codeFiles := filter isCodeFile allFiles in
  projectContext <- readProjectContext extractPath codeFiles [] ;;
  let fullProjectCode := join contextSeparator projectContext in
  let prompt := wholeProjectPrompt targetStack fullProjectCode in
  aiResponseText <- generate prompt ;;
  let convertedFiles := parseAIResponse aiResponseText in
  match convertedFiles with
  | [] => ret (Json 500 MSG_UNPARSABLE)
  | _ :: _ =>
      outputZipBuffer <- zipConvertedFiles convertedFiles ;;
      sendZip projectZip outputZipBuffer
  end.

(** [try { ... } catch { ... } finally { ... }] around a body. *)
Definition guarded (body : M Response) (requestTempDir : jsString) (s : State)
  : State * Response :=
  let (s1, r) := body s in
  let response :=
    match r with
    | Some response => response
    | None => Json 500 MSG_SERVER_ERROR
    end in
  let s2 :=
    if existsSync (fs s1) requestTempDir
    then mkSt (rmSync (fs s1) requestTempDir) (sent s1)
    else s1 in
  (s2, response).

(** [app.post('/convert', ...)] of the whole-project variant. *)
Definition handleConvertWholeProject (GEMINI_API_KEY : option jsString)
    (req : Request) (now : jsString) (s : State) : State * Response :=
  if negb (truthy GEMINI_API_KEY) then (s, Json 500 MSG_NO_KEY)
  else
    match uploadOf req (js "sourceCode") with
    | None => (s, Json 400 (MSG_NO_UPLOAD (js "sourceCode")))
    | Some projectZip =>
        if negb (truthy (body_targetStack req)) then (s, Json 400 MSG_NO_TARGET)
        else
          let targetStack :=
            match body_targetStack req with Some t => t | None => [] end in
          let requestTempDir := requestDirName now in
          guarded (convertWholeProject projectZip targetStack requestTempDir)
            requestTempDir s
    end.

(** *** Per-file mode *)

(** The loop over [codeFiles]. *)
Fixpoint convertFiles (targetStack : jsString) (codeFiles : list fsPath) : M unit :=
  match codeFiles with
  | [] => ret tt
  | filePath :: more =>
      originalContent <- readFileSync filePath ;;
      match trim originalContent with
      | [] => convertFiles targetStack more
      | _ :: _ =>
          let prompt := filePrompt targetStack (basename filePath) originalContent in
          _ <- tryCatch
                 (text <- generate prompt ;;
                  let convertedCode := parseCodeFromResponse text in
                  writeFileSync filePath convertedCode)
                 (ret tt) ;;
          convertFiles targetStack more
      end
  end.

(** The body of [try] in per-file mode. *)
Definition convertPerFile (projectZip : UploadedFile) (targetStack : jsString)
    (requestTempDir : jsString) : M Response :=
  let extractPath := [requestTempDir; js "source"] in
  _ <- extractProject (data projectZip) requestTempDir ;;
  allFiles <- liftOption (fun s => getAllFilePaths (fs s) extractPath) ;;
  let codeFiles := filter isCodeFile allFiles in
  _ <- convertFiles targetStack codeFiles ;;
  outputZipBuffer <- addLocalFolder extractPath ;;
  sendZip projectZip outputZipBuffer.

Definition isZipType (mimetype : jsString) : bool :=
  jsString_eqb mimetype (js "application/zip")
  || jsString_eqb mimetype (js "application/x-zip-compressed").

(** [app.post('/convert', ...)] of the per-file variant. *)
Definition handleConvertPerFile (GEMINI_API_KEY : option jsString)
    (req : Request) (now : jsString) (s : State) : State * Response :=
  if negb (truthy GEMINI_API_KEY) then (s, Json 500 MSG_NO_KEY)
  else
    match uploadOf req (js "projectZip") with
    | None => (s, Json 400 (MSG_NO_UPLOAD (js "projectZip")))
    | Some projectZip =>
        if negb (truthy (body_targetStack req)) then (s, Json 400 MSG_NO_TARGET)
        else
          let targetStack :=
            match body_targetStack req with Some t => t | None => [] end in
          if negb (isZipType (mimetype projectZip))
          then (s, Json 400 (MSG_BAD_TYPE (mimetype projectZip)))
          else
            let requestTempDir := requestDirName now in
            guarded (convertPerFile projectZip targetStack requestTempDir)
              requestTempDir s
    end.

(** *** The test client of [testAPI.js] *)

(** [TARGET_STACK] *)
Definition TARGET_STACK : jsString := js "Vue".

(** The request that [runTest] posts: the archive under the field
    [sourceCode], with the file name [test-project.zip], and the field
    [targetStack]. The content type of the file part is the one that
    the form library gives it. *)
Definition runTest_request (testZipBuffer : Buffer) (contentType : jsString) : Request :=
  mkRequest
    (Some (fun field =>
       if jsString_eqb field (js "sourceCode")
       then Some (mkUpload testZipBuffer (js "test-project.zip") contentType)
       else None))
    (Some TARGET_STACK).

(** *** Notions for the properties of the handlers

    The definitions from here to the end of the section are not in
    the source: they are what the lemmas about the file system and the
    handlers are stated with. *)

(** A file read below a node. *)
Definition readPath (p : fsPath) (t : node) : option Buffer :=
  match lookupPath p t with
  | Some (File d) => Some d
  | _ => None
  end.

(** Each name is listed once in every directory. *)
Inductive wf : node -> Prop :=
| wf_File (d : Buffer) : wf (File d)
| wf_Dir (es : list (jsString * node)) :
    NoDup (map fst es) ->
    (forall n c, In (n, c) es -> wf c) ->
    wf (Dir es).

(** Whether a directory is at a path. *)
Definition isDirAt (p : fsPath) (t : node) : bool :=
  match lookupPath p t with
  | Some (Dir _) => true
  | _ => false
  end.

Definition fsIsDir (w : World) (p : fsPath) : bool :=
  match fsLookup w p with
  | Some (Dir _) => true
  | _ => false
  end.

(** *** The loop of per-file mode, one file at a time *)

(** The state after the [try]/[catch] of one file with content. *)
Definition afterFile (targetStack : jsString) (filePath : fsPath)
    (originalContent : jsString) (s : State) : State :=
  let prompt := filePrompt targetStack (basename filePath) originalContent in
  match generateContent (sent s) prompt with
  | ModelThrows => mkSt (fs s) (sent s ++ [prompt])
  | ModelText text =>
      match fsWriteFile (fs s) filePath (utf8_encode (parseCodeFromResponse text)) with
      | Some w => mkSt w (sent s ++ [prompt])
      | None => mkSt (fs s) (sent s ++ [prompt])
      end
  end.

(** *** The body of whole-project mode *)

Definition entryOf (extractPath : fsPath) (qc : fsPath * jsString) : jsString :=
  contextEntry (replaceBackslashes (relative extractPath (fst qc))) (snd qc).

(** The response once the archive library has returned, or thrown: the
    headers are set and the buffer is sent, and an exception of the
    library or of [res.set] is answered by [catch]. *)
Definition packedResponse (projectZip : UploadedFile) (packed : ZipResult)
  : Response :=
  match packed with
  | Zipped outputZipBuffer =>
      if validHeaderValue (contentDispositionOf projectZip)
      then SendZip (contentDispositionOf projectZip) outputZipBuffer
      else Json 500 MSG_SERVER_ERROR
  | ZipThrows => Json 500 MSG_SERVER_ERROR
  end.

(** What whole-project mode answers to a reply of the model. *)
Definition answerTo (projectZip : UploadedFile) (text : jsString) : Response :=
  match parseAIResponse text with
  | [] => Json 500 MSG_UNPARSABLE
  | f :: more =>
      packedResponse projectZip
        (zipOfFiles
           (map (fun file => (path file, utf8_encode (content file))) (f :: more)))
  end.

(** *** The files that make the prompts, and the paths of a directory *)

(** The files of [codeFiles] whose content, as read in [w], is not
    blank, each with its content: the files that the loops of the two
    modes do not pass over. *)
Definition promptSources (w : World) (codeFiles : list fsPath)
  : list (fsPath * jsString) :=
  flat_map (fun filePath =>
    match fsReadFile w filePath with
    | Some bytes =>
        match trim (utf8_decode bytes) with
        | [] => []
        | _ :: _ => [(filePath, utf8_decode bytes)]
        end
    | None => []
    end) codeFiles.

(** Every file below a node, with its path from there. *)
Fixpoint allFiles (rel : fsPath) (t : node) : list (fsPath * Buffer) :=
  match t with
  | File d => [(rel, d)]
  | Dir es => flat_map (fun e => allFiles (rel ++ [fst e]) (snd e)) es
  end.

(** The paths of the files below a node, in the order of the listings. *)
Definition filePaths (t : node) : list fsPath := map fst (allFiles [] t).

(** The archive could not be extracted, or its extraction left no
    directory [source] at the directory of the request. *)
Definition extractionFailed (bytes : Buffer) (requestTempDir : jsString) (s : State)
  : Prop :=
  (exists after, extractAllTo bytes (fs s requestTempDir) = ExtractThrows after) \/
  (exists after, extractAllTo bytes (fs s requestTempDir) = Extracted after /\
     fsIsDir (fsSet (fs s) requestTempDir after) [requestTempDir; js "source"] = false).

End Server.

Arguments Json {Buffer} status error.
Arguments ZipThrows {Buffer}.
Arguments throw {Buffer A}.
Arguments ret {Buffer A} a.
Arguments isCodeFile {Buffer platform} file.
Arguments filePaths {Buffer} t.

(* ================================================================== *)
(** ** A project, a request and two models, for the examples *)
(* ================================================================== *)

Module Example.

(** An [extname] for the examples: from the last dot that is not the
    first character of the name. *)
Fixpoint fromLastDot (s : jsString) : option jsString :=
  match s with
  | [] => None
  | c :: s' =>
      match fromLastDot s' with
      | Some e => Some e
      | None => if N.eqb c 46 then Some (c :: s') else None
      end
  end.

Definition extension (name : jsString) : jsString :=
  match name with
  | _ :: s =>
      match fromLastDot s with
      | Some e => e
      | None => []
      end
  | [] => []
  end.

(** The directory [source] of an extracted project. *)
Definition source : node jsString :=
  Dir [(js "App.jsx", File (js "code"));
       (js "logo.png", File (js "PNG"));
       (js "node_modules", Dir [(js "x.js", File (js "lib"))]);
       (js "src", Dir [(js "main.js", File (js "m"))])].

Definition sourceEntries : list (jsString * node jsString) :=
  match source with
  | Dir es => es
  | File _ => []
  end.

Definition root : node jsString := Dir [(js "source", source)].

Definition extract (bytes : jsString) (present : option (node jsString))
  : ExtractResult jsString :=
  Extracted (Some root).

Definition upload : UploadedFile jsString :=
  mkUpload (js "PK") (js "app.zip") (js "application/zip").

(** A request with the upload under both field names. *)
Definition request : Request jsString :=
  mkRequest (Some (fun field => Some upload)) (Some (js "Vue")).

Definition requestWithoutUpload : Request jsString :=
  mkRequest None (Some (js "Vue")).

Definition emptyState : State jsString := mkSt (fun _ => None) [].

Definition modelApologizes (history : list jsString) (prompt : jsString)
  : ModelReply :=
  ModelText (js "Sorry, I can not convert this project.").

(** A model that fails on [App.jsx] and converts every other file. *)
Definition modelFailsOnApp (history : list jsString) (prompt : jsString)
  : ModelReply :=
  if jsString_eqb prompt (filePrompt (js "Vue") (js "App.jsx") (js "code"))
  then ModelThrows
  else ModelText (FENCE ++ js "vue" ++ LF :: js "<template/>" ++ LF :: FENCE).

(** A model that answers with one block, for [src/App.vue]. *)
Definition modelConverts (history : list jsString) (prompt : jsString)
  : ModelReply :=
  ModelText (renderBlock (mkBlock (js "src/App.vue") (js "<template/>"))).

Definition modelThrows (history : list jsString) (prompt : jsString)
  : ModelReply :=
  ModelThrows.

(** An extraction that throws after it has written the project. *)
Definition extractThrows (bytes : jsString) (present : option (node jsString))
  : ExtractResult jsString :=
  ExtractThrows (Some root).

(** An archive library for the examples: the buffer of an archive is
    the text of what was added, [name=content;] for each file. *)
Definition zipText (files : list (jsString * jsString)) : ZipResult jsString :=
  Zipped (flat_map (fun e => fst e ++ js "=" ++ snd e ++ js ";") files).

Definition zipFolderText (listing : list (jsString * node jsString))
  : ZipResult jsString :=
  zipText (map (fun pd => (join [SLASH] (fst pd), snd pd)) (allFiles [] (Dir listing))).

Definition platform (model : list jsString -> jsString -> ModelReply)
  : Platform jsString :=
  {| utf8_decode := fun bytes => bytes;
     utf8_encode := fun text => text;
     extname := extension;
     extractAllTo := extract;
     generateContent := model;
     zipOfFiles := zipText;
     zipOfFolder := zipFolderText |}.

Definition platformExtractThrows : Platform jsString :=
  {| utf8_decode := fun bytes => bytes;
     utf8_encode := fun text => text;
     extname := extension;
     extractAllTo := extractThrows;
     generateContent := modelConverts;
     zipOfFiles := zipText;
     zipOfFolder := zipFolderText |}.

Definition wholeProject (model : list jsString -> jsString -> ModelReply) :=
  @handleConvertWholeProject jsString (platform model).

Definition perFile (model : list jsString -> jsString -> ModelReply) :=
  @handleConvertPerFile jsString (platform model).

(** The temporary directory after the extraction of the project, for
    the request of time [1]. *)
Definition extractedWorld : World jsString :=
  fun n => if jsString_eqb n (js "request-1") then Some root else None.

(** The temporary directory while another request is served. *)
Definition busyState : State jsString :=
  mkSt (fun n => if jsString_eqb n (js "request-0") then Some root else None) [].

(** A project with a blank file. *)
Definition sourceWithBlank : node jsString :=
  Dir [(js "App.jsx", File (js "code"));
       (js "empty.css", File (js "  " ++ [LF]))].

Definition sourceWithBlankEntries : list (jsString * node jsString) :=
  match sourceWithBlank with
  | Dir es => es
  | File _ => []
  end.

Definition rootWithBlank : node jsString := Dir [(js "source", sourceWithBlank)].

Definition platformWithBlank : Platform jsString :=
  {| utf8_decode := fun bytes => bytes;
     utf8_encode := fun text => text;
     extname := extension;
     extractAllTo := fun _ _ => Extracted (Some rootWithBlank);
     generateContent := modelFailsOnApp;
     zipOfFiles := zipText;
     zipOfFolder := zipFolderText |}.

(** An extraction that returns and leaves nothing. *)
Definition platformExtractsNothing : Platform jsString :=
  {| utf8_decode := fun bytes => bytes;
     utf8_encode := fun text => text;
     extname := extension;
     extractAllTo := fun _ _ => Extracted None;
     generateContent := modelConverts;
     zipOfFiles := zipText;
     zipOfFolder := zipFolderText |}.



(** An upload whose name holds a check mark, a character that no
    header can carry. *)
Definition uploadWithCheckMark : UploadedFile jsString :=
  mkUpload (js "PK") (js "app" ++ 10003%N :: js ".zip") (js "application/zip").

Definition requestWithCheckMark : Request jsString :=
  mkRequest (Some (fun field => Some uploadWithCheckMark)) (Some (js "Vue")).

(** A reply with a sentence before and after its block. *)
Definition replyWithProse : jsString :=
  js "Here is the component:" ++ LF :: FENCE ++ js "vue" ++ LF
  :: (js "<template/>" ++ [LF]) ++ FENCE ++ LF :: js "Let me know.".

End Example.

(** Two blocks, the second with a fenced content. *)
Definition exampleBlocks : list (Block * jsString) :=
  [(mkBlock (js "src/App.vue") (js "<template/>"), [LF]);
   (mkBlock (js "package.json")
      (FENCE ++ js "json" ++ LF :: js "{ }" ++ LF :: FENCE), [])].

(** The prompt of whole-project mode for the project of the examples. *)
Definition examplePrompt : jsString :=
  wholeProjectPrompt (js "Vue")
    (join contextSeparator
       [contextEntry (js "App.jsx") (js "code");
        contextEntry (js "src/main.js") (js "m")]).

(* ================================================================== *)
(** ** What the matchers compute *)
(* ================================================================== *)

Lemma stripPrefix_Some (l r r' : jsString) :
  stripPrefix l r = Some r' <-> r = l ++ r'.
Proof.
  revert r; induction l as [|c l IH]; intros r; simpl.
  - split; intros H; [injection H as <-; reflexivity | now subst].
  - destruct r as [|d r]; [split; discriminate|].
    destruct (N.eqb_spec c d) as [->|Hne].
    + rewrite IH. split; intros H; [now subst | now injection H].
    + split; [discriminate | intros H; injection H as H _; now symmetry in H].
Qed.

Lemma stripPrefix_app (l r : jsString) : stripPrefix l (l ++ r) = Some r.
Proof. now apply stripPrefix_Some. Qed.

Lemma takeWhile_dropWhile (P : N -> bool) (s : jsString) :
  takeWhile P s ++ dropWhile P s = s.
Proof.
  induction s as [|c s IH]; simpl; [reflexivity|].
  destruct (P c); simpl; [now rewrite IH | reflexivity].
Qed.

Lemma takeWhile_all (P : N -> bool) (s : jsString) :
  forallb P (takeWhile P s) = true.
Proof.
  induction s as [|c s IH]; simpl; [reflexivity|].
  destruct (P c) eqn:E; simpl; [now rewrite E | reflexivity].
Qed.

Lemma takeWhile_app_stop (P : N -> bool) (a : jsString) (c : N) (t : jsString) :
  forallb P a = true -> P c = false ->
  takeWhile P (a ++ c :: t) = a /\ dropWhile P (a ++ c :: t) = c :: t.
Proof.
  intros Ha Hc. induction a as [|d a IH]; simpl in *.
  - now rewrite Hc.
  - apply andb_true_iff in Ha as [Hd Ha]. rewrite Hd.
    destruct (IH Ha) as [-> ->]. easy.
Qed.

Lemma takeWhile_all_id (P : N -> bool) (a : jsString) :
  forallb P a = true -> takeWhile P a = a /\ dropWhile P a = [].
Proof.
  induction a as [|d a IH]; simpl; [easy|].
  intros H; apply andb_true_iff in H as [Hd Ha]. rewrite Hd.
  destruct (IH Ha) as [-> ->]. easy.
Qed.

Lemma anyChar_true (c : N) : anyChar c = true.
Proof. unfold anyChar, notSpace. now destruct (isSpace c). Qed.

(** *** The split functions, declaratively *)

Lemma findFirst_Some (A : Type) (T : jsString -> option A) (r a b : jsString) (x : A) :
  findFirst T r = Some (a, b, x) ->
  r = a ++ b /\ T b = Some x /\
  (forall a1 a2, a = a1 ++ a2 -> a2 <> [] -> T (a2 ++ b) = None).
Proof.
  revert a; induction r as [|c r IH]; intros a; simpl.
  - destruct (T []) eqn:E; [|discriminate].
    intros H; injection H as <- <- <-. repeat split; trivial.
    intros [|] [|]; simpl; congruence.
  - destruct (T (c :: r)) eqn:E.
    + intros H; injection H as <- <- <-. repeat split; trivial.
      intros [|] [|]; simpl; congruence.
    + destruct (findFirst T r) as [[[a' b'] x']|] eqn:F; [|discriminate].
      intros H; injection H as <- <- <-.
      destruct (IH a' eq_refl) as (-> & Hx & Hmin).
      repeat split; trivial.
      intros [|d a1] a2 Ha Hne; simpl in Ha.
      * subst a2. exact E.
      * injection Ha as _ Ha. now apply (Hmin a1).
Qed.

Lemma findFirst_None (A : Type) (T : jsString -> option A) (r : jsString) :
  findFirst T r = None -> forall a b, r = a ++ b -> T b = None.
Proof.
  induction r as [|c r IH]; simpl.
  - destruct (T []) eqn:E; [discriminate|].
    intros _ [|] [|]; simpl; congruence.
  - destruct (T (c :: r)) eqn:E; [discriminate|].
    destruct (findFirst T r) as [[[a' b'] x']|] eqn:F; [discriminate|].
    intros _ [|d a] b Hab; simpl in Hab.
    + now subst b.
    + injection Hab as _ Hab. now apply (IH eq_refl a).
Qed.

Lemma findFirst_intro (A : Type) (T : jsString -> option A) (a b : jsString) (x : A) :
  T b = Some x ->
  (forall a1 a2, a = a1 ++ a2 -> a2 <> [] -> T (a2 ++ b) = None) ->
  findFirst T (a ++ b) = Some (a, b, x).
Proof.
  intros Hx. induction a as [|c a IH]; intros Hmin; simpl.
  - destruct b; simpl; now rewrite Hx.
  - assert (E : T (c :: a ++ b) = None)
      by (apply (Hmin [] (c :: a) eq_refl); discriminate).
    rewrite E, IH; [reflexivity|].
    intros a1 a2 -> Hne. now apply (Hmin (c :: a1)).
Qed.

Lemma findLast_Some (A : Type) (T : jsString -> option A) (r a b : jsString) (x : A) :
  findLast T r = Some (a, b, x) ->
  r = a ++ b /\ T b = Some x /\
  (forall b1 b2, b = b1 ++ b2 -> b1 <> [] -> T b2 = None).
Proof.
  revert a; induction r as [|c r IH]; intros a; simpl.
  - destruct (T []) eqn:E; [|discriminate].
    intros H; injection H as <- <- <-. repeat split; trivial.
    intros [|] [|]; simpl; congruence.
  - destruct (findLast T r) as [[[a' b'] x']|] eqn:F.
    + intros H; injection H as <- <- <-.
      destruct (IH a' eq_refl) as (-> & Hx & Hmax). repeat split; trivial.
    + destruct (T (c :: r)) eqn:E; [|discriminate].
      intros H; injection H as <- <- <-. repeat split; trivial.
      intros [|d b1] b2 Hb Hne; [congruence|].
      injection Hb as _ ->.
      destruct (T b2) eqn:E2; [|reflexivity]. exfalso.
      clear - F E2. revert F. induction b1 as [|e b1 IH]; simpl.
      * destruct b2; simpl; [now rewrite E2|].
        destruct (findLast T b2) as [[[? ?] ?]|]; [discriminate|now rewrite E2].
      * destruct (findLast T (b1 ++ b2)) as [[[? ?] ?]|]; [discriminate|].
        intros _. now apply IH.
Qed.

Lemma findLast_intro (A : Type) (T : jsString -> option A) (a b : jsString) (x : A) :
  T b = Some x ->
  (forall b1 b2, b = b1 ++ b2 -> b1 <> [] -> T b2 = None) ->
  findLast T (a ++ b) = Some (a, b, x).
Proof.
  intros Hx Hmax.
  assert (Hb : findLast T b = Some ([], b, x)).
  { destruct b as [|c b]; simpl; [now rewrite Hx|].
    destruct (findLast T b) as [[[a' b'] x']|] eqn:F.
    - apply findLast_Some in F as (-> & Hx' & _).
      rewrite (Hmax (c :: a') b' eq_refl) in Hx' by discriminate. discriminate.
    - now rewrite Hx. }
  induction a as [|c a IH]; simpl; [exact Hb|].
  now rewrite IH.
Qed.

(** *** The combinators on tests of the remaining input *)

Lemma literal_eq (l : jsString) (st : MatchState) (k : Continuation) :
  literal l st k =
  match stripPrefix l (rest st) with
  | Some r' => k (mkState (length l + endIndex st) r' (captures st))
  | None => None
  end.
Proof.
  revert st; induction l as [|c l IH]; intros [i r caps]; simpl.
  - reflexivity.
  - unfold seq, charSet; simpl. destruct r as [|d r]; [reflexivity|].
    destruct (N.eqb c d); [|reflexivity].
    rewrite IH; simpl. now rewrite Nat.add_succ_r.
Qed.

(** A greedy star whose continuation refuses every character of the
    class takes the whole run. *)
Lemma starGreedyFrom_forced (P : N -> bool) (r : jsString) (i : nat)
    (caps : nat -> option jsString) (k : Continuation) :
  (forall j c r', P c = true -> k (mkState j (c :: r') caps) = None) ->
  starGreedyFrom P r i caps k =
  k (mkState (length (takeWhile P r) + i) (dropWhile P r) caps).
Proof.
  intros Hk. revert i; induction r as [|c r IH]; intros i; simpl.
  - reflexivity.
  - destruct (P c) eqn:E; [|reflexivity].
    rewrite IH, Nat.add_succ_r.
    destruct (k _) eqn:K; [reflexivity|]. now apply Hk.
Qed.

Lemma starLazyFrom_any (A : Type) (T : jsString -> option A)
    (G : nat -> jsString -> A -> MatchState)
    (r : jsString) (i : nat) (caps : nat -> option jsString) (k : Continuation) :
  (forall j r', k (mkState j r' caps) =
     match T r' with Some x => Some (G j r' x) | None => None end) ->
  starLazyFrom anyChar r i caps k =
  match findFirst T r with
  | Some (a, b, x) => Some (G (length a + i) b x)
  | None => None
  end.
Proof.
  intros Hk. revert i; induction r as [|c r IH]; intros i; simpl.
  - rewrite Hk. now destruct (T []).
  - rewrite Hk. destruct (T (c :: r)); [reflexivity|].
    rewrite anyChar_true, IH.
    destruct (findFirst T r) as [[[a b] x]|]; [|reflexivity].
    simpl. now rewrite Nat.add_succ_r.
Qed.

Lemma starGreedyFrom_any (A : Type) (T : jsString -> option A)
    (G : nat -> jsString -> A -> MatchState)
    (r : jsString) (i : nat) (caps : nat -> option jsString) (k : Continuation) :
  (forall j r', k (mkState j r' caps) =
     match T r' with Some x => Some (G j r' x) | None => None end) ->
  starGreedyFrom anyChar r i caps k =
  match findLast T r with
  | Some (a, b, x) => Some (G (length a + i) b x)
  | None => None
  end.
Proof.
  intros Hk. revert i; induction r as [|c r IH]; intros i; simpl.
  - rewrite Hk. now destruct (T []).
  - rewrite anyChar_true, IH.
    destruct (findLast T r) as [[[a b] x]|].
    + simpl. now rewrite Nat.add_succ_r.
    + rewrite Hk. now destruct (T (c :: r)).
Qed.

(** The search tries every split of the input in turn. *)
Lemma searchFrom_Some (m : Matcher) (r : jsString) (i j : nat) (st : MatchState) :
  searchFrom m r i = Some (j, st) ->
  exists a b, r = a ++ b /\ j = length a + i /\ matchAt m b j = Some st /\
    (forall a1 a2, a = a1 ++ a2 -> a2 <> [] ->
       matchAt m (a2 ++ b) (length a1 + i) = None).
Proof.
  revert i; induction r as [|c r IH]; intros i; simpl.
  - destruct (matchAt m [] i) eqn:E; [|discriminate].
    intros H; injection H as <- <-. exists [], []. repeat split; trivial.
    intros [|] [|]; simpl; congruence.
  - destruct (matchAt m (c :: r) i) eqn:E.
    + intros H; injection H as <- <-. exists [], (c :: r). repeat split; trivial.
      intros [|] [|]; simpl; congruence.
    + intros H. destruct (IH _ H) as (a & b & -> & -> & Hm & Hmin).
      exists (c :: a), b. simpl. rewrite Nat.add_succ_r in *. repeat split; trivial.
      intros [|d a1] a2 Ha Hne; simpl in Ha.
      * subst a2. exact E.
      * injection Ha as _ Ha. simpl.
        rewrite <- Nat.add_succ_r. now apply Hmin.
Qed.

(** *** The three patterns as functions of the input *)

Lemma stripPrefix_app_l (a b r : jsString) :
  stripPrefix (a ++ b) r =
  match stripPrefix a r with
  | Some r' => stripPrefix b r'
  | None => None
  end.
Proof.
  revert r; induction a as [|c a IH]; intros r; simpl; [reflexivity|].
  destruct r as [|d r]; [reflexivity|]. now destruct (N.eqb c d).
Qed.

Lemma firstn_takeWhile (P : N -> bool) (r : jsString) :
  firstn (length (takeWhile P r)) r = takeWhile P r.
Proof.
  induction r as [|c r IH]; simpl; [reflexivity|].
  destruct (P c); simpl; [now rewrite IH | reflexivity].
Qed.

Lemma matchAt_fileRegex (r : jsString) (i : nat) :
  matchAt fileRegex r i =
  match fileBlockAt r with
  | Some (p, c, x) =>
      Some (mkState (fileMatchEnd i p c) x
              (setCapture 2 c (setCapture 1 p noCaptures)))
  | None => None
  end.
Proof.
  unfold matchAt, fileRegex, fileBlockAt.
  unfold seq at 1. rewrite literal_eq. cbn [rest endIndex captures].
  destruct (stripPrefix START_FILE r) as [r1|]; [|reflexivity].
  unfold seq at 1, group at 1, plusGreedy, seq at 1, charSet.
  cbn [rest endIndex captures].
  destruct r1 as [|c r1]; [reflexivity|].
  cbn [takeWhile dropWhile].
  destruct (notSpace c) eqn:Hc; [|reflexivity].
  unfold starGreedy. cbn [rest endIndex captures].
  rewrite starGreedyFrom_forced.
  2:{ intros j d r' Hd. cbn [rest endIndex captures].
      unfold seq at 1. rewrite literal_eq. cbn [rest stripPrefix].
      destruct (N.eqb_spec LF d) as [<-|]; [discriminate|reflexivity]. }
  cbn [rest endIndex captures].
  replace (length (takeWhile notSpace r1) + S (length START_FILE + i)
           - (length START_FILE + i))
    with (S (length (takeWhile notSpace r1))) by lia.
  cbn [firstn]. rewrite firstn_takeWhile.
  set (p := c :: takeWhile notSpace r1).
  unfold seq at 1. rewrite literal_eq. cbn [rest endIndex captures stripPrefix].
  destruct (dropWhile notSpace r1) as [|d r3]; [reflexivity|].
  destruct (N.eqb LF d); [|reflexivity].
  unfold seq at 1, group at 1, starLazy. cbn [rest endIndex captures].
  set (e := length [LF] + (length (takeWhile notSpace r1) + S (length START_FILE + i))).
  rewrite (starLazyFrom_any (stripPrefix (END_FILE ++ p))
             (fun j b x => mkState (length p + (length END_FILE + j)) x
                (setCapture 2 (firstn (j - e) r3) (setCapture 1 p noCaptures)))).
  2:{ intros j r'. unfold seq. rewrite literal_eq. cbn [rest endIndex captures].
      rewrite stripPrefix_app_l.
      destruct (stripPrefix END_FILE r'); [|reflexivity].
      unfold backref. cbn [captures]. unfold setCapture at 1 2.
      cbn [Nat.eqb]. rewrite literal_eq. reflexivity. }
  destruct (findFirst _ r3) as [[[a b] x]|] eqn:F; [|reflexivity].
  apply findFirst_Some in F as (-> & _ & _).
  replace (length a + e - e) with (length a) by lia.
  rewrite firstn_app, Nat.sub_diag, firstn_all, app_nil_r.
  unfold fileMatchEnd, e, p. cbn [length]. f_equal. f_equal. lia.
Qed.

Lemma matchAt_markdownFence_later (r : jsString) (i : nat) :
  matchAt markdownFenceRegex r (S i) = None.
Proof. reflexivity. Qed.

Lemma matchAt_markdownFence (r : jsString) :
  option_map (fun st => captures st 1) (matchAt markdownFenceRegex r 0) =
  option_map (@Some jsString) (fenceBody r).
Proof.
  unfold matchAt, markdownFenceRegex, fenceBody.
  unfold seq at 1, assertStart. cbn [endIndex Nat.eqb].
  unfold seq at 1, starGreedy. cbn [rest endIndex captures].
  rewrite starGreedyFrom_forced.
  2:{ intros j d r' Hd. unfold seq at 1. rewrite literal_eq.
      cbn [rest stripPrefix FENCE].
      destruct (N.eqb_spec BACKTICK d) as [<-|]; [discriminate|reflexivity]. }
  unfold seq at 1. rewrite literal_eq. cbn [rest endIndex captures].
  destruct (stripPrefix FENCE (dropWhile isSpace r)) as [r2|]; [|reflexivity].
  unfold seq at 1, starGreedy. cbn [rest endIndex captures].
  rewrite starGreedyFrom_forced.
  2:{ intros j d r' Hd. unfold seq at 1. rewrite literal_eq.
      cbn [rest stripPrefix].
      destruct (N.eqb_spec LF d) as [<-|]; [discriminate|reflexivity]. }
  unfold seq at 1. rewrite literal_eq. cbn [rest endIndex captures stripPrefix].
  destruct (dropWhile isLower r2) as [|d r4]; [reflexivity|].
  destruct (N.eqb LF d); [|reflexivity].
  unfold seq at 1, group at 1, starLazy. cbn [rest endIndex captures].
  match goal with |- context [starLazyFrom _ _ ?e _ _] => set (e0 := e) end.
  rewrite (starLazyFrom_any fenceClose
             (fun j b x => mkState (length (takeWhile isSpace x)
                                    + (length (LF :: FENCE) + j)) []
                (setCapture 1 (firstn (j - e0) r4) noCaptures))).
  2:{ intros j r'. unfold seq at 1. rewrite literal_eq. unfold fenceClose.
      cbn [rest endIndex captures].
      destruct (stripPrefix (LF :: FENCE) r') as [r5|]; [|reflexivity].
      unfold seq, starGreedy. cbn [rest endIndex captures].
      rewrite starGreedyFrom_forced.
      2:{ intros j' d' r'' _. reflexivity. }
      unfold assertEnd. cbn [rest].
      now destruct (dropWhile isSpace r5). }
  destruct (findFirst fenceClose r4) as [[[a b] x]|] eqn:F; [|reflexivity].
  apply findFirst_Some in F as (-> & _ & _).
  cbn [option_map captures]. unfold setCapture. cbn [Nat.eqb].
  replace (length a + e0 - e0) with (length a) by lia.
  now rewrite firstn_app, Nat.sub_diag, firstn_all, app_nil_r.
Qed.

Lemma searchFrom_markdownFence_later (r : jsString) (i : nat) :
  searchFrom markdownFenceRegex r (S i) = None.
Proof.
  revert i; induction r as [|c r IH]; intros i; cbn [searchFrom];
    rewrite matchAt_markdownFence_later; [reflexivity | apply IH].
Qed.

Lemma blockContent_eq (fileContent : jsString) :
  blockContent fileContent =
  trim (match fenceBody fileContent with
        | Some inner => inner
        | None => fileContent
        end).
Proof.
  unfold blockContent, matchFirst.
  pose proof (matchAt_markdownFence fileContent) as H.
  assert (E : searchFrom markdownFenceRegex fileContent 0 =
              match matchAt markdownFenceRegex fileContent 0 with
              | Some st => Some (0, st)
              | None => None
              end).
  { destruct fileContent as [|c s]; cbn [searchFrom];
      destruct (matchAt markdownFenceRegex _ 0); trivial.
    apply searchFrom_markdownFence_later. }
  rewrite E.
  destruct (matchAt markdownFenceRegex fileContent 0) as [st|];
    destruct (fenceBody fileContent); simpl in H; try discriminate; trivial.
  unfold capture. injection H as H. now rewrite H.
Qed.

Lemma codeGroup_eq (r : jsString) (i : nat) :
  option_map (fun st => captures st 1)
    (seq (group 1 (plusGreedy anyChar)) (literal FENCE)
       (mkState i r noCaptures) Some) =
  option_map (@Some jsString) (codeGroupAt r).
Proof.
  unfold seq at 1, group, plusGreedy, seq, charSet, codeGroupAt.
  cbn [rest endIndex captures].
  destruct r as [|c r]; [reflexivity|]. rewrite anyChar_true.
  unfold starGreedy. cbn [rest endIndex captures].
  rewrite (starGreedyFrom_any (stripPrefix FENCE)
             (fun j b x => mkState (length FENCE + j) x
                (setCapture 1 (firstn (j - i) (c :: r)) noCaptures))).
  2:{ intros j r'. rewrite literal_eq. reflexivity. }
  destruct (findLast (stripPrefix FENCE) r) as [[[a b] x]|] eqn:F; [|reflexivity].
  apply findLast_Some in F as (-> & _ & _).
  cbn [option_map captures]. unfold setCapture. cbn [Nat.eqb].
  replace (length a + S i - i) with (S (length a)) by lia.
  cbn [firstn]. now rewrite firstn_app, Nat.sub_diag, firstn_all, app_nil_r.
Qed.

Lemma matchAt_codeBlock (r : jsString) (i : nat) :
  option_map (fun st => captures st 1) (matchAt codeBlockRegex r i) =
  option_map (@Some jsString) (codeBlockAt r).
Proof.
  unfold matchAt, codeBlockRegex, codeBlockAt.
  unfold seq at 1. rewrite literal_eq. cbn [rest endIndex captures].
  destruct (stripPrefix FENCE r) as [r1|]; [|reflexivity].
  unfold seq at 1, optional.
  set (K := fun st' : MatchState =>
              seq (group 1 (plusGreedy anyChar)) (literal FENCE) st' Some).
  unfold seq at 1, plusGreedy, seq at 1, charSet. cbn [rest endIndex captures].
  assert (HK : forall j,
    option_map (fun st => captures st 1) (K (mkState j r1 noCaptures)) =
    option_map (@Some jsString) (codeGroupAt r1))
    by (intros; apply codeGroup_eq).
  destruct r1 as [|c r1]; [apply HK|].
  cbn [takeWhile dropWhile].
  destruct (isWord c) eqn:Hc; [|apply HK].
  unfold starGreedy. cbn [rest endIndex captures].
  rewrite starGreedyFrom_forced.
  2:{ intros j d r' Hd. rewrite literal_eq. cbn [rest stripPrefix].
      destruct (N.eqb_spec LF d) as [<-|]; [discriminate|reflexivity]. }
  rewrite literal_eq. cbn [rest endIndex captures stripPrefix].
  destruct (dropWhile isWord r1) as [|d r2]; [apply HK|].
  destruct (N.eqb LF d); [|apply HK].
  pose proof (codeGroup_eq r2
    (length [LF] + (length (takeWhile isWord r1) + S (length FENCE + i)))) as H2.
  fold (K (mkState (length [LF] + (length (takeWhile isWord r1)
                    + S (length FENCE + i))) r2 noCaptures)) in H2.
  destruct (K (mkState _ r2 noCaptures)) as [st|];
    destruct (codeGroupAt r2); simpl in H2; try discriminate.
  - exact H2.
  - apply HK.
Qed.

(** *** The search, by the same tests *)

Lemma searchFrom_findFirst (A : Type) (m : Matcher) (T : jsString -> option A)
    (F : nat -> A -> MatchState) (r : jsString) (i : nat) :
  (forall b j, matchAt m b j =
     match T b with Some x => Some (F j x) | None => None end) ->
  searchFrom m r i =
  match findFirst T r with
  | Some (a, _, x) => Some (length a + i, F (length a + i) x)
  | None => None
  end.
Proof.
  intros Hm. revert i; induction r as [|c r IH]; intros i; cbn [searchFrom findFirst].
  - rewrite Hm. now destruct (T []).
  - rewrite Hm. destruct (T (c :: r)); [reflexivity|].
    rewrite IH. destruct (findFirst T r) as [[[a b] x]|]; [|reflexivity].
    cbn [length]. now rewrite Nat.add_succ_r.
Qed.

Lemma searchFrom_findFirst_map (A B : Type) (m : Matcher)
    (T : jsString -> option A) (f : MatchState -> B) (g : A -> B)
    (r : jsString) (i : nat) :
  (forall b j, option_map f (matchAt m b j) = option_map g (T b)) ->
  option_map (fun js => f (snd js)) (searchFrom m r i) =
  option_map (fun abx => g (snd abx)) (findFirst T r).
Proof.
  intros Hm. revert i; induction r as [|c r IH]; intros i; cbn [searchFrom findFirst].
  - specialize (Hm [] i).
    destruct (matchAt m [] i), (T []); simpl in *; congruence.
  - pose proof (Hm (c :: r) i) as H0.
    destruct (matchAt m (c :: r) i), (T (c :: r)); simpl in *; try congruence.
    rewrite IH. now destruct (findFirst T r) as [[[a b] x]|].
Qed.

Lemma parseCodeFromResponse_eq (text : jsString) :
  parseCodeFromResponse text =
  match findFirst codeBlockAt text with
  | Some (_, _, c :: s) => trim (c :: s)
  | _ => trim text
  end.
Proof.
  unfold parseCodeFromResponse, matchFirst.
  pose proof (searchFrom_findFirst_map codeBlockRegex codeBlockAt
                (fun st => captures st 1) (@Some jsString) text 0
                (fun b j => matchAt_codeBlock b j)) as H.
  destruct (searchFrom codeBlockRegex text 0) as [[j st]|];
    destruct (findFirst codeBlockAt text) as [[[a b] g]|];
    simpl in H; try discriminate; trivial.
  injection H as ->. reflexivity.
Qed.

Lemma exec_fileRegex (s : jsString) (i : nat) :
  i <= length s ->
  exec fileRegex s i =
  match findFirst fileBlockAt (skipn i s) with
  | Some (a, _, (p, c, x)) =>
      Some (length a + i,
            mkState (fileMatchEnd (length a + i) p c) x
              (setCapture 2 c (setCapture 1 p noCaptures)))
  | None => None
  end.
Proof.
  intros Hi. unfold exec.
  destruct (Nat.ltb_spec (length s) i) as [H|_]; [lia|].
  rewrite (searchFrom_findFirst fileRegex fileBlockAt
             (fun j pcx => let '(p, c, x) := pcx in
                mkState (fileMatchEnd j p c) x
                  (setCapture 2 c (setCapture 1 p noCaptures)))).
  - now destruct (findFirst fileBlockAt (skipn i s)) as [[[a b] [[p c] x]]|].
  - intros b j. rewrite matchAt_fileRegex.
    now destruct (fileBlockAt b) as [[[p c] x]|].
Qed.

Lemma fileBlockAt_Some (r p c x : jsString) :
  fileBlockAt r = Some (p, c, x) ->
  r = START_FILE ++ p ++ LF :: c ++ END_FILE ++ p ++ x /\
  validPath p /\
  (forall c1 c2, c = c1 ++ c2 -> c2 <> [] ->
     stripPrefix (END_FILE ++ p) (c2 ++ END_FILE ++ p ++ x) = None).
Proof.
  unfold fileBlockAt.
  destruct (stripPrefix START_FILE r) as [r1|] eqn:E1; [|discriminate].
  apply stripPrefix_Some in E1.
  pose proof (takeWhile_dropWhile notSpace r1) as Hsplit.
  pose proof (takeWhile_all notSpace r1) as Hall.
  destruct (takeWhile notSpace r1) as [|d q]; [discriminate|].
  destruct (dropWhile notSpace r1) as [|e r3]; [discriminate|].
  destruct (N.eqb_spec LF e) as [<-|]; [|discriminate].
  destruct (findFirst _ r3) as [[[a b] y]|] eqn:F; [|discriminate].
  intros H; injection H as <- <- <-.
  apply findFirst_Some in F as (-> & Hy & Hmin).
  apply stripPrefix_Some in Hy. subst b.
  repeat split.
  - rewrite E1, <- Hsplit. now rewrite <- !app_assoc.
  - discriminate.
  - exact Hall.
  - intros c1 c2 Hc Hne. rewrite <- app_assoc in Hmin. now apply (Hmin c1).
Qed.

Lemma fileBlockAt_intro (p c x : jsString) :
  validPath p ->
  (forall c1 c2, c = c1 ++ c2 -> c2 <> [] ->
     stripPrefix (END_FILE ++ p) (c2 ++ END_FILE ++ p ++ x) = None) ->
  fileBlockAt (START_FILE ++ p ++ LF :: c ++ END_FILE ++ p ++ x) = Some (p, c, x).
Proof.
  intros [Hne Hall] Hmin. unfold fileBlockAt.
  rewrite stripPrefix_app.
  destruct (takeWhile_app_stop notSpace p LF (c ++ END_FILE ++ p ++ x) Hall eq_refl)
    as [-> ->].
  destruct p as [|d q]; [congruence|].
  rewrite N.eqb_refl.
  rewrite (@findFirst_intro _ (stripPrefix (END_FILE ++ d :: q)) c
             (END_FILE ++ (d :: q) ++ x) x).
  - reflexivity.
  - rewrite app_assoc. apply stripPrefix_app.
  - exact Hmin.
Qed.

Lemma fileBlockAt_needs_start (r : jsString) :
  stripPrefix START_FILE r = None -> fileBlockAt r = None.
Proof. unfold fileBlockAt. now intros ->. Qed.

Lemma fileBlockAt_length (r p c x : jsString) :
  fileBlockAt r = Some (p, c, x) ->
  length r = fileMatchEnd 0 p c + length x.
Proof.
  intros H. apply fileBlockAt_Some in H as (-> & _ & _).
  unfold fileMatchEnd. rewrite !length_app. cbn [length].
  rewrite !length_app. lia.
Qed.

Lemma findFirst_fileBlockAt_shorter (r a b p c x : jsString) :
  findFirst fileBlockAt r = Some (a, b, (p, c, x)) ->
  length r = length a + fileMatchEnd 0 p c + length x.
Proof.
  intros H. apply findFirst_Some in H as (-> & Hb & _).
  apply fileBlockAt_length in Hb. rewrite length_app. lia.
Qed.

Lemma fileMatchEnd_pos (i : nat) (p c : jsString) :
  fileMatchEnd i p c = i + fileMatchEnd 0 p c /\ 0 < fileMatchEnd 0 p c.
Proof. unfold fileMatchEnd. cbn [length]. lia. Qed.

(** Every input has its sequence of blocks, and no more of them than
    characters. *)
Lemma blocksOf_total (r : jsString) :
  exists files, blocksOf r files /\ length files <= length r.
Proof.
  remember (length r) as n eqn:Hn.
  revert r Hn. induction n as [n IH] using lt_wf_ind. intros r ->.
  destruct (findFirst fileBlockAt r) as [[[a b] [[p c] x]]|] eqn:F.
  - pose proof (findFirst_fileBlockAt_shorter _ F) as Hlen.
    pose proof (fileMatchEnd_pos 0 p c) as [_ Hpos].
    destruct (IH (length x) ltac:(lia) x eq_refl) as (files & Hfiles & Hle).
    exists (mkFile p (blockContent c) :: files). split.
    + eapply blocksOf_step; eassumption.
    + cbn [length]. lia.
  - exists []. split; [now constructor | cbn [length]; lia].
Qed.

Lemma blocksOf_functional (r : jsString) (f1 f2 : list ConvertedFile) :
  blocksOf r f1 -> blocksOf r f2 -> f1 = f2.
Proof.
  intros H1; revert f2; induction H1 as [r F|r a b p c x files F _ IH];
    intros f2 H2; inversion H2; subst; try congruence.
  match goal with H : findFirst fileBlockAt r = Some _ |- _ =>
    rewrite F in H; injection H as <- <- <- <- <- end.
  f_equal. now apply IH.
Qed.

Lemma skipn_length_app (A : Type) (u x : list A) : skipn (length u) (u ++ x) = x.
Proof. induction u; simpl; trivial. Qed.

Lemma parseLoop_blocksOf (s : jsString) (fuel i : nat)
    (acc files : list ConvertedFile) :
  i <= length s ->
  blocksOf (skipn i s) files ->
  length files < fuel ->
  parseLoop fuel s i acc = Some (acc ++ files).
Proof.
  intros Hi Hb. remember (skipn i s) as r eqn:Hr.
  revert fuel i acc Hi Hr.
  induction Hb as [r F|r a b p c x files F _ IH]; intros fuel i acc Hi Hr Hfuel.
  - destruct fuel as [|fuel]; [cbn [length] in Hfuel; lia|].
    cbn [parseLoop]. rewrite exec_fileRegex by exact Hi.
    rewrite <- Hr, F. now rewrite app_nil_r.
  - destruct fuel as [|fuel]; [cbn [length] in Hfuel; lia|].
    cbn [parseLoop]. rewrite exec_fileRegex by exact Hi.
    rewrite <- Hr, F. cbn [endIndex].
    unfold capture. cbn [captures]. unfold setCapture at 1 2 3. cbn [Nat.eqb].
    pose proof (findFirst_fileBlockAt_shorter _ F) as Hlen.
    pose proof (fileMatchEnd_pos (length a + i) p c) as [He _].
    apply findFirst_Some in F as (Hab & Hblock & _).
    apply fileBlockAt_Some in Hblock as (Hbx & _ & _).
    assert (Hs : s = (firstn i s ++ a ++ START_FILE ++ p ++ LF :: c ++ END_FILE ++ p) ++ x).
    { rewrite <- (firstn_skipn i s) at 1. rewrite <- Hr, Hab, Hbx.
      rewrite <- !app_assoc. cbn [app]. now rewrite <- !app_assoc. }
    assert (Hu : length (firstn i s ++ a ++ START_FILE ++ p ++ LF :: c ++ END_FILE ++ p)
                 = fileMatchEnd (length a + i) p c).
    { unfold fileMatchEnd. rewrite !length_app. cbn [length].
      rewrite !length_app, length_firstn, Nat.min_l by exact Hi. lia. }
    rewrite (IH fuel (fileMatchEnd (length a + i) p c) (acc ++ [mkFile p (blockContent c)])).
    + now rewrite <- app_assoc.
    + rewrite Hs at 1. rewrite length_app, Hu. lia.
    + rewrite Hs at 1. rewrite <- Hu. now rewrite skipn_length_app.
    + cbn [length] in Hfuel. lia.
Qed.


Lemma parseAIResponse_blocksOf (s : jsString) (files : list ConvertedFile) :
  parseAIResponse s = files <-> blocksOf s files.
Proof.
  destruct (blocksOf_total s) as (f0 & Hf0 & Hle).
  assert (E : parseAIResponse s = f0).
  { unfold parseAIResponse.
    now rewrite (@parseLoop_blocksOf s (S (length s)) 0 [] f0) by (trivial; lia). }
  split.
  - intros H. now rewrite <- H, E.
  - intros H. now rewrite (blocksOf_functional H Hf0).
Qed.

(** *** Markers in running text *)

(** The start marker does not overlap itself. *)
Lemma START_FILE_no_border (a l l2 : jsString) :
  START_FILE = a ++ l -> START_FILE = l ++ l2 -> a <> [] -> l <> [] -> False.
Proof.
  intros Ha Hl Hane Hlne.
  assert (Hk : 0 < length a < length START_FILE).
  { rewrite Ha at 1. rewrite length_app.
    destruct a; [congruence|]. destruct l; [congruence|]. cbn [length]. lia. }
  assert (H1 : skipn (length a) START_FILE = l)
    by (rewrite Ha at 1; apply skipn_length_app).
  assert (H2 : firstn (length START_FILE - length a) START_FILE = l).
  { replace (length START_FILE - length a) with (length l)
      by (rewrite Ha at 1; rewrite length_app; lia).
    rewrite Hl at 1. now rewrite firstn_app, Nat.sub_diag, firstn_all, app_nil_r. }
  assert (Hall : forallb (fun k =>
            negb (jsString_eqb (skipn k START_FILE)
                               (firstn (length START_FILE - k) START_FILE)))
            (List.seq 1 14) = true) by (vm_compute; reflexivity).
  rewrite forallb_forall in Hall.
  specialize (Hall (length a)).
  rewrite H1, H2 in Hall. unfold jsString_eqb in Hall.
  destruct (list_eq_dec N.eq_dec l l); [|congruence].
  assert (Hin : In (length a) (List.seq 1 14))
    by (apply in_seq; change (length START_FILE) with 15 in Hk; lia).
  specialize (Hall Hin). discriminate.
Qed.

(** Text without a start marker is skipped by the search, also where a
    start marker follows it. *)
Lemma filler_skipped (f rest : jsString) :
  ~ occursIn START_FILE f ->
  rest = [] \/ (exists y, rest = START_FILE ++ y) ->
  forall a1 a2, f = a1 ++ a2 -> a2 <> [] -> fileBlockAt (a2 ++ rest) = None.
Proof.
  intros Hf Hrest a1 a2 -> Hne.
  apply fileBlockAt_needs_start.
  destruct (stripPrefix START_FILE (a2 ++ rest)) as [z|] eqn:E; [|reflexivity].
  exfalso. apply stripPrefix_Some in E.
  apply app_eq_app in E as [l [[-> _]|[Hs Hr]]].
  - apply Hf. now exists a1, l.
  - destruct l as [|e l].
    + rewrite app_nil_r in Hs. subst a2. apply Hf. exists a1, [].
      now rewrite app_nil_r.
    + destruct Hrest as [->|[y ->]]; [discriminate|].
      apply app_eq_app in Hr as [l2 [[Hl _]|[Hl _]]].
      * eapply START_FILE_no_border; [exact Hs | exact Hl | exact Hne | discriminate].
      * assert (Hlen : length START_FILE = length a2 + length (e :: l))
          by (rewrite Hs at 1; apply length_app).
        rewrite Hl, length_app in Hlen.
        destruct a2; [congruence|]. cbn [length] in Hlen. lia.
Qed.

Lemma path_has_no_LF (p : jsString) :
  forallb notSpace p = true -> ~ In LF (tl END_FILE ++ p).
Proof.
  intros Hp Hin. apply in_app_or in Hin as [Hin|Hin].
  - revert Hin. vm_compute. intuition discriminate.
  - rewrite forallb_forall in Hp. specialize (Hp _ Hin). discriminate.
Qed.

(** A content without the end marker of its path ends at the end
    marker that follows it. *)
Lemma content_minimal (p c x : jsString) :
  validPath p ->
  ~ occursIn (END_FILE ++ p) c ->
  forall c1 c2, c = c1 ++ c2 -> c2 <> [] ->
    stripPrefix (END_FILE ++ p) (c2 ++ END_FILE ++ p ++ x) = None.
Proof.
  intros [_ Hp] Hc c1 c2 -> Hne.
  destruct (stripPrefix _ _) as [y|] eqn:E; [|reflexivity].
  exfalso. apply stripPrefix_Some in E.
  apply app_eq_app in E as [l [[-> _]|[Hs Hr]]].
  - apply Hc. now exists c1, l.
  - destruct l as [|e l].
    + rewrite app_nil_r in Hs. apply Hc. exists c1, []. now rewrite Hs, app_nil_r.
    + change END_FILE with (LF :: tl END_FILE) in Hs, Hr.
      cbn [app] in Hr. injection Hr as <- _.
      destruct c2 as [|d c2]; [congruence|].
      cbn [app] in Hs. injection Hs as _ Hs.
      assert (Hs' : tl END_FILE ++ p = c2 ++ LF :: l) by exact Hs.
      apply (path_has_no_LF Hp). rewrite Hs'.
      apply in_or_app. right. now left.
Qed.

Lemma blocksOf_renderBlocks (f0 : jsString) (bs : list (Block * jsString)) :
  ~ occursIn START_FILE f0 ->
  Forall cleanBlock bs ->
  blocksOf (f0 ++ renderBlocks bs) (map (fun bf => fileOfBlock (fst bf)) bs).
Proof.
  intros Hf0 Hbs. revert f0 Hf0.
  induction Hbs as [|[b f] bs (Hp & Hc & Hf) _ IH]; intros f0 Hf0.
  - cbn [renderBlocks map]. constructor.
    destruct (findFirst fileBlockAt (f0 ++ [])) as [[[a b'] pcx]|] eqn:F; [|reflexivity].
    exfalso. apply findFirst_Some in F as (Hab & Hb & _).
    rewrite app_nil_r in Hab.
    destruct b' as [|d b']; [discriminate|].
    assert (Hnone : fileBlockAt ((d :: b') ++ []) = None)
      by (apply (filler_skipped Hf0 (or_introl eq_refl) a Hab); discriminate).
    rewrite app_nil_r in Hnone. congruence.
  - cbn [renderBlocks map fst snd] in *.
    apply blocksOf_step with (a := f0) (b := renderBlock b ++ f ++ renderBlocks bs)
                             (x := f ++ renderBlocks bs).
    + apply findFirst_intro.
      * unfold renderBlock. rewrite <- !app_assoc. cbn [app]. rewrite <- !app_assoc.
        apply fileBlockAt_intro; [exact Hp|].
        now apply content_minimal.
      * apply filler_skipped; [exact Hf0|]. right.
        unfold renderBlock. rewrite <- app_assoc. eauto.
    + now apply IH.
Qed.

Lemma dropWhile_nil_all (P : N -> bool) (s : jsString) :
  dropWhile P s = [] -> forallb P s = true.
Proof.
  induction s as [|c s IH]; simpl; [reflexivity|].
  destruct (P c); [exact IH | discriminate].
Qed.

Lemma forallb_isSpace_no_backtick (s : jsString) :
  forallb isSpace s = true -> ~ In BACKTICK s.
Proof.
  intros H Hin. rewrite forallb_forall in H. specialize (H _ Hin). discriminate.
Qed.

Lemma fenceClose_closing (ws2 : jsString) :
  forallb isSpace ws2 = true -> fenceClose (LF :: FENCE ++ ws2) = Some ws2.
Proof.
  intros H. unfold fenceClose.
  change (LF :: FENCE ++ ws2) with ((LF :: FENCE) ++ ws2).
  rewrite stripPrefix_app.
  now destruct (takeWhile_all_id isSpace ws2 H) as [_ ->].
Qed.

Lemma fenceClose_Some (b r5 : jsString) :
  fenceClose b = Some r5 -> b = LF :: FENCE ++ r5 /\ forallb isSpace r5 = true.
Proof.
  unfold fenceClose.
  destruct (stripPrefix (LF :: FENCE) b) as [r|] eqn:E; [|discriminate].
  apply stripPrefix_Some in E.
  destruct (dropWhile isSpace r) eqn:D; [|discriminate].
  intros H; injection H as <-. split; [exact E | now apply dropWhile_nil_all].
Qed.

Lemma fenceClose_minimal (inner ws2 : jsString) :
  forallb isSpace ws2 = true ->
  forall a1 a2, inner = a1 ++ a2 -> a2 <> [] ->
    fenceClose (a2 ++ LF :: FENCE ++ ws2) = None.
Proof.
  intros Hws a1 a2 _ Hne.
  destruct (fenceClose _) as [r5|] eqn:E; [|reflexivity].
  exfalso. apply fenceClose_Some in E as [E Hr5].
  apply (forallb_isSpace_no_backtick _ Hr5).
  change (a2 ++ LF :: FENCE ++ ws2)
    with (a2 ++ [LF; BACKTICK; BACKTICK] ++ BACKTICK :: ws2) in E.
  rewrite app_assoc in E.
  change (LF :: FENCE ++ r5) with ((LF :: FENCE) ++ r5) in E.
  apply app_eq_app in E as [l [[_ ->]|[Hl Hr]]].
  - apply in_or_app. right. now left.
  - assert (Hlen : length (LF :: FENCE) = length ((a2 ++ [LF; BACKTICK; BACKTICK]) ++ l))
      by now rewrite Hl.
    rewrite !length_app in Hlen. cbn [length FENCE] in Hlen.
    destruct a2 as [|d a2]; [congruence|]. cbn [length] in Hlen.
    destruct l as [|e l]; [|cbn [length] in Hlen; lia].
    cbn [app] in Hr. rewrite <- Hr. now left.
Qed.

Lemma fenceBody_fenced (c inner : jsString) :
  fenced c inner -> fenceBody c = Some inner.
Proof.
  intros (ws1 & tag & ws2 & H1 & Ht & H2 & ->). unfold fenceBody.
  assert (D : dropWhile isSpace
                (ws1 ++ FENCE ++ tag ++ LF :: inner ++ LF :: FENCE ++ ws2)
              = FENCE ++ tag ++ LF :: inner ++ LF :: FENCE ++ ws2)
    by exact (proj2 (takeWhile_app_stop isSpace ws1 BACKTICK
                (tl FENCE ++ tag ++ LF :: inner ++ LF :: FENCE ++ ws2) H1 eq_refl)).
  rewrite D, stripPrefix_app.
  destruct (takeWhile_app_stop isLower tag LF
              (inner ++ LF :: FENCE ++ ws2) Ht eq_refl) as [_ ->].
  rewrite N.eqb_refl.
  rewrite (@findFirst_intro _ fenceClose inner (LF :: FENCE ++ ws2) ws2).
  - reflexivity.
  - now apply fenceClose_closing.
  - now apply fenceClose_minimal.
Qed.

Lemma fenceBody_Some (c inner : jsString) :
  fenceBody c = Some inner -> fenced c inner.
Proof.
  unfold fenceBody. intros H.
  pose proof (takeWhile_dropWhile isSpace c) as Hc.
  pose proof (takeWhile_all isSpace c) as Hws.
  destruct (stripPrefix FENCE (dropWhile isSpace c)) as [r2|] eqn:E; [|discriminate].
  apply stripPrefix_Some in E.
  pose proof (takeWhile_dropWhile isLower r2) as Hr2.
  pose proof (takeWhile_all isLower r2) as Htag.
  destruct (dropWhile isLower r2) as [|d r4]; [discriminate|].
  destruct (N.eqb_spec LF d) as [<-|]; [|discriminate].
  destruct (findFirst fenceClose r4) as [[[a b] r5]|] eqn:F; [|discriminate].
  injection H as ->.
  apply findFirst_Some in F as (-> & Hb & _).
  apply fenceClose_Some in Hb as [-> Hr5].
  exists (takeWhile isSpace c), (takeWhile isLower r2), r5.
  repeat split; trivial.
  symmetry. etransitivity; [|exact Hc]. f_equal. rewrite E. f_equal. exact Hr2.
Qed.

(** *** [trim] *)

Lemma trim_space_cons (c : N) (s : jsString) :
  isSpace c = true -> trim (c :: s) = trim s.
Proof. intros H. unfold trim, trimStart. simpl. now rewrite H. Qed.

(** *** Paths with white space *)

Lemma first_space (p : jsString) :
  existsb isSpace p = true ->
  exists q w p', p = q ++ w :: p' /\ forallb notSpace q = true /\ isSpace w = true.
Proof.
  induction p as [|c p IH]; simpl; [discriminate|].
  destruct (isSpace c) eqn:Hc.
  - intros _. exists [], c, p. now repeat split.
  - intros H. destruct (IH H) as (q & w & p' & -> & Hq & Hw).
    exists (c :: q), w, p'. repeat split; trivial.
    simpl. unfold notSpace at 1. now rewrite Hc.
Qed.

Lemma fileBlockAt_space_in_path (p rest : jsString) :
  existsb isSpace p = true -> ~ In LF p ->
  fileBlockAt (START_FILE ++ p ++ rest) = None.
Proof.
  intros Hsp Hlf. unfold fileBlockAt. rewrite stripPrefix_app.
  destruct (first_space p Hsp) as (q & w & p' & -> & Hq & Hw).
  rewrite <- app_assoc. cbn [app].
  assert (Hw' : notSpace w = false) by (unfold notSpace; now rewrite Hw).
  destruct (takeWhile_app_stop notSpace q w (p' ++ rest) Hq Hw') as [-> ->].
  destruct q as [|c q]; [reflexivity|].
  destruct (N.eqb_spec LF w) as [<-|]; [|reflexivity].
  exfalso. apply Hlf. apply in_or_app. right. now left.
Qed.

(** *** Text without a fence *)

Lemma codeBlockAt_needs_fence (r : jsString) :
  stripPrefix FENCE r = None -> codeBlockAt r = None.
Proof. unfold codeBlockAt. now intros ->. Qed.

Lemma findFirst_codeBlockAt_no_fence (text : jsString) :
  ~ occursIn FENCE text -> findFirst codeBlockAt text = None.
Proof.
  intros H.
  destruct (findFirst codeBlockAt text) as [[[a b] g]|] eqn:F; [|reflexivity].
  exfalso. apply findFirst_Some in F as (-> & Hb & _).
  unfold codeBlockAt in Hb.
  destruct (stripPrefix FENCE b) as [r1|] eqn:E; [|discriminate].
  apply stripPrefix_Some in E. subst b. apply H. now exists a, r1.
Qed.

(** After the closing fence and white space no further fence starts. *)
Lemma closing_fence_last (post : jsString) :
  forallb isSpace post = true ->
  forall b1 b2, FENCE ++ post = b1 ++ b2 -> b1 <> [] -> stripPrefix FENCE b2 = None.
Proof.
  intros Hpost b1 b2 Hb Hne.
  destruct (stripPrefix FENCE b2) as [z|] eqn:E; [|reflexivity].
  exfalso. apply stripPrefix_Some in E. subst b2.
  apply (forallb_isSpace_no_backtick _ Hpost).
  destruct b1 as [|d1 b1]; [congruence|].
  unfold FENCE in Hb. cbn [app] in Hb. injection Hb as _ Hb.
  destruct b1 as [|d2 b1]; cbn [app] in Hb.
  - injection Hb as Hb. rewrite Hb. now left.
  - injection Hb as _ Hb. destruct b1 as [|d3 b1]; cbn [app] in Hb.
    + injection Hb as Hb. rewrite Hb. now left.
    + injection Hb as _ Hb. rewrite Hb. apply in_or_app. right. now left.
Qed.

Lemma codeGroupAt_to_closing (c : N) (code post : jsString) :
  forallb isSpace post = true ->
  codeGroupAt (c :: code ++ FENCE ++ post) = Some (c :: code).
Proof.
  intros Hpost. unfold codeGroupAt.
  rewrite (@findLast_intro _ (stripPrefix FENCE) code (FENCE ++ post) post).
  - reflexivity.
  - apply stripPrefix_app.
  - now apply closing_fence_last.
Qed.

(* ================================================================== *)
(** ** Properties of the file system and of the handlers *)
(* ================================================================== *)

Section ServerProperties.

Context {Buffer : Type} {platform : Platform Buffer}.

#[local] Abbreviation node := (node Buffer).
#[local] Abbreviation World := (World Buffer).
#[local] Abbreviation State := (State Buffer).
#[local] Abbreviation M := (M Buffer).
#[local] Abbreviation Request := (Request Buffer).
#[local] Abbreviation UploadedFile := (UploadedFile Buffer).
#[local] Abbreviation Response := (Response Buffer).
#[local] Abbreviation ZipResult := (ZipResult Buffer).

(** Induction on a tree, with the property at every entry of a directory. *)
Lemma node_induction (P : node -> Prop) :
  (forall d, P (File d)) ->
  (forall es, Forall (fun e => P (snd e)) es -> P (Dir es)) ->
  forall t, P t.
Proof.
  intros HF HD. fix IH 1. intros [d|es]; [apply HF|apply HD].
  induction es as [|[n c] es IHes]; constructor; [apply IH | exact IHes].
Qed.

Lemma jsString_eqb_eq (a b : jsString) : jsString_eqb a b = true <-> a = b.
Proof.
  unfold jsString_eqb. destruct (list_eq_dec N.eq_dec a b); split; congruence.
Qed.

Lemma jsString_eqb_refl (a : jsString) : jsString_eqb a a = true.
Proof. now apply jsString_eqb_eq. Qed.

Lemma jsString_eqb_neq (a b : jsString) : jsString_eqb a b = false <-> a <> b.
Proof.
  unfold jsString_eqb. destruct (list_eq_dec N.eq_dec a b); split; congruence.
Qed.

Lemma lookupEntry_In (n : jsString) (c : node) (es : list (jsString * node)) :
  lookupEntry n es = Some c -> In (n, c) es.
Proof.
  induction es as [|[m d] es IH]; simpl; [discriminate|].
  destruct (jsString_eqb n m) eqn:E.
  - apply jsString_eqb_eq in E. intros H; injection H as ->. left. now subst.
  - intros H. right. now apply IH.
Qed.

Lemma lookupEntry_NoDup (n : jsString) (c : node) (es : list (jsString * node)) :
  NoDup (map fst es) -> In (n, c) es -> lookupEntry n es = Some c.
Proof.
  induction es as [|[m d] es IH]; simpl; [easy|].
  intros Hnd [H|H].
  - injection H as -> ->. now rewrite jsString_eqb_refl.
  - inversion Hnd as [|? ? Hnotin Hnd']; subst.
    destruct (jsString_eqb n m) eqn:E.
    + apply jsString_eqb_eq in E. subst m. exfalso. apply Hnotin.
      now apply (in_map fst) in H.
    + now apply IH.
Qed.

Lemma lookupEntry_setEntry_same (n : jsString) (c : node) (es : list (jsString * node)) :
  lookupEntry n (setEntry n c es) = Some c.
Proof.
  induction es as [|[m d] es IH]; simpl.
  - now rewrite jsString_eqb_refl.
  - destruct (jsString_eqb n m) eqn:E; simpl; rewrite E; [reflexivity|exact IH].
Qed.

Lemma lookupEntry_setEntry_other (n m : jsString) (c : node)
    (es : list (jsString * node)) :
  m <> n -> lookupEntry m (setEntry n c es) = lookupEntry m es.
Proof.
  intros Hne. induction es as [|[k d] es IH]; simpl.
  - apply jsString_eqb_neq in Hne. now rewrite Hne.
  - destruct (jsString_eqb n k) eqn:E; simpl.
    + apply jsString_eqb_eq in E. subst k.
      apply jsString_eqb_neq in Hne. now rewrite Hne.
    + now rewrite IH.
Qed.

Lemma lookupPath_app (p q : fsPath) (t : node) :
  lookupPath (p ++ q) t =
  match lookupPath p t with
  | Some c => lookupPath q c
  | None => None
  end.
Proof.
  revert t; induction p as [|n p IH]; intros t; simpl; [reflexivity|].
  destruct t as [d|es]; [reflexivity|].
  destruct (lookupEntry n es); [apply IH|reflexivity].
Qed.

(** Writing a file leaves every other file as it was. *)
Lemma readPath_writePath_other (p q : fsPath) (content : Buffer) (t t' : node) :
  writePath p content t = Some t' -> q <> p ->
  readPath q t' = readPath q t.
Proof.
  unfold readPath. revert q t t'. induction p as [|n p IH]; intros q t t'; simpl.
  - destruct t as [d|es]; [|discriminate].
    intros H; injection H as <-. intros Hne.
    destruct q as [|m q]; [congruence|reflexivity].
  - destruct t as [d|es]; [discriminate|].
    destruct (lookupEntry n es) as [c|] eqn:L.
    + destruct (writePath p content c) as [c'|] eqn:W; [|discriminate].
      intros H; injection H as <-. intros Hne.
      destruct q as [|m q]; [reflexivity|]. simpl.
      destruct (list_eq_dec N.eq_dec m n) as [->|Hmn].
      * rewrite lookupEntry_setEntry_same, L.
        apply (IH q c c' W). congruence.
      * now rewrite lookupEntry_setEntry_other.
    + destruct p as [|k p]; [|discriminate].
      intros H; injection H as <-. intros Hne.
      destruct q as [|m q]; [reflexivity|]. simpl.
      destruct (list_eq_dec N.eq_dec m n) as [->|Hmn].
      * rewrite lookupEntry_setEntry_same, L.
        destruct q as [|k q]; [congruence|reflexivity].
      * now rewrite lookupEntry_setEntry_other.
Qed.

(** A written file reads as written. *)
Lemma readPath_writePath_same (p : fsPath) (content : Buffer) (t t' : node) :
  writePath p content t = Some t' -> readPath p t' = Some content.
Proof.
  unfold readPath. revert t t'. induction p as [|n p IH]; intros t t'; simpl.
  - destruct t as [d|es]; [|discriminate]. now intros H; injection H as <-.
  - destruct t as [d|es]; [discriminate|].
    destruct (lookupEntry n es) as [c|] eqn:L.
    + destruct (writePath p content c) as [c'|] eqn:W; [|discriminate].
      intros H; injection H as <-. simpl.
      rewrite lookupEntry_setEntry_same. now apply (IH c).
    + destruct p as [|k p]; [|discriminate].
      intros H; injection H as <-. simpl.
      now rewrite lookupEntry_setEntry_same.
Qed.

(** Writing a file leaves directories where they are. *)
Lemma isDirAt_writePath (p q : fsPath) (content : Buffer) (t t' : node) :
  writePath p content t = Some t' -> isDirAt q t' = isDirAt q t.
Proof.
  unfold isDirAt. revert q t t'. induction p as [|n p IH]; intros q t t'; simpl.
  - destruct t as [d|es]; [|discriminate].
    intros H; injection H as <-. now destruct q.
  - destruct t as [d|es]; [discriminate|].
    destruct (lookupEntry n es) as [c|] eqn:L.
    + destruct (writePath p content c) as [c'|] eqn:W; [|discriminate].
      intros H; injection H as <-.
      destruct q as [|m q]; [reflexivity|]. simpl.
      destruct (list_eq_dec N.eq_dec m n) as [->|Hmn].
      * rewrite lookupEntry_setEntry_same, L. now apply IH.
      * now rewrite lookupEntry_setEntry_other.
    + destruct p as [|k p]; [|discriminate].
      intros H; injection H as <-.
      destruct q as [|m q]; [reflexivity|]. simpl.
      destruct (list_eq_dec N.eq_dec m n) as [->|Hmn].
      * rewrite lookupEntry_setEntry_same, L. now destruct q.
      * now rewrite lookupEntry_setEntry_other.
Qed.

(** *** The walk *)

Lemma removelast_cons (A : Type) (a : A) (l : list A) :
  l <> [] -> removelast (a :: l) = a :: removelast l.
Proof. destruct l; [congruence|reflexivity]. Qed.

(** No directory on the way to a yielded path is a skipped one. *)
Lemma walk_no_skipped (t : node) :
  forall (dir p : fsPath), In p (walk dir t) ->
    exists rel, p = dir ++ rel /\ rel <> [] /\
      Forall (fun seg => skippedDirectory seg = false) (removelast rel).
Proof.
  induction t as [d|es IH] using node_induction; intros dir p; simpl; [easy|].
  intros Hin. apply in_flat_map in Hin as ([n c] & He & Hp).
  rewrite Forall_forall in IH. specialize (IH _ He). simpl in *.
  destruct c as [d|es'].
  - destruct Hp as [<-|[]]. exists [n]. repeat split; [discriminate|constructor].
  - destruct (skippedDirectory n) eqn:Hs; simpl in Hp; [easy|].
    destruct (IH _ _ Hp) as (rel & -> & Hne & Hall).
    exists (n :: rel). rewrite <- app_assoc. repeat split; [discriminate|].
    rewrite removelast_cons by exact Hne. now constructor.
Qed.

(** In a tree that lists each name once, every yielded path is a file. *)
Lemma walk_readable (t : node) :
  wf t ->
  forall (dir p : fsPath), In p (walk dir t) ->
    exists rel d, p = dir ++ rel /\ readPath rel t = Some d.
Proof.
  unfold readPath.
  induction t as [d|es IH] using node_induction; intros Hwf dir p; simpl; [easy|].
  inversion Hwf as [|? Hnd Hsub]; subst.
  intros Hin. apply in_flat_map in Hin as ([n c] & He & Hp).
  rewrite Forall_forall in IH. specialize (IH _ He (Hsub _ _ He)). simpl in *.
  assert (L : lookupEntry n es = Some c) by (apply lookupEntry_NoDup; assumption).
  destruct c as [d|es'].
  - destruct Hp as [<-|[]]. exists [n], d. simpl. now rewrite L.
  - destruct (skippedDirectory n) eqn:Hs; simpl in Hp; [easy|].
    destruct (IH _ _ Hp) as (rel & d & -> & Hr).
    exists (n :: rel), d. rewrite <- app_assoc. simpl. now rewrite L.
Qed.

Lemma fsSet_same (w : World) (n : jsString) (t : option node) :
  fsSet w n t n = t.
Proof. unfold fsSet. now rewrite jsString_eqb_refl. Qed.

Lemma fsSet_other (w : World) (n m : jsString) (t : option node) :
  m <> n -> fsSet w n t m = w m.
Proof. unfold fsSet. intros H. apply jsString_eqb_neq in H. now rewrite H. Qed.

Lemma fsReadFile_write_other (w w' : World) (p q : fsPath) (content : Buffer) :
  fsWriteFile w p content = Some w' -> q <> p ->
  fsReadFile w' q = fsReadFile w q.
Proof.
  unfold fsWriteFile, fsReadFile, fsLookup.
  destruct p as [|n p]; [discriminate|].
  destruct (w n) as [t|] eqn:Ht; [|discriminate].
  destruct (writePath p content t) as [t'|] eqn:W; [|discriminate].
  intros H; injection H as <-. intros Hne.
  destruct q as [|m q]; [reflexivity|].
  destruct (list_eq_dec N.eq_dec m n) as [->|Hmn].
  - rewrite fsSet_same, Ht.
    eapply readPath_writePath_other; [exact W | congruence].
  - now rewrite fsSet_other.
Qed.

Lemma fsReadFile_write_same (w w' : World) (p : fsPath) (content : Buffer) :
  fsWriteFile w p content = Some w' -> fsReadFile w' p = Some content.
Proof.
  unfold fsWriteFile, fsReadFile, fsLookup.
  destruct p as [|n p]; [discriminate|].
  destruct (w n) as [t|] eqn:Ht; [|discriminate].
  destruct (writePath p content t) as [t'|] eqn:W; [|discriminate].
  intros H; injection H as <-. rewrite fsSet_same.
  eapply readPath_writePath_same; exact W.
Qed.

Lemma fsIsDir_write (w w' : World) (p q : fsPath) (content : Buffer) :
  fsWriteFile w p content = Some w' -> fsIsDir w' q = fsIsDir w q.
Proof.
  unfold fsWriteFile, fsIsDir, fsLookup.
  destruct p as [|n p]; [discriminate|].
  destruct (w n) as [t|] eqn:Ht; [|discriminate].
  destruct (writePath p content t) as [t'|] eqn:W; [|discriminate].
  intros H; injection H as <-.
  destruct q as [|m q]; [reflexivity|].
  destruct (list_eq_dec N.eq_dec m n) as [->|Hmn].
  - rewrite fsSet_same, Ht. eapply isDirAt_writePath; exact W.
  - now rewrite fsSet_other.
Qed.

Lemma convertFiles_cons (targetStack : jsString) (filePath : fsPath)
    (more : list fsPath) (s : State) :
  convertFiles targetStack (filePath :: more) s =
  match fsReadFile (fs s) filePath with
  | None => (s, None)
  | Some bytes =>
      match trim (utf8_decode bytes) with
      | [] => convertFiles targetStack more s
      | _ :: _ =>
          convertFiles targetStack more
            (afterFile targetStack filePath (utf8_decode bytes) s)
      end
  end.
Proof.
  cbn [convertFiles]. unfold bind at 1, readFileSync, liftOption.
  destruct (fsReadFile (fs s) filePath) as [bytes|]; cbn [option_map]; [|reflexivity].
  destruct (trim (utf8_decode bytes)) as [|c t]; [reflexivity|].
  unfold bind at 1, tryCatch, bind, generate, writeFileSync, afterFile, ret.
  destruct (generateContent (sent s) _) as [|text]; [reflexivity|].
  cbn [fs sent].
  now destruct (fsWriteFile (fs s) filePath _).
Qed.

Lemma afterFile_sent (targetStack : jsString) (filePath : fsPath)
    (originalContent : jsString) (s : State) :
  sent (afterFile targetStack filePath originalContent s) =
  sent s ++ [filePrompt targetStack (basename filePath) originalContent].
Proof.
  unfold afterFile. destruct (generateContent _ _); [reflexivity|].
  now destruct (fsWriteFile _ _ _).
Qed.

Lemma afterFile_other (targetStack : jsString) (filePath q : fsPath)
    (originalContent : jsString) (s : State) :
  q <> filePath ->
  fsReadFile (fs (afterFile targetStack filePath originalContent s)) q =
  fsReadFile (fs s) q.
Proof.
  intros Hne. unfold afterFile. destruct (generateContent _ _); [reflexivity|].
  destruct (fsWriteFile _ _ _) eqn:W; [|reflexivity].
  cbn [fs]. eapply fsReadFile_write_other; eassumption.
Qed.

Lemma afterFile_readable (targetStack : jsString) (filePath q : fsPath)
    (originalContent : jsString) (s : State) (b : Buffer) :
  fsReadFile (fs s) q = Some b ->
  exists b', fsReadFile (fs (afterFile targetStack filePath originalContent s)) q = Some b'.
Proof.
  intros Hq. destruct (list_eq_dec (list_eq_dec N.eq_dec) q filePath) as [->|Hne].
  - unfold afterFile. destruct (generateContent _ _); [eauto|].
    destruct (fsWriteFile _ _ _) eqn:W; [|eauto].
    cbn [fs]. eexists. eapply fsReadFile_write_same; eassumption.
  - rewrite afterFile_other by exact Hne. eauto.
Qed.


Lemma afterFile_isDir (targetStack : jsString) (filePath q : fsPath)
    (originalContent : jsString) (s : State) :
  fsIsDir (fs (afterFile targetStack filePath originalContent s)) q = fsIsDir (fs s) q.
Proof.
  unfold afterFile. destruct (generateContent _ _); [reflexivity|].
  destruct (fsWriteFile _ _ _) eqn:W; [|reflexivity].
  cbn [fs]. eapply fsIsDir_write; eassumption.
Qed.

(** A file that is not in the list is left as it was. *)
Lemma convertFiles_frame (targetStack : jsString) (codeFiles : list fsPath)
    (s : State) (p : fsPath) :
  ~ In p codeFiles ->
  fsReadFile (fs (fst (convertFiles targetStack codeFiles s))) p = fsReadFile (fs s) p.
Proof.
  revert s; induction codeFiles as [|f more IH]; intros s Hp; [reflexivity|].
  rewrite convertFiles_cons.
  destruct (fsReadFile (fs s) f) as [bytes|]; [|reflexivity].
  assert (Hne : p <> f) by (intros ->; apply Hp; now left).
  assert (Hp' : ~ In p more) by (intros H; apply Hp; now right).
  destruct (trim (utf8_decode bytes)) as [|c t]; [now apply IH|].
  rewrite IH by exact Hp'. now apply afterFile_other.
Qed.

Lemma convertFiles_isDir (targetStack : jsString) (codeFiles : list fsPath)
    (s : State) (q : fsPath) :
  fsIsDir (fs (fst (convertFiles targetStack codeFiles s))) q = fsIsDir (fs s) q.
Proof.
  revert s; induction codeFiles as [|f more IH]; intros s; [reflexivity|].
  rewrite convertFiles_cons.
  destruct (fsReadFile (fs s) f) as [b|]; [|reflexivity].
  destruct (trim (utf8_decode b)) as [|c t]; [apply IH|].
  rewrite IH. apply afterFile_isDir.
Qed.

(** The loop ends without an exception when its files can be read,
    whatever the model does. *)
Lemma convertFiles_returns (targetStack : jsString) (codeFiles : list fsPath)
    (s : State) :
  (forall q, In q codeFiles -> exists b, fsReadFile (fs s) q = Some b) ->
  snd (convertFiles targetStack codeFiles s) = Some tt.
Proof.
  revert s; induction codeFiles as [|f more IH]; intros s Hall; [reflexivity|].
  rewrite convertFiles_cons.
  destruct (Hall f (or_introl eq_refl)) as [b ->].
  destruct (trim (utf8_decode b)) as [|c t].
  - apply IH. intros q Hq. apply Hall. now right.
  - apply IH. intros q Hq. destruct (Hall q (or_intror Hq)) as [b' Hb'].
    eapply afterFile_readable; exact Hb'.
Qed.

(** Reading the project changes nothing, and the context it returns
    holds one entry for each file it took from the list. *)
Lemma readProjectContext_run (extractPath : fsPath) (codeFiles : list fsPath)
    (acc : list jsString) (s : State) :
  fst (readProjectContext extractPath codeFiles acc s) = s /\
  forall ctx, snd (readProjectContext extractPath codeFiles acc s) = Some ctx ->
    exists sources : list (fsPath * jsString),
      ctx = acc ++ map (entryOf extractPath) sources /\
      Forall (fun qc => In (fst qc) codeFiles) sources.
Proof.
  revert acc; induction codeFiles as [|f more IH]; intros acc.
  - split; [reflexivity|]. intros ctx H. injection H as <-.
    exists []. simpl. now rewrite app_nil_r.
  - cbn [readProjectContext]. unfold bind, readFileSync, liftOption.
    destruct (fsReadFile (fs s) f) as [bytes|]; cbn [option_map];
      [|split; [reflexivity|discriminate]].
    destruct (trim (utf8_decode bytes)) as [|c t].
    + destruct (IH acc) as [Hs Hctx]. split; [exact Hs|].
      intros ctx H. destruct (Hctx ctx H) as (src & -> & Hall).
      exists src. split; [reflexivity|].
      eapply Forall_impl; [|exact Hall]. intros qc Hq. now right.
    + destruct (IH (acc ++ [contextEntry (replaceBackslashes (relative extractPath f))
                              (utf8_decode bytes)])) as [Hs Hctx].
      split; [exact Hs|].
      intros ctx H. destruct (Hctx ctx H) as (src & -> & Hall).
      exists ((f, utf8_decode bytes) :: src). split.
      * now rewrite <- app_assoc.
      * constructor; [now left|].
        eapply Forall_impl; [|exact Hall]. intros qc Hq. now right.
Qed.

(** A run of the body either throws before any prompt is sent, or
    sends one prompt, made of files that pass the filter, and answers
    to the reply. *)
Lemma convertWholeProject_run (projectZip : UploadedFile) (targetStack : jsString)
    (requestTempDir : jsString) (s : State) :
  let run := convertWholeProject projectZip targetStack requestTempDir s in
  (sent (fst run) = sent s /\ snd run = None) \/
  exists (sources : list (fsPath * jsString)) (prompt : jsString),
    prompt = wholeProjectPrompt targetStack
               (join contextSeparator
                  (map (entryOf [requestTempDir; js "source"]) sources)) /\
    Forall (fun qc => isCodeFile (fst qc) = true) sources /\
    sent (fst run) = sent s ++ [prompt] /\
    match snd run with
    | Some response => response
    | None => Json 500 MSG_SERVER_ERROR
    end = match generateContent (sent s) prompt with
          | ModelThrows => Json 500 MSG_SERVER_ERROR
          | ModelText text => answerTo projectZip text
          end.
Proof.
  intros run.
  assert (Hrun : run = convertWholeProject projectZip targetStack requestTempDir s)
    by reflexivity.
  clearbody run. unfold convertWholeProject in Hrun.
  unfold bind at 1, extractProject in Hrun.
  destruct (extractAllTo (data projectZip) (fs s requestTempDir)) as [after|after];
    [subst run; now left|].
  set (s1 := mkSt (fsSet (fs s) requestTempDir after) (sent s)) in Hrun.
  unfold bind at 1, liftOption in Hrun.
  destruct (getAllFilePaths (fs s1) [requestTempDir; js "source"]) as [allFiles|];
    [|subst run; now left].
  unfold bind at 1 in Hrun.
  destruct (readProjectContext_run [requestTempDir; js "source"]
              (filter isCodeFile allFiles) [] s1) as [Hs Hctx].
  destruct (readProjectContext [requestTempDir; js "source"]
              (filter isCodeFile allFiles) [] s1) as [s2 [ctx|]];
    cbn [fst snd] in *; subst s2; [|subst run; now left].
  destruct (Hctx ctx eq_refl) as (src & -> & Hall). cbn [app] in Hrun.
  right. exists src. eexists. split; [reflexivity|]. split.
  { eapply Forall_impl; [|exact Hall]. intros qc Hq.
    apply filter_In in Hq. apply Hq. }
  unfold bind at 1, generate in Hrun. cbn [fs sent s1] in Hrun.
  destruct (generateContent (sent s) _) as [|text]; subst run; cbn [fst snd];
    [easy|].
  unfold answerTo. destruct (parseAIResponse text) as [|f more]; [easy|].
  unfold bind, zipConvertedFiles, packedResponse, sendZip, ret, throw.
  destruct (zipOfFiles _) as [|outputZipBuffer]; cbn [fst snd]; [easy|].
  now destruct (validHeaderValue _).
Qed.

(** *** [try], [catch] and [finally] *)

Lemma guarded_cleans (body : M Response) (requestTempDir : jsString) (s : State) :
  fs (fst (guarded body requestTempDir s)) requestTempDir = None.
Proof.
  unfold guarded. destruct (body s) as [s1 r]. unfold existsSync.
  destruct (fs s1 requestTempDir) eqn:E; cbn [fst fs]; [|exact E].
  unfold rmSync. apply fsSet_same.
Qed.

Lemma guarded_sent (body : M Response) (requestTempDir : jsString) (s : State) :
  sent (fst (guarded body requestTempDir s)) = sent (fst (body s)).
Proof.
  unfold guarded. destruct (body s) as [s1 r].
  now destruct (existsSync (fs s1) requestTempDir).
Qed.

Lemma guarded_response (body : M Response) (requestTempDir : jsString) (s : State) :
  snd (guarded body requestTempDir s) =
  match snd (body s) with
  | Some response => response
  | None => Json 500 MSG_SERVER_ERROR
  end.
Proof. unfold guarded. now destruct (body s) as [s1 r]. Qed.

(** *** The body of per-file mode *)

Lemma fsLookup_app (w : World) (p q : fsPath) :
  p <> [] ->
  fsLookup w (p ++ q) =
  match fsLookup w p with
  | Some t => lookupPath q t
  | None => None
  end.
Proof.
  destruct p as [|n p]; [congruence|]. intros _. cbn [app fsLookup].
  destruct (w n) as [t|]; [apply lookupPath_app|reflexivity].
Qed.

Lemma basename_app (p q : fsPath) : q <> [] -> basename (p ++ q) = basename q.
Proof.
  intros Hq. unfold basename. induction p as [|n p IH]; [reflexivity|].
  cbn [app]. destruct (p ++ q) eqn:E; [|exact IH].
  apply app_eq_nil in E as [_ ->]. congruence.
Qed.

Lemma packedResponse_caught (projectZip : UploadedFile) (packed : ZipResult) :
  packedResponse projectZip packed =
  match
    match packed with
    | Zipped outputZipBuffer =>
        if validHeaderValue (contentDispositionOf projectZip)
        then Some (SendZip (contentDispositionOf projectZip) outputZipBuffer)
        else None
    | ZipThrows => None
    end
  with
  | Some response => response
  | None => Json 500 MSG_SERVER_ERROR
  end.
Proof.
  unfold packedResponse. destruct packed; [reflexivity|].
  now destruct (validHeaderValue _).
Qed.

(** After an extraction that leaves the directory [source], the body
    runs the loop on the filtered walk and packs the directory. *)
Lemma convertPerFile_extracted (projectZip : UploadedFile) (targetStack : jsString)
    (requestTempDir : jsString) (s : State) (root : node)
    (es : list (jsString * node)) :
  extractAllTo (data projectZip) (fs s requestTempDir) = Extracted (Some root) ->
  lookupPath [js "source"] root = Some (Dir es) ->
  let extractPath := [requestTempDir; js "source"] in
  let s1 := mkSt (fsSet (fs s) requestTempDir (Some root)) (sent s) in
  let loop := convertFiles targetStack
                (filter isCodeFile (walk extractPath (Dir es))) s1 in
  (forall rel, fsReadFile (fs s1) (extractPath ++ rel) = readPath rel (Dir es)) /\
  fsIsDir (fs s1) extractPath = true /\
  convertPerFile projectZip targetStack requestTempDir s =
  (fst loop,
   match snd loop with
   | None => None
   | Some _ =>
       match fsLookup (fs (fst loop)) extractPath with
       | Some (Dir es') =>
           match zipOfFolder es' with
           | Zipped outputZipBuffer =>
               if validHeaderValue (contentDispositionOf projectZip)
               then Some (SendZip (contentDispositionOf projectZip) outputZipBuffer)
               else None
           | ZipThrows => None
           end
       | _ => None
       end
   end).
Proof.
  intros Hex Hsrc extractPath s1 loop.
  assert (Hlook : fsLookup (fs s1) extractPath = Some (Dir es)).
  { unfold extractPath, s1. cbn [fs]. unfold fsLookup. now rewrite fsSet_same. }
  split; [|split].
  - intros rel. unfold fsReadFile, readPath.
    rewrite fsLookup_app by discriminate. now rewrite Hlook.
  - unfold fsIsDir. now rewrite Hlook.
  - unfold convertPerFile. unfold bind at 1, extractProject. rewrite Hex.
    fold s1. unfold bind at 1, liftOption, getAllFilePaths.
    fold extractPath. rewrite Hlook.
    unfold bind at 1. fold loop. destruct loop as [s2 [[]|]]; cbn [fst snd];
      [|reflexivity].
    unfold bind, addLocalFolder, sendZip, ret, throw.
    destruct (fsLookup (fs s2) extractPath) as [[d|es']|]; try reflexivity.
    destruct (zipOfFolder es') as [|outputZipBuffer]; [reflexivity|].
    now destruct (validHeaderValue _).
Qed.



(** C9. [getAllFilePaths] never yields a path below a directory named
    [node_modules] or [.git], at any depth: every yielded path is the
    walked directory followed by at least one segment, and none of the
    segments before the last, the directories on the way to the file,
    has one of the two names. *)
Theorem getAllFilePaths_skips_node_modules_and_git (w : World) (dir : fsPath)
    (paths : list fsPath) (p : fsPath) :
  getAllFilePaths w dir = Some paths ->
  In p paths ->
  exists rel, p = dir ++ rel /\ rel <> [] /\
    forall seg, In seg (removelast rel) ->
      seg <> js "node_modules" /\ seg <> js ".git".
Proof.
  unfold getAllFilePaths.
  destruct (fsLookup w dir) as [[d|es]|]; try discriminate.
  intros H Hin. injection H as <-.
  destruct (walk_no_skipped (Dir es) dir p Hin) as (rel & -> & Hne & Hall).
  exists rel. repeat split; trivial.
  - rewrite Forall_forall in Hall. specialize (Hall _ H).
    intros ->. discriminate.
  - rewrite Forall_forall in Hall. specialize (Hall _ H).
    intros ->. discriminate.
Qed.

(** C6. In both modes, after a request that passed the checks before
    [try], so that its workspace directory could be created, the
    directory of the request does not exist, whatever happened in the
    body: an archive sent, an unparsable response, or an exception. *)
Theorem workspace_removed_after_request (GEMINI_API_KEY : option jsString)
    (req : Request) (now : jsString) (s : State) :
  truthy GEMINI_API_KEY = true ->
  truthy (body_targetStack req) = true ->
  (uploadOf req (js "sourceCode") <> None ->
   existsSync (fs (fst (handleConvertWholeProject GEMINI_API_KEY req now s)))
     (requestDirName now) = false) /\
  (forall projectZip, uploadOf req (js "projectZip") = Some projectZip ->
   isZipType (mimetype projectZip) = true ->
   existsSync (fs (fst (handleConvertPerFile GEMINI_API_KEY req now s)))
     (requestDirName now) = false).
Proof.
  intros Hkey Htarget. unfold existsSync. split.
  - intros Hup. unfold handleConvertWholeProject. rewrite Hkey, Htarget. cbn [negb].
    destruct (uploadOf req (js "sourceCode")) as [zip|]; [|congruence].
    now rewrite guarded_cleans.
  - intros zip Hup Hzip. unfold handleConvertPerFile.
    rewrite Hkey, Htarget, Hup, Hzip. cbn [negb].
    now rewrite guarded_cleans.
Qed.

(** C7, as the code has it. A request without the upload field or
    without the target stack is answered with a JSON error and the
    state is left as it was, so that no workspace directory appears:
    the status is 400 when the API key is configured, and 500, for the
    missing key, when it is not. *)
Theorem validation_precedes_workspace (GEMINI_API_KEY : option jsString)
    (req : Request) (now : jsString) (s : State) :
  (uploadOf req (js "sourceCode") = None \/ truthy (body_targetStack req) = false ->
   fst (handleConvertWholeProject GEMINI_API_KEY req now s) = s /\
   exists message,
     snd (handleConvertWholeProject GEMINI_API_KEY req now s) =
     Json (if truthy GEMINI_API_KEY then 400 else 500) message) /\
  (uploadOf req (js "projectZip") = None \/ truthy (body_targetStack req) = false ->
   fst (handleConvertPerFile GEMINI_API_KEY req now s) = s /\
   exists message,
     snd (handleConvertPerFile GEMINI_API_KEY req now s) =
     Json (if truthy GEMINI_API_KEY then 400 else 500) message).
Proof.
  split; intros H.
  - unfold handleConvertWholeProject.
    destruct (truthy GEMINI_API_KEY); cbn [negb]; [|split; [reflexivity | eexists; reflexivity]].
    destruct H as [->|H]; [split; [reflexivity | eexists; reflexivity]|].
    destruct (uploadOf req (js "sourceCode")); [|split; [reflexivity | eexists; reflexivity]].
    rewrite H. cbn [negb]. split; [reflexivity | eexists; reflexivity].
  - unfold handleConvertPerFile.
    destruct (truthy GEMINI_API_KEY); cbn [negb]; [|split; [reflexivity | eexists; reflexivity]].
    destruct H as [->|H]; [split; [reflexivity | eexists; reflexivity]|].
    destruct (uploadOf req (js "projectZip")); [|split; [reflexivity | eexists; reflexivity]].
    rewrite H. cbn [negb]. split; [reflexivity | eexists; reflexivity].
Qed.

Lemma app_one_neq (A : Type) (l : list A) (x : A) : l <> l ++ [x].
Proof.
  intros H. apply (f_equal (@length A)) in H. rewrite length_app in H.
  cbn [length] in H. lia.
Qed.

(** Once the prompt is sent, the response is decided by the reply. *)
Lemma handleConvertWholeProject_after_prompt (GEMINI_API_KEY : option jsString)
    (req : Request) (now : jsString) (s : State) (prompt : jsString) :
  sent (fst (handleConvertWholeProject GEMINI_API_KEY req now s)) = sent s ++ [prompt] ->
  exists projectZip : UploadedFile,
    uploadOf req (js "sourceCode") = Some projectZip /\
    snd (handleConvertWholeProject GEMINI_API_KEY req now s) =
    match generateContent (sent s) prompt with
    | ModelThrows => Json 500 MSG_SERVER_ERROR
    | ModelText text => answerTo projectZip text
    end.
Proof.
  intros Hsent. unfold handleConvertWholeProject in *.
  destruct (truthy GEMINI_API_KEY); cbn [negb] in *;
    [|now apply app_one_neq in Hsent].
  destruct (uploadOf req (js "sourceCode")) as [zip|];
    [|now apply app_one_neq in Hsent].
  destruct (truthy (body_targetStack req)); cbn [negb] in *;
    [|now apply app_one_neq in Hsent].
  rewrite guarded_sent in Hsent. rewrite guarded_response.
  exists zip. split; [reflexivity|].
  destruct (convertWholeProject_run zip
              (match body_targetStack req with Some t => t | None => [] end)
              (requestDirName now) s)
    as [[Hs _]|(sources & prompt0 & _ & _ & Hs & Hr)].
  - rewrite Hs in Hsent. now apply app_one_neq in Hsent.
  - rewrite Hs in Hsent. apply app_inv_head in Hsent. injection Hsent as ->.
    exact Hr.
Qed.


(* ------------------------------------------------------------------ *)
(** *** Further properties of the walk *)

Lemma fsReadFile_below (w : World) (dir rel : fsPath) (t : node) :
  fsLookup w dir = Some t -> fsReadFile w (dir ++ rel) = readPath rel t.
Proof.
  intros L. assert (Hdir : dir <> []) by (intros ->; discriminate).
  unfold fsReadFile, readPath. rewrite (fsLookup_app w rel Hdir). now rewrite L.
Qed.

(** A file that is reached without going through a skipped directory
    is listed. *)
Lemma walk_complete (rel : fsPath) :
  forall (t : node) (dir : fsPath) (d : Buffer),
    readPath rel t = Some d ->
    Forall (fun seg => skippedDirectory seg = false) (removelast rel) ->
    rel <> [] ->
    In (dir ++ rel) (walk dir t).
Proof.
  induction rel as [|n rel IH]; intros t dir d Hread Hskip Hne; [congruence|].
  unfold readPath in Hread. destruct t as [d0|es]; [discriminate|].
  cbn [lookupPath] in Hread.
  destruct (lookupEntry n es) as [c|] eqn:L; [|discriminate].
  apply lookupEntry_In in L. cbn [walk]. apply in_flat_map.
  exists (n, c). split; [exact L|]. cbn [fst snd].
  destruct rel as [|m rel'].
  - cbn [lookupPath] in Hread. destruct c as [d1|es1]; [|discriminate]. now left.
  - destruct c as [d1|es1]; [discriminate|].
    rewrite removelast_cons in Hskip by discriminate.
    inversion Hskip as [|x l Hn Hrest]; subst. rewrite Hn. cbn [negb].
    replace (dir ++ n :: m :: rel') with ((dir ++ [n]) ++ m :: rel')
      by (now rewrite <- app_assoc).
    apply (IH (Dir es1) (dir ++ [n]) d); [|exact Hrest|discriminate].
    unfold readPath. exact Hread.
Qed.

(** X5. [getAllFilePaths] lists exactly the files that are reached
    from the directory without going through a directory named
    [node_modules] or [.git]: a path below the directory is listed if
    and only if it is a file and no segment before its last is one of
    the two names. A file that itself has one of the two names is
    listed. *)
Theorem getAllFilePaths_lists_exactly (w : World) (dir : fsPath)
    (paths : list fsPath) (rel : fsPath) :
  getAllFilePaths w dir = Some paths ->
  (forall t, fsLookup w dir = Some t -> wf t) ->
  (In (dir ++ rel) paths <->
   (exists bytes, fsReadFile w (dir ++ rel) = Some bytes) /\
   forallb (fun seg => negb (skippedDirectory seg)) (removelast rel) = true).
Proof.
  unfold getAllFilePaths.
  destruct (fsLookup w dir) as [[d|es]|] eqn:L; try discriminate.
  intros H Hwf. injection H as <-. specialize (Hwf _ eq_refl).
  rewrite (@fsReadFile_below w dir rel (Dir es) L). split.
  - intros Hin. split.
    + destruct (walk_readable Hwf dir _ Hin) as (rel' & d & E & Hr).
      apply app_inv_head in E. subst rel'. now exists d.
    + destruct (walk_no_skipped (Dir es) dir _ Hin) as (rel' & E & _ & Hall).
      apply app_inv_head in E. subst rel'.
      apply forallb_forall. intros seg Hseg.
      rewrite Forall_forall in Hall. now rewrite (Hall seg Hseg).
  - intros [[bytes Hr] Hall].
    apply (@walk_complete rel (Dir es) dir bytes Hr).
    + apply Forall_forall. intros seg Hseg.
      rewrite forallb_forall in Hall. specialize (Hall seg Hseg).
      now apply negb_true_iff in Hall.
    + intros ->. discriminate.
Qed.

(** The paths of one entry start with the name of the entry. *)
Lemma walk_entry_head (dir : fsPath) (n : jsString) (c : node) (p : fsPath) :
  In p (match c with
        | Dir _ => if negb (skippedDirectory n) then walk (dir ++ [n]) c else []
        | File _ => [dir ++ [n]]
        end) ->
  exists rel, p = dir ++ n :: rel.
Proof.
  destruct c as [d|es].
  - intros [<-|[]]. now exists [].
  - destruct (negb (skippedDirectory n)); [|easy]. intros Hin.
    destruct (walk_no_skipped (Dir es) (dir ++ [n]) p Hin) as (rel & -> & _).
    exists rel. now rewrite <- app_assoc.
Qed.

Lemma walk_NoDup (t : node) : wf t -> forall dir, NoDup (walk dir t).
Proof.
  induction t as [d|es IH] using node_induction; intros Hwf dir; [constructor|].
  inversion Hwf as [|es' Hnames Hsub]; subst. cbn [walk].
  clear Hwf. induction es as [|[n c] es IHes]; [constructor|].
  cbn [flat_map fst snd].
  inversion IH as [|e l Hc Hl]; subst. cbn [snd] in Hc.
  cbn [map fst] in Hnames. inversion Hnames as [|x l Hn Hnd]; subst.
  apply NoDup_app.
  - destruct c as [d|es1]; [repeat constructor; easy|].
    destruct (negb (skippedDirectory n)); [|constructor].
    apply Hc. apply (Hsub n). now left.
  - apply IHes; [exact Hl|exact Hnd|].
    intros m c' Hin. apply (Hsub m). now right.
  - intros p Hp Hq. apply walk_entry_head in Hp as [rel ->].
    apply in_flat_map in Hq as ([m c'] & Hin & Hq). cbn [fst snd] in Hq.
    apply walk_entry_head in Hq as [rel' E].
    apply app_inv_head in E. injection E as -> _.
    apply Hn. apply (in_map fst) in Hin. exact Hin.
Qed.

(** X6. In a directory tree that lists each name once,
    [getAllFilePaths] lists no file twice: each file is read, and in
    per-file mode converted, at most once. *)
Theorem getAllFilePaths_lists_each_file_once (w : World) (dir : fsPath)
    (paths : list fsPath) :
  getAllFilePaths w dir = Some paths ->
  (forall t, fsLookup w dir = Some t -> wf t) ->
  NoDup paths.
Proof.
  unfold getAllFilePaths.
  destruct (fsLookup w dir) as [[d|es]|] eqn:L; try discriminate.
  intros H Hwf. injection H as <-.
  exact (@walk_NoDup (Dir es) (Hwf _ eq_refl) dir).
Qed.

(* ------------------------------------------------------------------ *)
(** *** Further properties of the handlers *)

(** **** The checks before [try] *)

(** X7. The checks before [try] are made in a fixed order, and the
    first one that fails gives the response, with the state left as it
    was. Without an API key, every request is answered with status 500
    and the message of the missing key. With a key: a request without
    the upload under the field of the variant is answered with status
    400 and the message that names the field, whatever else it lacks;
    a request with the upload and with no target stack, or an empty
    one, with status 400 and the message of the target stack; and in
    the per-file variant, which alone checks the type, a request with
    both and with a type other than the two zip types, with status 400
    and the message that quotes the type. *)
Theorem validation_errors_in_order (GEMINI_API_KEY : option jsString)
    (req : Request) (now : jsString) (s : State) :
  (truthy GEMINI_API_KEY = false ->
   handleConvertWholeProject GEMINI_API_KEY req now s = (s, Json 500 MSG_NO_KEY) /\
   handleConvertPerFile GEMINI_API_KEY req now s = (s, Json 500 MSG_NO_KEY)) /\
  (truthy GEMINI_API_KEY = true ->
   (uploadOf req (js "sourceCode") = None ->
    handleConvertWholeProject GEMINI_API_KEY req now s
    = (s, Json 400 (MSG_NO_UPLOAD (js "sourceCode")))) /\
   (uploadOf req (js "projectZip") = None ->
    handleConvertPerFile GEMINI_API_KEY req now s
    = (s, Json 400 (MSG_NO_UPLOAD (js "projectZip")))) /\
   (truthy (body_targetStack req) = false ->
    (uploadOf req (js "sourceCode") <> None ->
     handleConvertWholeProject GEMINI_API_KEY req now s
     = (s, Json 400 MSG_NO_TARGET)) /\
    (uploadOf req (js "projectZip") <> None ->
     handleConvertPerFile GEMINI_API_KEY req now s
     = (s, Json 400 MSG_NO_TARGET))) /\
   (forall projectZip : UploadedFile,
      uploadOf req (js "projectZip") = Some projectZip ->
      truthy (body_targetStack req) = true ->
      isZipType (mimetype projectZip) = false ->
      handleConvertPerFile GEMINI_API_KEY req now s
      = (s, Json 400 (MSG_BAD_TYPE (mimetype projectZip))))).
Proof.
  unfold handleConvertWholeProject, handleConvertPerFile. split.
  - intros ->. now split.
  - intros ->. cbn [negb]. split; [|split; [|split]].
    + now intros ->.
    + now intros ->.
    + intros ->. cbn [negb]. split; intros Hup.
      * now destruct (uploadOf req (js "sourceCode")).
      * now destruct (uploadOf req (js "projectZip")).
    + intros zip -> -> ->. reflexivity.
Qed.

Lemma handleConvertWholeProject_validated (GEMINI_API_KEY : option jsString)
    (req : Request) (now : jsString) (s : State) (projectZip : UploadedFile)
    (targetStack : jsString) :
  truthy GEMINI_API_KEY = true ->
  uploadOf req (js "sourceCode") = Some projectZip ->
  body_targetStack req = Some targetStack ->
  truthy (Some targetStack) = true ->
  handleConvertWholeProject GEMINI_API_KEY req now s =
  guarded (convertWholeProject projectZip targetStack (requestDirName now))
    (requestDirName now) s.
Proof.
  intros Hkey Hup Hts Htruthy. unfold handleConvertWholeProject.
  now rewrite Hkey, Hup, Hts, Htruthy.
Qed.

Lemma handleConvertPerFile_validated (GEMINI_API_KEY : option jsString)
    (req : Request) (now : jsString) (s : State) (projectZip : UploadedFile)
    (targetStack : jsString) :
  truthy GEMINI_API_KEY = true ->
  uploadOf req (js "projectZip") = Some projectZip ->
  body_targetStack req = Some targetStack ->
  truthy (Some targetStack) = true ->
  isZipType (mimetype projectZip) = true ->
  handleConvertPerFile GEMINI_API_KEY req now s =
  guarded (convertPerFile projectZip targetStack (requestDirName now))
    (requestDirName now) s.
Proof.
  intros Hkey Hup Hts Htruthy Hzip. unfold handleConvertPerFile.
  now rewrite Hkey, Hup, Hts, Htruthy, Hzip.
Qed.

(** **** An extraction that fails *)

Lemma getAllFilePaths_not_a_directory (w : World) (dir : fsPath) :
  fsIsDir w dir = false -> getAllFilePaths w dir = None.
Proof.
  unfold fsIsDir, getAllFilePaths. now destruct (fsLookup w dir) as [[d|es]|].
Qed.

Lemma convertWholeProject_extractionFailed (projectZip : UploadedFile)
    (targetStack requestTempDir : jsString) (s : State) :
  extractionFailed (data projectZip) requestTempDir s ->
  exists s', convertWholeProject projectZip targetStack requestTempDir s = (s', None) /\
             sent s' = sent s.
Proof.
  unfold convertWholeProject. unfold bind at 1, extractProject.
  intros [[after ->]|(after & -> & Hdir)]; [eexists; split; reflexivity|].
  unfold bind at 1, liftOption. cbn [fs].
  rewrite (getAllFilePaths_not_a_directory _ _ Hdir). eexists; split; reflexivity.
Qed.

Lemma convertPerFile_extractionFailed (projectZip : UploadedFile)
    (targetStack requestTempDir : jsString) (s : State) :
  extractionFailed (data projectZip) requestTempDir s ->
  exists s', convertPerFile projectZip targetStack requestTempDir s = (s', None) /\
             sent s' = sent s.
Proof.
  unfold convertPerFile. unfold bind at 1, extractProject.
  intros [[after ->]|(after & -> & Hdir)]; [eexists; split; reflexivity|].
  unfold bind at 1, liftOption. cbn [fs].
  rewrite (getAllFilePaths_not_a_directory _ _ Hdir). eexists; split; reflexivity.
Qed.

(** X8. When the extraction of the upload throws, or returns without
    a directory [source] at the directory of the request (so that
    [readdirSync] throws), the request is answered with status 500 and
    the message of a server error, the model is not called, and the
    directory of the request does not exist afterwards, in both
    modes. *)
Theorem failed_extraction_is_a_server_error (GEMINI_API_KEY : option jsString)
    (req : Request) (now : jsString) (s : State) (projectZip : UploadedFile) :
  truthy GEMINI_API_KEY = true ->
  truthy (body_targetStack req) = true ->
  extractionFailed (data projectZip) (requestDirName now) s ->
  (uploadOf req (js "sourceCode") = Some projectZip ->
   snd (handleConvertWholeProject GEMINI_API_KEY req now s) = Json 500 MSG_SERVER_ERROR /\
   sent (fst (handleConvertWholeProject GEMINI_API_KEY req now s)) = sent s /\
   fs (fst (handleConvertWholeProject GEMINI_API_KEY req now s)) (requestDirName now)
   = None) /\
  (uploadOf req (js "projectZip") = Some projectZip ->
   isZipType (mimetype projectZip) = true ->
   snd (handleConvertPerFile GEMINI_API_KEY req now s) = Json 500 MSG_SERVER_ERROR /\
   sent (fst (handleConvertPerFile GEMINI_API_KEY req now s)) = sent s /\
   fs (fst (handleConvertPerFile GEMINI_API_KEY req now s)) (requestDirName now)
   = None).
Proof.
  intros Hkey Htarget Hfail. split.
  - intros Hup. unfold handleConvertWholeProject. rewrite Hkey, Hup, Htarget.
    cbn [negb]. rewrite guarded_response, guarded_sent, guarded_cleans.
    destruct (convertWholeProject_extractionFailed projectZip
                (match body_targetStack req with Some t => t | None => [] end) Hfail)
      as (s' & -> & Hs).
    cbn [fst snd]. now rewrite Hs.
  - intros Hup Hzip. unfold handleConvertPerFile. rewrite Hkey, Hup, Htarget, Hzip.
    cbn [negb]. rewrite guarded_response, guarded_sent, guarded_cleans.
    destruct (convertPerFile_extractionFailed projectZip
                (match body_targetStack req with Some t => t | None => [] end) Hfail)
      as (s' & -> & Hs).
    cbn [fst snd]. now rewrite Hs.
Qed.

(** **** Whole-project mode, after the prompt *)

(** X9. In whole-project mode an exception of the model call is not
    caught apart: when the prompt was sent and the call throws, the
    request is answered with status 500 and the message of a server
    error, and no archive is sent. *)
Theorem whole_project_model_failure_is_a_server_error
    (GEMINI_API_KEY : option jsString) (req : Request) (now : jsString)
    (s : State) (prompt : jsString) :
  sent (fst (handleConvertWholeProject GEMINI_API_KEY req now s)) = sent s ++ [prompt] ->
  generateContent (sent s) prompt = ModelThrows ->
  snd (handleConvertWholeProject GEMINI_API_KEY req now s) = Json 500 MSG_SERVER_ERROR.
Proof.
  intros Hsent Hreply.
  destruct (@handleConvertWholeProject_after_prompt _ _ _ _ _ Hsent) as (zip & _ & ->).
  now rewrite Hreply.
Qed.

(** X10. In whole-project mode, when the prompt was sent and the reply
    holds at least one block, the response is decided by one archive:
    a new archive to which one file is added for each file that
    [parseAIResponse] returns for the reply, in their order, under its
    path and with its content encoded; nothing of the uploaded project
    is added. When the library returns the buffer of that archive and
    the name of the upload can be carried by a header, the buffer is
    sent under the name of the upload with [converted-] before it;
    when the library or [res.set] throws, the request is answered with
    status 500 and the message of a server error. *)
Theorem whole_project_archive_is_the_parsed_files
    (GEMINI_API_KEY : option jsString) (req : Request) (now : jsString)
    (s : State) (prompt text : jsString) :
  sent (fst (handleConvertWholeProject GEMINI_API_KEY req now s)) = sent s ++ [prompt] ->
  generateContent (sent s) prompt = ModelText text ->
  parseAIResponse text <> [] ->
  exists projectZip : UploadedFile,
    uploadOf req (js "sourceCode") = Some projectZip /\
    let packed :=
      zipOfFiles (map (fun file => (path file, utf8_encode (content file)))
                    (parseAIResponse text)) in
    snd (handleConvertWholeProject GEMINI_API_KEY req now s)
    = packedResponse projectZip packed /\
    (forall outputZipBuffer,
       packed = Zipped outputZipBuffer ->
       validHeaderValue (contentDispositionOf projectZip) = true ->
       snd (handleConvertWholeProject GEMINI_API_KEY req now s) =
       SendZip (js "attachment; filename=" ++ DQUOTE :: js "converted-"
                ++ name projectZip ++ [DQUOTE]) outputZipBuffer) /\
    (packed = ZipThrows \/ validHeaderValue (contentDispositionOf projectZip) = false ->
     snd (handleConvertWholeProject GEMINI_API_KEY req now s)
     = Json 500 MSG_SERVER_ERROR).
Proof.
  intros Hsent Hreply Hfiles.
  destruct (@handleConvertWholeProject_after_prompt _ _ _ _ _ Hsent) as (zip & Hup & ->).
  exists zip. split; [exact Hup|]. intros packed. rewrite Hreply. unfold answerTo.
  assert (E : match parseAIResponse text with
              | [] => Json 500 MSG_UNPARSABLE
              | f :: more =>
                  packedResponse zip
                    (zipOfFiles
                       (map (fun file => (path file, utf8_encode (content file)))
                          (f :: more)))
              end = packedResponse zip packed).
  { unfold packed. destruct (parseAIResponse text); [congruence|reflexivity]. }
  rewrite E. clear E. split; [reflexivity|]. unfold packedResponse. split.
  - intros outputZipBuffer -> ->. reflexivity.
  - intros [->| ->]; [reflexivity|]. now destruct packed.
Qed.

(** **** The files that are sent to the model *)

Lemma promptSources_In (w : World) (codeFiles : list fsPath) (q : fsPath)
    (c : jsString) :
  In (q, c) (promptSources w codeFiles) <->
  In q codeFiles /\
  exists bytes, fsReadFile w q = Some bytes /\ c = utf8_decode bytes /\ trim c <> [].
Proof.
  unfold promptSources. rewrite in_flat_map. split.
  - intros (f & Hin & H). destruct (fsReadFile w f) as [bytes|] eqn:R; [|easy].
    destruct (trim (utf8_decode bytes)) as [|t0 t1] eqn:T; [easy|].
    destruct H as [H|[]]. injection H as <- <-. split; [exact Hin|].
    exists bytes. rewrite T. repeat split; trivial. discriminate.
  - intros (Hin & bytes & R & -> & T). exists q. split; [exact Hin|].
    rewrite R. destruct (trim (utf8_decode bytes)); [congruence|now left].
Qed.

(** The files of the filtered walk of a well-formed directory. *)
Lemma codeFiles_In (extractPath : fsPath) (es : list (jsString * node))
    (q : fsPath) :
  wf (Dir es) ->
  (In q (filter isCodeFile (walk extractPath (Dir es))) <->
   exists rel,
     q = extractPath ++ rel /\
     (exists bytes, readPath rel (Dir es) = Some bytes) /\
     CODE_EXTENSIONS_has (extname (basename rel)) = true /\
     forallb (fun seg => negb (skippedDirectory seg)) (removelast rel) = true).
Proof.
  intros Hwf. rewrite filter_In. split.
  - intros [Hin Hcode].
    destruct (walk_readable Hwf extractPath q Hin) as (rel & d & -> & Hr).
    destruct (walk_no_skipped (Dir es) extractPath _ Hin) as (rel' & E & Hne & Hall).
    apply app_inv_head in E. subst rel'.
    exists rel. split; [reflexivity|]. split; [now exists d|]. split.
    + unfold isCodeFile in Hcode. now rewrite (basename_app extractPath Hne) in Hcode.
    + apply forallb_forall. intros seg Hseg.
      rewrite Forall_forall in Hall. now rewrite (Hall seg Hseg).
  - intros (rel & -> & [bytes Hr] & Hext & Hall).
    assert (Hne : rel <> []) by (intros ->; discriminate).
    split.
    + apply (@walk_complete rel (Dir es) extractPath bytes Hr); [|exact Hne].
      apply Forall_forall. intros seg Hseg.
      rewrite forallb_forall in Hall. specialize (Hall seg Hseg).
      now apply negb_true_iff in Hall.
    + unfold isCodeFile. now rewrite (basename_app extractPath Hne).
Qed.

(** When its files can be read, the loop of whole-project mode returns
    one entry for each file that is not blank, in the order of the
    list. *)
Lemma readProjectContext_exact (extractPath : fsPath) (codeFiles : list fsPath)
    (acc : list jsString) (s : State) :
  (forall q, In q codeFiles -> exists b, fsReadFile (fs s) q = Some b) ->
  readProjectContext extractPath codeFiles acc s =
  (s, Some (acc ++ map (entryOf extractPath) (promptSources (fs s) codeFiles))).
Proof.
  revert acc; induction codeFiles as [|f more IH]; intros acc Hall.
  - cbn. now rewrite app_nil_r.
  - cbn [readProjectContext]. unfold bind, readFileSync, liftOption.
    destruct (Hall f (or_introl eq_refl)) as [bytes R]. rewrite R. cbn [option_map].
    unfold promptSources. cbn [flat_map]. rewrite R.
    fold (promptSources (fs s) more).
    assert (Hmore : forall q, In q more -> exists b, fsReadFile (fs s) q = Some b).
    { intros q Hq. apply Hall. now right. }
    destruct (trim (utf8_decode bytes)) as [|t0 t1].
    + cbn [app]. now apply IH.
    + rewrite (IH _ Hmore). cbn [app map]. unfold entryOf at 2. cbn [fst snd].
      now rewrite <- app_assoc.
Qed.

(** Whole-project mode after an extraction that leaves the directory
    [source]: the prompt, and what follows from the reply. *)
Lemma convertWholeProject_extracted (projectZip : UploadedFile)
    (targetStack requestTempDir : jsString) (s : State) (root : node)
    (es : list (jsString * node)) :
  extractAllTo (data projectZip) (fs s requestTempDir) = Extracted (Some root) ->
  lookupPath [js "source"] root = Some (Dir es) ->
  wf (Dir es) ->
  let extractPath := [requestTempDir; js "source"] in
  let w1 := fsSet (fs s) requestTempDir (Some root) in
  let prompt :=
    wholeProjectPrompt targetStack
      (join contextSeparator
         (map (entryOf extractPath)
            (promptSources w1 (filter isCodeFile (walk extractPath (Dir es)))))) in
  fst (convertWholeProject projectZip targetStack requestTempDir s)
  = mkSt w1 (sent s ++ [prompt]) /\
  match snd (convertWholeProject projectZip targetStack requestTempDir s) with
  | Some response => response
  | None => Json 500 MSG_SERVER_ERROR
  end = match generateContent (sent s) prompt with
        | ModelThrows => Json 500 MSG_SERVER_ERROR
        | ModelText text => answerTo projectZip text
        end.
Proof.
  intros Hex Hsrc Hwf extractPath w1 prompt.
  assert (Hlook : fsLookup w1 extractPath = Some (Dir es)).
  { unfold extractPath, w1, fsLookup. now rewrite fsSet_same. }
  remember (convertWholeProject projectZip targetStack requestTempDir s) as run
    eqn:Hrun.
  unfold convertWholeProject in Hrun. unfold bind at 1, extractProject in Hrun.
  rewrite Hex in Hrun. fold w1 in Hrun.
  unfold bind at 1, liftOption, getAllFilePaths in Hrun. cbn [fs] in Hrun.
  fold extractPath in Hrun. rewrite Hlook in Hrun. unfold bind at 1 in Hrun.
  rewrite readProjectContext_exact in Hrun.
  - cbn [app fs] in Hrun. fold prompt in Hrun.
    unfold bind at 1, generate in Hrun. cbn [fs sent] in Hrun.
    destruct (generateContent (sent s) prompt) as [|text]; [now subst run|].
    unfold answerTo. destruct (parseAIResponse text) as [|f more]; [now subst run|].
    unfold bind, zipConvertedFiles, packedResponse, sendZip, ret, throw in *.
    destruct (zipOfFiles _) as [|outputZipBuffer]; [now subst run|].
    destruct (validHeaderValue _); now subst run.
  - intros q Hq. apply filter_In in Hq as [Hq _].
    destruct (walk_readable Hwf extractPath q Hq) as (rel & d & -> & Hr).
    exists d. cbn [fs]. now rewrite (@fsReadFile_below w1 extractPath rel (Dir es) Hlook).
Qed.

(** X11. The prompt of whole-project mode. For a request that passed
    the checks and whose archive was extracted to a directory [source]
    that lists each name once, exactly one prompt is sent: the
    instructions for the target stack, followed by one entry for each
    file of the filtered walk whose content is not blank, in the order
    of the walk, the entries joined by the separator. An entry is the
    line [File: ] with the path from [source], then the content between
    two fences. The files with an entry are exactly the files below
    [source] with an extension of the allow-list and a content that is
    not blank which are reached without going through [node_modules]
    or [.git]. *)
Theorem whole_project_prompt_lists_the_code_files
    (GEMINI_API_KEY : option jsString) (req : Request) (now : jsString)
    (s : State) (projectZip : UploadedFile) (targetStack : jsString)
    (root : node) (es : list (jsString * node)) :
  truthy GEMINI_API_KEY = true ->
  uploadOf req (js "sourceCode") = Some projectZip ->
  body_targetStack req = Some targetStack ->
  truthy (Some targetStack) = true ->
  extractAllTo (data projectZip) (fs s (requestDirName now)) = Extracted (Some root) ->
  lookupPath [js "source"] root = Some (Dir es) ->
  wf (Dir es) ->
  let extractPath := [requestDirName now; js "source"] in
  let sources :=
    promptSources (fsSet (fs s) (requestDirName now) (Some root))
      (filter isCodeFile (walk extractPath (Dir es))) in
  sent (fst (handleConvertWholeProject GEMINI_API_KEY req now s)) =
    sent s ++ [wholeProjectPrompt targetStack
                 (join contextSeparator
                    (map (fun qc =>
                            js "File: "
                            ++ replaceBackslashes (relative extractPath (fst qc))
                            ++ LF :: FENCE ++ LF :: snd qc ++ LF :: FENCE)
                       sources))] /\
  (forall q content,
     In (q, content) sources <->
     exists rel bytes,
       q = extractPath ++ rel /\
       readPath rel (Dir es) = Some bytes /\
       content = utf8_decode bytes /\
       trim content <> [] /\
       CODE_EXTENSIONS_has (extname (basename rel)) = true /\
       forallb (fun seg => negb (skippedDirectory seg)) (removelast rel) = true).
Proof.
  intros Hkey Hup Hts Htruthy Hex Hsrc Hwf extractPath sources. split.
  - rewrite (@handleConvertWholeProject_validated GEMINI_API_KEY req now s projectZip
               targetStack Hkey Hup Hts Htruthy).
    rewrite guarded_sent.
    now rewrite (proj1 (@convertWholeProject_extracted projectZip targetStack
                          (requestDirName now) s root es Hex Hsrc Hwf)).
  - intros q content. unfold sources. rewrite promptSources_In.
    rewrite (@codeFiles_In extractPath es q Hwf).
    assert (Hlook : fsLookup (fsSet (fs s) (requestDirName now) (Some root))
                      extractPath = Some (Dir es)).
    { unfold extractPath, fsLookup. now rewrite fsSet_same. }
    split.
    + intros [(rel & -> & _ & Hext & Hall) (bytes & R & -> & T)].
      rewrite (@fsReadFile_below _ extractPath rel (Dir es) Hlook) in R.
      now exists rel, bytes.
    + intros (rel & bytes & -> & R & -> & T & Hext & Hall). split.
      * exists rel. repeat split; trivial. now exists bytes.
      * exists bytes. rewrite (@fsReadFile_below _ extractPath rel (Dir es) Hlook).
        now repeat split.
Qed.

(** **** Per-file mode, file by file *)

Lemma writePath_existing (p : fsPath) (content : Buffer) :
  forall (t : node) (b : Buffer),
    readPath p t = Some b -> exists t', writePath p content t = Some t'.
Proof.
  unfold readPath. induction p as [|n p IH]; intros t b Hr.
  - destruct t as [d|es]; [|discriminate]. now exists (File content).
  - destruct t as [d|es]; [discriminate|]. cbn [lookupPath writePath] in *.
    destruct (lookupEntry n es) as [c|]; [|discriminate].
    destruct (IH c b Hr) as [c' ->]. eauto.
Qed.

Lemma fsWriteFile_existing (w : World) (p : fsPath) (content b : Buffer) :
  fsReadFile w p = Some b -> exists w', fsWriteFile w p content = Some w'.
Proof.
  unfold fsReadFile, fsWriteFile, fsLookup. destruct p as [|n p]; [discriminate|].
  destruct (w n) as [t|]; [|discriminate]. intros Hr.
  destruct (@writePath_existing p content t b) as [t' ->]; [|eauto].
  unfold readPath. exact Hr.
Qed.

(** The file of a successful call holds the parsed reply. *)
Lemma afterFile_converted (targetStack : jsString) (filePath : fsPath)
    (originalContent : jsString) (s : State) (b : Buffer) (text : jsString) :
  fsReadFile (fs s) filePath = Some b ->
  generateContent (sent s)
    (filePrompt targetStack (basename filePath) originalContent) = ModelText text ->
  fsReadFile (fs (afterFile targetStack filePath originalContent s)) filePath
  = Some (utf8_encode (parseCodeFromResponse text)).
Proof.
  intros Hr Hreply. unfold afterFile. rewrite Hreply.
  destruct (@fsWriteFile_existing (fs s) filePath
              (utf8_encode (parseCodeFromResponse text)) b Hr) as [w' W].
  rewrite W. cbn [fs]. eapply fsReadFile_write_same; exact W.
Qed.

(** A blank file is passed over, and left as it was. *)
Lemma convertFiles_blank (targetStack : jsString) (codeFiles : list fsPath)
    (s : State) (p : fsPath) (bytes : Buffer) :
  fsReadFile (fs s) p = Some bytes ->
  trim (utf8_decode bytes) = [] ->
  fsReadFile (fs (fst (convertFiles targetStack codeFiles s))) p = Some bytes.
Proof.
  intros Hp Hblank. revert s Hp; induction codeFiles as [|f more IH]; intros s Hp;
    [exact Hp|].
  rewrite convertFiles_cons.
  destruct (fsReadFile (fs s) f) as [b|] eqn:Hf; [|exact Hp].
  destruct (trim (utf8_decode b)) as [|c t] eqn:T; [now apply IH|].
  apply IH. rewrite afterFile_other; [exact Hp|].
  intros ->. rewrite Hf in Hp. injection Hp as ->. congruence.
Qed.

(** The prompts of the loop, when each file is listed once and can be
    read: one for each file that is not blank, with the content that
    the file had before the loop. *)
Lemma convertFiles_sent_exact (targetStack : jsString) (codeFiles : list fsPath)
    (w0 : World) (s : State) :
  NoDup codeFiles ->
  (forall q, In q codeFiles -> fsReadFile (fs s) q = fsReadFile w0 q) ->
  (forall q, In q codeFiles -> exists b, fsReadFile w0 q = Some b) ->
  sent (fst (convertFiles targetStack codeFiles s)) =
  sent s ++ map (fun qc => filePrompt targetStack (basename (fst qc)) (snd qc))
                (promptSources w0 codeFiles).
Proof.
  intros Hnd. revert s; induction codeFiles as [|f more IH]; intros s Hsame Hall.
  - cbn. now rewrite app_nil_r.
  - inversion Hnd as [|x l Hf Hmore]; subst.
    rewrite convertFiles_cons. unfold promptSources. cbn [flat_map].
    fold (promptSources w0 more).
    rewrite (Hsame f (or_introl eq_refl)).
    destruct (Hall f (or_introl eq_refl)) as [b ->].
    assert (Hall' : forall q, In q more -> exists b', fsReadFile w0 q = Some b').
    { intros q Hq. apply Hall. now right. }
    destruct (trim (utf8_decode b)) as [|t0 t1].
    + cbn [app]. apply IH; trivial. intros q Hq. apply Hsame. now right.
    + rewrite IH; trivial.
      * rewrite afterFile_sent, <- app_assoc. reflexivity.
      * intros q Hq. rewrite afterFile_other; [apply Hsame; now right|].
        intros ->. contradiction.
Qed.

(** The loop on a list in two parts. *)
Lemma convertFiles_app (targetStack : jsString) (before after : list fsPath)
    (s : State) :
  convertFiles targetStack (before ++ after) s =
  match snd (convertFiles targetStack before s) with
  | Some _ => convertFiles targetStack after (fst (convertFiles targetStack before s))
  | None => convertFiles targetStack before s
  end.
Proof.
  revert s; induction before as [|f more IH]; intros s; [reflexivity|].
  cbn [app]. rewrite !convertFiles_cons.
  destruct (fsReadFile (fs s) f) as [b|]; [|reflexivity].
  destruct (trim (utf8_decode b)) as [|c t]; apply IH.
Qed.

(** The turn of a file that is listed once and is not blank. The files
    before it leave it as it was and send their prompts; its turn makes
    what is read at its path at the end of the loop. *)
Lemma convertFiles_at (targetStack : jsString) (before : list fsPath) (p : fsPath)
    (after : list fsPath) (s : State) (bytes : Buffer) :
  NoDup (before ++ p :: after) ->
  (forall q, In q (before ++ p :: after) -> exists b, fsReadFile (fs s) q = Some b) ->
  fsReadFile (fs s) p = Some bytes ->
  trim (utf8_decode bytes) <> [] ->
  let sb := fst (convertFiles targetStack before s) in
  fsReadFile (fs sb) p = Some bytes /\
  sent sb = sent s ++ map (fun qc => filePrompt targetStack (basename (fst qc)) (snd qc))
                          (promptSources (fs s) before) /\
  fsReadFile (fs (fst (convertFiles targetStack (before ++ p :: after) s))) p
  = fsReadFile (fs (afterFile targetStack p (utf8_decode bytes) sb)) p.
Proof.
  intros Hnd Hall Hp Hne sb.
  pose proof (NoDup_remove_2 _ _ _ Hnd) as Hnot.
  assert (Hb : ~ In p before) by (intros H; apply Hnot, in_or_app; now left).
  assert (Ha : ~ In p after) by (intros H; apply Hnot, in_or_app; now right).
  assert (Hallb : forall q, In q before -> exists b, fsReadFile (fs s) q = Some b).
  { intros q Hq. apply Hall, in_or_app. now left. }
  assert (Hpb : fsReadFile (fs sb) p = Some bytes).
  { unfold sb. now rewrite convertFiles_frame. }
  split; [exact Hpb|]. split.
  - unfold sb. apply convertFiles_sent_exact; trivial.
    exact (NoDup_app_remove_r _ _ Hnd).
  - rewrite convertFiles_app. rewrite (convertFiles_returns targetStack before s Hallb).
    fold sb. rewrite convertFiles_cons, Hpb.
    destruct (trim (utf8_decode bytes)) as [|c t]; [congruence|].
    now rewrite convertFiles_frame.
Qed.

(** **** The paths of the directory that is packed *)

Lemma allFiles_rel (t : node) :
  forall rel, allFiles rel t = map (fun pd => (rel ++ fst pd, snd pd)) (allFiles [] t).
Proof.
  induction t as [d|es IH] using node_induction; intros rel.
  - cbn. now rewrite app_nil_r.
  - cbn [allFiles]. induction IH as [|[n c] es Hc _ IHes]; [reflexivity|].
    cbn [flat_map fst snd] in *. rewrite map_app, IHes. f_equal.
    rewrite (Hc (rel ++ [n])), (Hc ([] ++ [n])), map_map. cbn [fst snd app].
    apply map_ext. intros [q d]. cbn [fst snd]. now rewrite <- app_assoc.
Qed.

Lemma filePaths_setEntry (n : jsString) (c c' : node) (es : list (jsString * node)) :
  lookupEntry n es = Some c ->
  filePaths c' = filePaths c ->
  filePaths (Dir (setEntry n c' es)) = filePaths (Dir es).
Proof.
  unfold filePaths. intros L Hc. cbn [allFiles].
  induction es as [|[m d] es IH]; [discriminate|].
  cbn [lookupEntry setEntry] in *.
  destruct (jsString_eqb n m).
  - injection L as ->. cbn [flat_map fst snd]. rewrite !map_app. f_equal.
    rewrite (allFiles_rel c'), (allFiles_rel c), !map_map. cbn [fst].
    transitivity (map (fun q => ([] ++ [m]) ++ q) (map fst (allFiles [] c')));
      [now rewrite map_map|].
    transitivity (map (fun q => ([] ++ [m]) ++ q) (map fst (allFiles [] c)));
      [now f_equal|now rewrite map_map].
  - cbn [flat_map fst snd]. rewrite !map_app. f_equal. now apply IH.
Qed.

(** Writing an existing file keeps the paths below every node. *)
Lemma filePaths_writePath (p : fsPath) (content : Buffer) :
  forall (t t' : node) (b : Buffer),
    readPath p t = Some b ->
    writePath p content t = Some t' ->
    forall q, option_map filePaths (lookupPath q t')
              = option_map filePaths (lookupPath q t).
Proof.
  unfold readPath. induction p as [|n p IH]; intros t t' b Hr W q.
  - destruct t as [d|es]; [|discriminate]. injection W as <-.
    now destruct q.
  - destruct t as [d|es]; [discriminate|]. cbn [lookupPath writePath] in *.
    destruct (lookupEntry n es) as [c|] eqn:L; [|discriminate].
    destruct (writePath p content c) as [c'|] eqn:Wc; [|discriminate].
    injection W as <-.
    destruct q as [|m q]; cbn [lookupPath option_map].
    + f_equal. apply (@filePaths_setEntry n c c' es L).
      pose proof (IH c c' b Hr Wc []) as H. cbn [lookupPath option_map] in H.
      now injection H.
    + destruct (list_eq_dec N.eq_dec m n) as [->|Hmn].
      * rewrite lookupEntry_setEntry_same, L. apply (IH c c' b Hr Wc q).
      * now rewrite lookupEntry_setEntry_other.
Qed.

Lemma filePaths_fsWriteFile (w w' : World) (p : fsPath) (content b : Buffer) :
  fsReadFile w p = Some b ->
  fsWriteFile w p content = Some w' ->
  forall q, option_map filePaths (fsLookup w' q) = option_map filePaths (fsLookup w q).
Proof.
  unfold fsReadFile, fsWriteFile, fsLookup. destruct p as [|n p]; [discriminate|].
  destruct (w n) as [t|] eqn:Ht; [|discriminate].
  destruct (writePath p content t) as [t'|] eqn:W; [|discriminate].
  intros Hr H q. injection H as <-. destruct q as [|m q]; [reflexivity|].
  destruct (list_eq_dec N.eq_dec m n) as [->|Hmn].
  - rewrite fsSet_same, Ht. eapply filePaths_writePath; [|exact W].
    unfold readPath. exact Hr.
  - now rewrite fsSet_other.
Qed.

Lemma convertFiles_filePaths (targetStack : jsString) (codeFiles : list fsPath)
    (s : State) (q : fsPath) :
  option_map filePaths (fsLookup (fs (fst (convertFiles targetStack codeFiles s))) q)
  = option_map filePaths (fsLookup (fs s) q).
Proof.
  revert s; induction codeFiles as [|f more IH]; intros s; [reflexivity|].
  rewrite convertFiles_cons.
  destruct (fsReadFile (fs s) f) as [b|] eqn:Hf; [|reflexivity].
  destruct (trim (utf8_decode b)) as [|c t]; [apply IH|].
  rewrite IH. unfold afterFile. destruct (generateContent _ _); [reflexivity|].
  destruct (fsWriteFile _ _ _) eqn:W; [|reflexivity].
  cbn [fs]. eapply filePaths_fsWriteFile; eassumption.
Qed.

(** **** Per-file mode, from the extraction to the archive *)

(** For a request that passed the checks and whose archive was
    extracted to a well-formed directory [source], the loop runs to its
    end, and the directory as the loop leaves it is packed. *)
Lemma handleConvertPerFile_extracted (GEMINI_API_KEY : option jsString)
    (req : Request) (now : jsString) (s : State) (projectZip : UploadedFile)
    (targetStack : jsString) (root : node) (es : list (jsString * node)) :
  truthy GEMINI_API_KEY = true ->
  uploadOf req (js "projectZip") = Some projectZip ->
  body_targetStack req = Some targetStack ->
  truthy (Some targetStack) = true ->
  isZipType (mimetype projectZip) = true ->
  extractAllTo (data projectZip) (fs s (requestDirName now)) = Extracted (Some root) ->
  lookupPath [js "source"] root = Some (Dir es) ->
  wf (Dir es) ->
  let extractPath := [requestDirName now; js "source"] in
  let s1 := mkSt (fsSet (fs s) (requestDirName now) (Some root)) (sent s) in
  let codeFiles := filter isCodeFile (walk extractPath (Dir es)) in
  let loop := convertFiles targetStack codeFiles s1 in
  NoDup codeFiles /\
  (forall rel, fsReadFile (fs s1) (extractPath ++ rel) = readPath rel (Dir es)) /\
  (forall q, In q codeFiles -> exists b, fsReadFile (fs s1) q = Some b) /\
  fsLookup (fs s1) extractPath = Some (Dir es) /\
  snd loop = Some tt /\
  exists es',
    fsLookup (fs (fst loop)) extractPath = Some (Dir es') /\
    (forall rel, fsReadFile (fs (fst loop)) (extractPath ++ rel) = readPath rel (Dir es')) /\
    sent (fst (handleConvertPerFile GEMINI_API_KEY req now s)) = sent (fst loop) /\
    snd (handleConvertPerFile GEMINI_API_KEY req now s)
    = packedResponse projectZip (zipOfFolder es').
Proof.
  intros Hkey Hup Hts Htruthy Hzip Hex Hsrc Hwf extractPath s1 codeFiles loop.
  destruct (convertPerFile_extracted projectZip targetStack (requestDirName now) s
              Hex Hsrc) as (Hreads & Hdir & Hrun).
  fold extractPath s1 codeFiles loop in Hreads, Hdir, Hrun.
  assert (Hread : forall q, In q codeFiles -> exists b, fsReadFile (fs s1) q = Some b).
  { intros q Hq. apply filter_In in Hq as [Hq _].
    destruct (walk_readable Hwf extractPath q Hq) as (r & d & -> & Hr).
    exists d. now rewrite Hreads. }
  split; [apply NoDup_filter; now apply walk_NoDup|].
  split; [exact Hreads|]. split; [exact Hread|]. split.
  { unfold extractPath, s1, fsLookup. cbn [fs]. now rewrite fsSet_same. }
  assert (Hret : snd loop = Some tt) by now apply convertFiles_returns.
  split; [exact Hret|].
  assert (Hd : fsIsDir (fs (fst loop)) extractPath = true).
  { unfold loop. now rewrite convertFiles_isDir. }
  unfold fsIsDir in Hd.
  destruct (fsLookup (fs (fst loop)) extractPath) as [[d|es']|] eqn:L;
    try discriminate.
  exists es'. split; [reflexivity|]. split.
  { intros rel. now apply fsReadFile_below. }
  rewrite (@handleConvertPerFile_validated GEMINI_API_KEY req now s projectZip
             targetStack Hkey Hup Hts Htruthy Hzip).
  rewrite guarded_sent, guarded_response, Hrun. cbn [fst snd]. rewrite Hret.
  split; [reflexivity|]. symmetry. apply packedResponse_caught.
Qed.

(** The prompts of a request in per-file mode, after an extraction
    that leaves a well-formed directory [source]. *)
Lemma handleConvertPerFile_sent_exact
    (GEMINI_API_KEY : option jsString) (req : Request) (now : jsString)
    (s : State) (projectZip : UploadedFile) (targetStack : jsString)
    (root : node) (es : list (jsString * node)) :
  truthy GEMINI_API_KEY = true ->
  uploadOf req (js "projectZip") = Some projectZip ->
  body_targetStack req = Some targetStack ->
  truthy (Some targetStack) = true ->
  isZipType (mimetype projectZip) = true ->
  extractAllTo (data projectZip) (fs s (requestDirName now)) = Extracted (Some root) ->
  lookupPath [js "source"] root = Some (Dir es) ->
  wf (Dir es) ->
  sent (fst (handleConvertPerFile GEMINI_API_KEY req now s)) =
    sent s ++ map (fun qc => filePrompt targetStack (basename (fst qc)) (snd qc))
                  (promptSources (fsSet (fs s) (requestDirName now) (Some root))
                     (filter isCodeFile
                        (walk [requestDirName now; js "source"] (Dir es)))).
Proof.
  intros Hkey Hup Hts Htruthy Hzip Hex Hsrc Hwf.
  destruct (@handleConvertPerFile_extracted GEMINI_API_KEY req now s projectZip
              targetStack root es Hkey Hup Hts Htruthy Hzip Hex Hsrc Hwf)
    as (Hnd & _ & Hread & _ & _ & es' & _ & _ & Hsent & _).
  rewrite Hsent.
  now rewrite (@convertFiles_sent_exact targetStack _
                 (fsSet (fs s) (requestDirName now) (Some root)) _ Hnd).
Qed.

(** X12. The prompts of per-file mode. For a request that passed the
    checks and whose archive was extracted to a directory [source] that
    lists each name once, the prompts sent are one for each file of
    the filtered walk whose content is not blank, in the order of the
    walk, each made of the name of the file and of the content that
    the file was extracted with, whatever the model replies to the
    prompts before it: the number of calls is the number of these
    files. *)
Theorem per_file_prompts_are_one_per_code_file
    (GEMINI_API_KEY : option jsString) (req : Request) (now : jsString)
    (s : State) (projectZip : UploadedFile) (targetStack : jsString)
    (root : node) (es : list (jsString * node)) :
  truthy GEMINI_API_KEY = true ->
  uploadOf req (js "projectZip") = Some projectZip ->
  body_targetStack req = Some targetStack ->
  truthy (Some targetStack) = true ->
  isZipType (mimetype projectZip) = true ->
  extractAllTo (data projectZip) (fs s (requestDirName now)) = Extracted (Some root) ->
  lookupPath [js "source"] root = Some (Dir es) ->
  wf (Dir es) ->
  let extractPath := [requestDirName now; js "source"] in
  let sources :=
    promptSources (fsSet (fs s) (requestDirName now) (Some root))
      (filter isCodeFile (walk extractPath (Dir es))) in
  sent (fst (handleConvertPerFile GEMINI_API_KEY req now s)) =
    sent s ++ map (fun qc => filePrompt targetStack (basename (fst qc)) (snd qc))
                  sources /\
  length (sent (fst (handleConvertPerFile GEMINI_API_KEY req now s))) =
    length (sent s) + length sources.
Proof.
  intros Hkey Hup Hts Htruthy Hzip Hex Hsrc Hwf extractPath sources.
  pose proof (@handleConvertPerFile_sent_exact GEMINI_API_KEY req now s projectZip
                targetStack root es Hkey Hup Hts Htruthy Hzip Hex Hsrc Hwf) as E.
  fold extractPath sources in E.
  split; [exact E|]. now rewrite E, length_app, length_map.
Qed.

(** X13. Per-file mode, for a file that the model converts. Take a
    file of the filtered walk whose content is not blank, and a model
    that answers its prompt, sent after the prompts of the files before
    it, with [text]. For a request that passed the checks and whose
    archive was extracted to a directory [source] that lists each name
    once, the directory that is packed holds the file under its path
    with the parsed reply, encoded, in place of its content: the file
    keeps its name, whatever the target stack. The response is the
    buffer that the archive library returns for that directory, or the
    server error when the library or [res.set] throws. *)
Theorem per_file_success_replaces_the_content
    (GEMINI_API_KEY : option jsString) (req : Request) (now : jsString)
    (s : State) (projectZip : UploadedFile) (targetStack : jsString)
    (root : node) (es : list (jsString * node))
    (rel : fsPath) (bytes : Buffer) (text : jsString)
    (before after : list fsPath) :
  truthy GEMINI_API_KEY = true ->
  uploadOf req (js "projectZip") = Some projectZip ->
  body_targetStack req = Some targetStack ->
  truthy (Some targetStack) = true ->
  isZipType (mimetype projectZip) = true ->
  extractAllTo (data projectZip) (fs s (requestDirName now)) = Extracted (Some root) ->
  lookupPath [js "source"] root = Some (Dir es) ->
  wf (Dir es) ->
  readPath rel (Dir es) = Some bytes ->
  trim (utf8_decode bytes) <> [] ->
  let extractPath := [requestDirName now; js "source"] in
  let s1 := mkSt (fsSet (fs s) (requestDirName now) (Some root)) (sent s) in
  let codeFiles := filter isCodeFile (walk extractPath (Dir es)) in
  codeFiles = before ++ (extractPath ++ rel) :: after ->
  generateContent
    (sent s ++ map (fun qc => filePrompt targetStack (basename (fst qc)) (snd qc))
                   (promptSources (fs s1) before))
    (filePrompt targetStack (basename rel) (utf8_decode bytes)) = ModelText text ->
  exists es',
    fsLookup (fs (fst (convertFiles targetStack codeFiles s1))) extractPath
    = Some (Dir es') /\
    readPath rel (Dir es') = Some (utf8_encode (parseCodeFromResponse text)) /\
    snd (handleConvertPerFile GEMINI_API_KEY req now s)
    = packedResponse projectZip (zipOfFolder es').
Proof.
  intros Hkey Hup Hts Htruthy Hzip Hex Hsrc Hwf Hread Hne extractPath s1 codeFiles
    Hsplit Hreply.
  destruct (@handleConvertPerFile_extracted GEMINI_API_KEY req now s projectZip
              targetStack root es Hkey Hup Hts Htruthy Hzip Hex Hsrc Hwf)
    as (Hnd & Hreads & Hreadable & _ & _ & es' & L & Hreads' & _ & Hresp).
  fold extractPath s1 codeFiles in Hnd, Hreads, Hreadable, L, Hreads'.
  exists es'. split; [exact L|]. split; [|exact Hresp].
  assert (Hrel : rel <> []) by (intros ->; discriminate).
  rewrite <- Hreads'. rewrite Hsplit in *.
  assert (Hp : fsReadFile (fs s1) (extractPath ++ rel) = Some bytes)
    by now rewrite Hreads.
  destruct (@convertFiles_at targetStack before (extractPath ++ rel) after s1 bytes
              Hnd Hreadable Hp Hne) as (Hpb & Hs & E).
  etransitivity; [exact E|].
  apply afterFile_converted with (b := bytes); [exact Hpb|].
  rewrite Hs, (basename_app extractPath Hrel). exact Hreply.
Qed.

(** X14. Per-file mode, for a file below a directory named
    [node_modules] or [.git]. The walk does not reach it, so that it is
    never sent to the model, but the whole directory [source] is
    packed: for a request that passed the checks and whose archive was
    extracted to a directory [source] that lists each name once, the
    directory that is packed holds the file with the bytes it was
    extracted with. The response is the buffer that the archive library
    returns for that directory, or the server error when the library or
    [res.set] throws. *)
Theorem per_file_skipped_directories_are_returned
    (GEMINI_API_KEY : option jsString) (req : Request) (now : jsString)
    (s : State) (projectZip : UploadedFile) (targetStack : jsString)
    (root : node) (es : list (jsString * node))
    (rel : fsPath) (bytes : Buffer) :
  truthy GEMINI_API_KEY = true ->
  uploadOf req (js "projectZip") = Some projectZip ->
  body_targetStack req = Some targetStack ->
  truthy (Some targetStack) = true ->
  isZipType (mimetype projectZip) = true ->
  extractAllTo (data projectZip) (fs s (requestDirName now)) = Extracted (Some root) ->
  lookupPath [js "source"] root = Some (Dir es) ->
  wf (Dir es) ->
  readPath rel (Dir es) = Some bytes ->
  existsb skippedDirectory (removelast rel) = true ->
  let extractPath := [requestDirName now; js "source"] in
  let s1 := mkSt (fsSet (fs s) (requestDirName now) (Some root)) (sent s) in
  let codeFiles := filter isCodeFile (walk extractPath (Dir es)) in
  ~ In (extractPath ++ rel) (walk extractPath (Dir es)) /\
  exists es',
    fsLookup (fs (fst (convertFiles targetStack codeFiles s1))) extractPath
    = Some (Dir es') /\
    readPath rel (Dir es') = Some bytes /\
    snd (handleConvertPerFile GEMINI_API_KEY req now s)
    = packedResponse projectZip (zipOfFolder es').
Proof.
  intros Hkey Hup Hts Htruthy Hzip Hex Hsrc Hwf Hread Hskip extractPath s1 codeFiles.
  assert (Hnot : ~ In (extractPath ++ rel) (walk extractPath (Dir es))).
  { intros Hin.
    destruct (walk_no_skipped (Dir es) _ _ Hin) as (rel' & E & _ & Hall).
    apply app_inv_head in E. subst rel'.
    apply existsb_exists in Hskip as (seg & Hseg & Hs).
    rewrite Forall_forall in Hall. rewrite (Hall seg Hseg) in Hs. discriminate. }
  split; [exact Hnot|].
  destruct (@handleConvertPerFile_extracted GEMINI_API_KEY req now s projectZip
              targetStack root es Hkey Hup Hts Htruthy Hzip Hex Hsrc Hwf)
    as (_ & Hreads & _ & _ & _ & es' & L & Hreads' & _ & Hresp).
  fold extractPath s1 codeFiles in Hreads, L, Hreads'.
  exists es'. split; [exact L|]. split; [|exact Hresp].
  rewrite <- Hreads'. rewrite convertFiles_frame; [now rewrite Hreads|].
  intros Hin. apply filter_In in Hin as [Hin _]. contradiction.
Qed.

(** X15. Per-file mode, for a file whose content is blank, that is,
    empty once trimmed. The loop passes over it: for a request that
    passed the checks and whose archive was extracted to a directory
    [source] that lists each name once, the prompts sent are those of
    the files of the filtered walk that are not blank, the file is not
    one of them, and the directory that is packed holds it with the
    bytes it was extracted with. *)
Theorem per_file_blank_files_are_passed_over
    (GEMINI_API_KEY : option jsString) (req : Request) (now : jsString)
    (s : State) (projectZip : UploadedFile) (targetStack : jsString)
    (root : node) (es : list (jsString * node))
    (rel : fsPath) (bytes : Buffer) :
  truthy GEMINI_API_KEY = true ->
  uploadOf req (js "projectZip") = Some projectZip ->
  body_targetStack req = Some targetStack ->
  truthy (Some targetStack) = true ->
  isZipType (mimetype projectZip) = true ->
  extractAllTo (data projectZip) (fs s (requestDirName now)) = Extracted (Some root) ->
  lookupPath [js "source"] root = Some (Dir es) ->
  wf (Dir es) ->
  readPath rel (Dir es) = Some bytes ->
  trim (utf8_decode bytes) = [] ->
  let extractPath := [requestDirName now; js "source"] in
  let s1 := mkSt (fsSet (fs s) (requestDirName now) (Some root)) (sent s) in
  let codeFiles := filter isCodeFile (walk extractPath (Dir es)) in
  let sources := promptSources (fs s1) codeFiles in
  sent (fst (handleConvertPerFile GEMINI_API_KEY req now s)) =
    sent s ++ map (fun qc => filePrompt targetStack (basename (fst qc)) (snd qc))
                  sources /\
  ~ In (extractPath ++ rel) (map fst sources) /\
  exists es',
    fsLookup (fs (fst (convertFiles targetStack codeFiles s1))) extractPath
    = Some (Dir es') /\
    readPath rel (Dir es') = Some bytes /\
    snd (handleConvertPerFile GEMINI_API_KEY req now s)
    = packedResponse projectZip (zipOfFolder es').
Proof.
  intros Hkey Hup Hts Htruthy Hzip Hex Hsrc Hwf Hread Hblank extractPath s1 codeFiles
    sources.
  destruct (@handleConvertPerFile_extracted GEMINI_API_KEY req now s projectZip
              targetStack root es Hkey Hup Hts Htruthy Hzip Hex Hsrc Hwf)
    as (_ & Hreads & _ & _ & _ & es' & L & Hreads' & _ & Hresp).
  fold extractPath s1 codeFiles in Hreads, L, Hreads'.
  split; [|split].
  - exact (@handleConvertPerFile_sent_exact GEMINI_API_KEY req now s projectZip
             targetStack root es Hkey Hup Hts Htruthy Hzip Hex Hsrc Hwf).
  - intros Hin. apply in_map_iff in Hin as ([q c] & E & Hq). cbn [fst] in E. subst q.
    apply promptSources_In in Hq as (_ & b & R & -> & T).
    rewrite Hreads, Hread in R. injection R as <-. congruence.
  - exists es'. split; [exact L|]. split; [|exact Hresp].
    rewrite <- Hreads'. apply convertFiles_blank; [|exact Hblank]. now rewrite Hreads.
Qed.

(** X16. Per-file mode keeps the layout of the project. For a request
    that passed the checks and whose archive was extracted to a
    directory [source] that lists each name once, the directory that
    is packed holds files under exactly the paths of the extracted
    directory, the files below [node_modules] and [.git] included, in
    the order of the listings: the conversion adds, removes and renames
    no file, whatever the model replies. *)
Theorem per_file_archive_keeps_the_paths
    (GEMINI_API_KEY : option jsString) (req : Request) (now : jsString)
    (s : State) (projectZip : UploadedFile) (targetStack : jsString)
    (root : node) (es : list (jsString * node)) :
  truthy GEMINI_API_KEY = true ->
  uploadOf req (js "projectZip") = Some projectZip ->
  body_targetStack req = Some targetStack ->
  truthy (Some targetStack) = true ->
  isZipType (mimetype projectZip) = true ->
  extractAllTo (data projectZip) (fs s (requestDirName now)) = Extracted (Some root) ->
  lookupPath [js "source"] root = Some (Dir es) ->
  wf (Dir es) ->
  let extractPath := [requestDirName now; js "source"] in
  let s1 := mkSt (fsSet (fs s) (requestDirName now) (Some root)) (sent s) in
  let codeFiles := filter isCodeFile (walk extractPath (Dir es)) in
  exists es',
    fsLookup (fs (fst (convertFiles targetStack codeFiles s1))) extractPath
    = Some (Dir es') /\
    filePaths (Dir es') = filePaths (Dir es) /\
    snd (handleConvertPerFile GEMINI_API_KEY req now s)
    = packedResponse projectZip (zipOfFolder es').
Proof.
  intros Hkey Hup Hts Htruthy Hzip Hex Hsrc Hwf extractPath s1 codeFiles.
  destruct (@handleConvertPerFile_extracted GEMINI_API_KEY req now s projectZip
              targetStack root es Hkey Hup Hts Htruthy Hzip Hex Hsrc Hwf)
    as (_ & _ & _ & Hlook & _ & es' & L & _ & _ & Hresp).
  fold extractPath s1 codeFiles in Hlook, L.
  exists es'. split; [exact L|]. split; [|exact Hresp].
  pose proof (convertFiles_filePaths targetStack codeFiles s1 extractPath) as Hpaths.
  rewrite L, Hlook in Hpaths. cbn [option_map] in Hpaths. now injection Hpaths.
Qed.

(** **** The claims about per-file mode *)



(** **** What a request leaves alone *)

Lemma fsWriteFile_elsewhere (w w' : World) (n : jsString) (p : fsPath)
    (content : Buffer) (m : jsString) :
  fsWriteFile w (n :: p) content = Some w' -> m <> n -> w' m = w m.
Proof.
  unfold fsWriteFile. destruct (w n) as [t|]; [|discriminate].
  destruct (writePath p content t) as [t'|]; [|discriminate].
  intros H Hm. injection H as <-. now apply fsSet_other.
Qed.

Lemma convertFiles_elsewhere (targetStack : jsString) (codeFiles : list fsPath)
    (s : State) (n m : jsString) :
  (forall q, In q codeFiles -> exists q', q = n :: q') ->
  m <> n ->
  fs (fst (convertFiles targetStack codeFiles s)) m = fs s m.
Proof.
  intros Hall Hm. revert s; induction codeFiles as [|f more IH]; intros s;
    [reflexivity|].
  rewrite convertFiles_cons.
  destruct (fsReadFile (fs s) f) as [b|]; [|reflexivity].
  assert (Hmore : forall q, In q more -> exists q', q = n :: q').
  { intros q Hq. apply Hall. now right. }
  destruct (trim (utf8_decode b)) as [|c t]; [now apply IH|].
  rewrite (IH Hmore). unfold afterFile.
  destruct (generateContent _ _); [reflexivity|].
  destruct (fsWriteFile _ _ _) eqn:W; [|reflexivity]. cbn [fs].
  destruct (Hall f (or_introl eq_refl)) as [q' ->].
  eapply fsWriteFile_elsewhere; eassumption.
Qed.

Lemma getAllFilePaths_below (w : World) (n : jsString) (dir : fsPath)
    (paths : list fsPath) :
  getAllFilePaths w (n :: dir) = Some paths ->
  forall q, In q paths -> exists q', q = n :: q'.
Proof.
  unfold getAllFilePaths.
  destruct (fsLookup w (n :: dir)) as [[d|es]|]; try discriminate.
  intros H q Hq. injection H as <-.
  destruct (walk_no_skipped (Dir es) (n :: dir) q Hq) as (rel & -> & _).
  now exists (dir ++ rel).
Qed.

Lemma convertWholeProject_elsewhere (projectZip : UploadedFile)
    (targetStack requestTempDir : jsString) (s : State) (m : jsString) :
  m <> requestTempDir ->
  fs (fst (convertWholeProject projectZip targetStack requestTempDir s)) m = fs s m.
Proof.
  intros Hm. unfold convertWholeProject. unfold bind at 1, extractProject.
  assert (Hset : forall after, fsSet (fs s) requestTempDir after m = fs s m).
  { intros after. now apply fsSet_other. }
  destruct (extractAllTo _ _) as [after|after]; [cbn [fst fs]; apply Hset|].
  set (s1 := mkSt (fsSet (fs s) requestTempDir after) (sent s)).
  unfold bind at 1, liftOption.
  destruct (getAllFilePaths (fs s1) _) as [allFiles|]; [|cbn [fst fs]; apply Hset].
  unfold bind at 1.
  destruct (readProjectContext_run [requestTempDir; js "source"]
              (filter isCodeFile allFiles) [] s1) as [Hs _].
  destruct (readProjectContext _ _ _ s1) as [s2 [ctx|]]; cbn [fst] in Hs; subst s2;
    [|cbn [fst fs]; apply Hset].
  unfold bind at 1, generate. cbn [fs sent].
  destruct (generateContent _ _) as [|text]; [cbn [fst fs]; apply Hset|].
  destruct (parseAIResponse text); [cbn [fst fs]; apply Hset|].
  unfold bind, zipConvertedFiles, sendZip, ret, throw.
  destruct (zipOfFiles _); [cbn [fst fs]; apply Hset|].
  destruct (validHeaderValue _); cbn [fst fs]; apply Hset.
Qed.

Lemma convertPerFile_elsewhere (projectZip : UploadedFile)
    (targetStack requestTempDir : jsString) (s : State) (m : jsString) :
  m <> requestTempDir ->
  fs (fst (convertPerFile projectZip targetStack requestTempDir s)) m = fs s m.
Proof.
  intros Hm. unfold convertPerFile. unfold bind at 1, extractProject.
  assert (Hset : forall after, fsSet (fs s) requestTempDir after m = fs s m).
  { intros after. now apply fsSet_other. }
  destruct (extractAllTo _ _) as [after|after]; [cbn [fst fs]; apply Hset|].
  set (s1 := mkSt (fsSet (fs s) requestTempDir after) (sent s)).
  unfold bind at 1, liftOption.
  destruct (getAllFilePaths (fs s1) _) as [allFiles|] eqn:Hpaths;
    [|cbn [fst fs]; apply Hset].
  unfold bind at 1.
  assert (Hloop : fs (fst (convertFiles targetStack (filter isCodeFile allFiles) s1)) m
                  = fs s m).
  { rewrite (@convertFiles_elsewhere targetStack _ s1 requestTempDir m);
      [apply Hset| |exact Hm].
    intros q Hq. apply filter_In in Hq as [Hq _].
    eapply getAllFilePaths_below; eassumption. }
  destruct (convertFiles _ _ s1) as [s2 [[]|]]; cbn [fst] in *; [|exact Hloop].
  unfold bind, addLocalFolder, sendZip, ret, throw.
  destruct (fsLookup (fs s2) _) as [[d|listing]|]; try exact Hloop.
  destruct (zipOfFolder listing); [exact Hloop|].
  now destruct (validHeaderValue _).
Qed.

Lemma guarded_elsewhere (body : M Response) (requestTempDir : jsString) (s : State)
    (m : jsString) :
  m <> requestTempDir ->
  fs (fst (guarded body requestTempDir s)) m = fs (fst (body s)) m.
Proof.
  intros Hm. unfold guarded. destruct (body s) as [s1 r].
  destruct (existsSync (fs s1) requestTempDir); [|reflexivity].
  cbn [fst fs]. unfold rmSync. now apply fsSet_other.
Qed.

(** X17. A request touches only its own directory. Whatever the
    request, the key, the archive and the model, what the temporary
    directory holds under every name other than the directory of the
    request is after the request what it was before: neither the
    files written in per-file mode, which are files of the walk, nor
    the removal in [finally] reaches the directory of another request.
    The archive library is taken to extract below the directory that
    it is given. *)
Theorem request_touches_only_its_directory (GEMINI_API_KEY : option jsString)
    (req : Request) (now : jsString) (s : State) (other : jsString) :
  other <> requestDirName now ->
  fs (fst (handleConvertWholeProject GEMINI_API_KEY req now s)) other = fs s other /\
  fs (fst (handleConvertPerFile GEMINI_API_KEY req now s)) other = fs s other.
Proof.
  intros Hother. unfold handleConvertWholeProject, handleConvertPerFile.
  destruct (truthy GEMINI_API_KEY); cbn [negb]; [|now split].
  split.
  - destruct (uploadOf req (js "sourceCode")) as [zip|]; [|reflexivity].
    destruct (truthy (body_targetStack req)); cbn [negb]; [|reflexivity].
    rewrite guarded_elsewhere by exact Hother.
    now apply convertWholeProject_elsewhere.
  - destruct (uploadOf req (js "projectZip")) as [zip|]; [|reflexivity].
    destruct (truthy (body_targetStack req)); cbn [negb]; [|reflexivity].
    destruct (isZipType (mimetype zip)); cbn [negb]; [|reflexivity].
    rewrite guarded_elsewhere by exact Hother.
    now apply convertPerFile_elsewhere.
Qed.

(** **** The responses *)

Lemma convertPerFile_response (projectZip : UploadedFile)
    (targetStack requestTempDir : jsString) (s : State) (response : Response) :
  snd (convertPerFile projectZip targetStack requestTempDir s) = Some response ->
  exists (listing : list (jsString * node)) (outputZipBuffer : Buffer),
    zipOfFolder listing = Zipped outputZipBuffer /\
    validHeaderValue (contentDispositionOf projectZip) = true /\
    response = SendZip (contentDispositionOf projectZip) outputZipBuffer.
Proof.
  unfold convertPerFile. unfold bind at 1, extractProject.
  destruct (extractAllTo _ _) as [after|after]; [discriminate|].
  unfold bind at 1, liftOption.
  destruct (getAllFilePaths _ _) as [allFiles|]; [|discriminate].
  unfold bind at 1.
  destruct (convertFiles _ _ _) as [s2 [[]|]]; [|discriminate].
  unfold bind, addLocalFolder, sendZip, ret, throw.
  destruct (fsLookup (fs s2) _) as [[d|listing]|]; try discriminate.
  destruct (zipOfFolder listing) as [|outputZipBuffer] eqn:Z; [discriminate|].
  destruct (validHeaderValue _) eqn:V; [|discriminate].
  intros H. injection H as <-. now exists listing, outputZipBuffer.
Qed.

(** X18. The responses of the two handlers. In whole-project mode a
    request is answered with one of five JSON errors (status 500 for
    the missing key, 400 for the missing upload, 400 for the missing
    target stack, 500 for a reply without a block, 500 for a server
    error) or with an archive named after the upload, and such an
    archive is never empty: it is the buffer that the archive library
    returns once at least one file was added, under a name that a
    header can carry. In per-file mode it is answered with one of
    five JSON errors (the missing key, the missing upload, the missing
    target stack, the type of the upload, a server error) or with an
    archive named after the upload, the buffer that the library
    returns for a directory; there is no response for a reply that
    cannot be parsed. No other status than 400 and 500 comes with an
    error. *)
Theorem responses_of_the_handlers (GEMINI_API_KEY : option jsString)
    (req : Request) (now : jsString) (s : State) :
  (snd (handleConvertWholeProject GEMINI_API_KEY req now s) = Json 500 MSG_NO_KEY \/
   snd (handleConvertWholeProject GEMINI_API_KEY req now s)
     = Json 400 (MSG_NO_UPLOAD (js "sourceCode")) \/
   snd (handleConvertWholeProject GEMINI_API_KEY req now s) = Json 400 MSG_NO_TARGET \/
   snd (handleConvertWholeProject GEMINI_API_KEY req now s) = Json 500 MSG_UNPARSABLE \/
   snd (handleConvertWholeProject GEMINI_API_KEY req now s) = Json 500 MSG_SERVER_ERROR \/
   exists (projectZip : UploadedFile) (added : list (jsString * Buffer))
          (outputZipBuffer : Buffer),
     uploadOf req (js "sourceCode") = Some projectZip /\
     added <> [] /\
     zipOfFiles added = Zipped outputZipBuffer /\
     validHeaderValue (contentDispositionOf projectZip) = true /\
     snd (handleConvertWholeProject GEMINI_API_KEY req now s)
       = SendZip (contentDispositionOf projectZip) outputZipBuffer) /\
  (snd (handleConvertPerFile GEMINI_API_KEY req now s) = Json 500 MSG_NO_KEY \/
   snd (handleConvertPerFile GEMINI_API_KEY req now s)
     = Json 400 (MSG_NO_UPLOAD (js "projectZip")) \/
   snd (handleConvertPerFile GEMINI_API_KEY req now s) = Json 400 MSG_NO_TARGET \/
   (exists projectZip : UploadedFile,
      uploadOf req (js "projectZip") = Some projectZip /\
      snd (handleConvertPerFile GEMINI_API_KEY req now s)
        = Json 400 (MSG_BAD_TYPE (mimetype projectZip))) \/
   snd (handleConvertPerFile GEMINI_API_KEY req now s) = Json 500 MSG_SERVER_ERROR \/
   exists (projectZip : UploadedFile) (listing : list (jsString * node))
          (outputZipBuffer : Buffer),
     uploadOf req (js "projectZip") = Some projectZip /\
     zipOfFolder listing = Zipped outputZipBuffer /\
     validHeaderValue (contentDispositionOf projectZip) = true /\
     snd (handleConvertPerFile GEMINI_API_KEY req now s)
       = SendZip (contentDispositionOf projectZip) outputZipBuffer).
Proof.
  unfold handleConvertWholeProject, handleConvertPerFile.
  destruct (truthy GEMINI_API_KEY); cbn [negb]; [|split; now left].
  split.
  - destruct (uploadOf req (js "sourceCode")) as [zip|]; [|right; now left].
    destruct (truthy (body_targetStack req)); cbn [negb]; [|right; right; now left].
    rewrite guarded_response.
    destruct (convertWholeProject_run zip
                (match body_targetStack req with Some t => t | None => [] end)
                (requestDirName now) s)
      as [[_ ->]|(sources & prompt & _ & _ & _ & ->)];
      [right; right; right; right; now left|].
    destruct (generateContent (sent s) prompt) as [|text];
      [right; right; right; right; now left|].
    unfold answerTo. destruct (parseAIResponse text) as [|f more];
      [right; right; right; now left|].
    unfold packedResponse.
    destruct (zipOfFiles _) as [|outputZipBuffer] eqn:Z;
      [right; right; right; right; now left|].
    destruct (validHeaderValue _) eqn:V;
      [|right; right; right; right; now left].
    right; right; right; right; right. exists zip. eexists. exists outputZipBuffer.
    split; [reflexivity|]. split; [|split; [exact Z|split; [exact V|reflexivity]]].
    discriminate.
  - destruct (uploadOf req (js "projectZip")) as [zip|]; [|right; now left].
    destruct (truthy (body_targetStack req)); cbn [negb]; [|right; right; now left].
    destruct (isZipType (mimetype zip)); cbn [negb];
      [|right; right; right; left; now exists zip].
    rewrite guarded_response.
    destruct (snd (convertPerFile zip _ (requestDirName now) s)) as [response|] eqn:R;
      [|right; right; right; right; now left].
    apply convertPerFile_response in R as (listing & outputZipBuffer & Z & V & ->).
    right; right; right; right; right. now exists zip, listing, outputZipBuffer.
Qed.

(** **** The test client *)

(** X19. The request of the test client [testAPI.js], which uploads
    its archive under the field [sourceCode], is a request for the
    whole-project variant only. With an API key configured, the
    per-file variant, which reads the field [projectZip], answers it
    with status 400 and the message of the missing upload, whatever the
    archive, and leaves the state as it was; the whole-project variant
    passes it through its checks to the conversion with the target
    stack [Vue], so that it is never answered with status 400. *)
Theorem test_client_request_is_for_whole_project_mode
    (GEMINI_API_KEY : option jsString) (testZipBuffer : Buffer)
    (contentType now : jsString) (s : State) :
  truthy GEMINI_API_KEY = true ->
  handleConvertPerFile GEMINI_API_KEY (runTest_request testZipBuffer contentType) now s
  = (s, Json 400 (MSG_NO_UPLOAD (js "projectZip"))) /\
  handleConvertWholeProject GEMINI_API_KEY (runTest_request testZipBuffer contentType) now s
  = guarded
      (convertWholeProject
         (mkUpload testZipBuffer (js "test-project.zip") contentType)
         (js "Vue") (requestDirName now))
      (requestDirName now) s /\
  forall message,
    snd (handleConvertWholeProject GEMINI_API_KEY
           (runTest_request testZipBuffer contentType) now s) <> Json 400 message.
Proof.
  intros Hkey.
  assert (Hwhole :
    handleConvertWholeProject GEMINI_API_KEY (runTest_request testZipBuffer contentType)
      now s
    = guarded
        (convertWholeProject
           (mkUpload testZipBuffer (js "test-project.zip") contentType)
           (js "Vue") (requestDirName now))
        (requestDirName now) s).
  { unfold handleConvertWholeProject. now rewrite Hkey. }
  split; [|split; [exact Hwhole|]].
  - unfold handleConvertPerFile. now rewrite Hkey.
  - intros message. rewrite Hwhole, guarded_response.
    destruct (convertWholeProject_run
                (mkUpload testZipBuffer (js "test-project.zip") contentType)
                (js "Vue") (requestDirName now) s)
      as [[_ ->]|(sources & prompt & _ & _ & _ & ->)]; [discriminate|].
    destruct (generateContent (sent s) prompt) as [|text]; [discriminate|].
    unfold answerTo. destruct (parseAIResponse text); [discriminate|].
    unfold packedResponse. destruct (zipOfFiles _); [discriminate|].
    now destruct (validHeaderValue _).
Qed.

End ServerProperties.

(* ================================================================== *)
(** ** The claims about the parsers *)
(* ================================================================== *)

(** *** Blocks, in the words of the specification *)




Lemma occursInb_false (l s : jsString) :
  occursInb l s = false -> ~ occursIn l s.
Proof.
  unfold occursInb. destruct (findFirst (stripPrefix l) s) eqn:F; [discriminate|].
  intros _ (a & b & ->).
  pose proof (@findFirst_None _ _ _ F a (l ++ b) eq_refl) as H.
  now rewrite stripPrefix_app in H.
Qed.

Lemma cleanBlockb_clean (bf : Block * jsString) :
  cleanBlockb bf = true -> cleanBlock bf.
Proof.
  unfold cleanBlockb, cleanBlock, validPath. intros H.
  apply andb_true_iff in H as [H H4]. apply andb_true_iff in H as [H H3].
  apply andb_true_iff in H as [H1 H2].
  apply negb_true_iff in H1, H3, H4.
  repeat split; trivial.
  - intros E. now rewrite E in H1.
  - now apply occursInb_false.
  - now apply occursInb_false.
Qed.

(** C1, as the code has it. For a response text made of N blocks, each
    with a path that is a non-empty run of characters other than white
    space and a content without the end marker of its own path, after
    and between texts without a start marker, [parseAIResponse] returns
    exactly N files, in the order of the blocks: the paths are the
    paths of the blocks, and each content is the content of the block
    without its fence and trimmed. The paths need not be distinct. *)
Theorem parseAIResponse_clean_blocks (before : jsString)
    (blocks : list (Block * jsString)) :
  occursInb START_FILE before = false ->
  forallb cleanBlockb blocks = true ->
  parseAIResponse (before ++ renderBlocks blocks)
    = map (fun bf => fileOfBlock (fst bf)) blocks /\
  length (parseAIResponse (before ++ renderBlocks blocks)) = length blocks /\
  map path (parseAIResponse (before ++ renderBlocks blocks))
    = map (fun bf => blockPath (fst bf)) blocks.
Proof.
  intros Hbefore Hblocks.
  assert (E : parseAIResponse (before ++ renderBlocks blocks)
              = map (fun bf => fileOfBlock (fst bf)) blocks).
  { apply parseAIResponse_blocksOf, blocksOf_renderBlocks.
    - now apply occursInb_false.
    - rewrite forallb_forall in Hblocks. apply Forall_forall.
      intros bf Hin. now apply cleanBlockb_clean, Hblocks. }
  rewrite E. split; [reflexivity|]. split.
  - apply length_map.
  - rewrite map_map. reflexivity.
Qed.

(** C3, as the code has it. The content of a block is trimmed in both
    cases: when the captured content is [inner] wrapped in a fence, the
    returned content is [inner] trimmed; when the captured content is
    not wrapped in a fence, it is the captured content trimmed. *)
Theorem blockContent_fenced_or_trimmed (captured : jsString) :
  (forall inner, fenced captured inner -> blockContent captured = trim inner) /\
  ((forall inner, ~ fenced captured inner) -> blockContent captured = trim captured).
Proof.
  rewrite blockContent_eq. split.
  - intros inner H. now rewrite (fenceBody_fenced H).
  - intros H. destruct (fenceBody captured) as [inner|] eqn:E; [|reflexivity].
    now apply fenceBody_Some, H in E.
Qed.

Lemma blocksOf_paths (r : jsString) (files : list ConvertedFile) :
  blocksOf r files -> forall file, In file files -> validPath (path file).
Proof.
  induction 1 as [r F|r a b p c x files F _ IH]; intros file Hin; [easy|].
  destruct Hin as [<-|Hin]; [|now apply IH].
  apply findFirst_Some in F as (_ & Hb & _).
  now apply fileBlockAt_Some in Hb as (_ & Hp & _).
Qed.

Lemma skipn_app_length (A : Type) (u v : list A) (n : nat) :
  n = length u -> skipn n (u ++ v) = v.
Proof. intros ->. apply skipn_length_app. Qed.

(** C10. Every path that [parseAIResponse] returns is a non-empty run
    of characters that are not white space. Where the text has a start
    marker followed by a path that holds white space on its line (white
    space other than the line feed that ends the line), the pattern
    does not match at the marker, and no match that [exec] reports
    starts there: the block produces no entry. *)
Theorem parsed_paths_have_no_white_space (text : jsString) :
  (forall file, In file (parseAIResponse text) ->
     path file <> [] /\ forallb notSpace (path file) = true) /\
  (forall pre p rest,
     text = pre ++ START_FILE ++ p ++ rest ->
     existsb isSpace p = true ->
     existsb (N.eqb LF) p = false ->
     matchAt fileRegex (START_FILE ++ p ++ rest) (length pre) = None /\
     forall lastIndex index m,
       exec fileRegex text lastIndex = Some (index, m) -> index <> length pre).
Proof.
  split.
  - intros file Hin. apply (@blocksOf_paths text (parseAIResponse text)); trivial.
    now apply parseAIResponse_blocksOf.
  - intros pre p rest -> Hsp Hlf.
    assert (Hnone : forall i, matchAt fileRegex (START_FILE ++ p ++ rest) i = None).
    { intros i. rewrite matchAt_fileRegex, fileBlockAt_space_in_path; trivial.
      intros Hin. assert (existsb (N.eqb LF) p = true); [|congruence].
      apply existsb_exists. exists LF. split; [exact Hin|apply N.eqb_refl]. }
    split; [apply Hnone|].
    intros lastIndex index m. unfold exec.
    destruct (Nat.ltb_spec (length (pre ++ START_FILE ++ p ++ rest)) lastIndex)
      as [|Hle]; [discriminate|].
    intros H. apply searchFrom_Some in H as (a & b & Hab & -> & Hm & _).
    intros Hidx.
    assert (Hb : b = START_FILE ++ p ++ rest).
    { pose proof (firstn_skipn lastIndex (pre ++ START_FILE ++ p ++ rest)) as Hsplit.
      rewrite Hab, app_assoc in Hsplit.
      apply (f_equal (skipn (length pre))) in Hsplit.
      rewrite skipn_length_app in Hsplit.
      rewrite skipn_app_length in Hsplit; [exact Hsplit|].
      rewrite length_app, length_firstn, Nat.min_l by exact Hle. lia. }
    rewrite Hb, Hnone in Hm. discriminate.
Qed.

Lemma codeGroupAt_Some (r g : jsString) :
  codeGroupAt r = Some g -> g <> [] /\ exists x, r = g ++ FENCE ++ x.
Proof.
  unfold codeGroupAt. destruct r as [|c r]; [discriminate|].
  destruct (findLast (stripPrefix FENCE) r) as [[[a b] x]|] eqn:F; [|discriminate].
  intros H; injection H as <-. split; [discriminate|].
  apply findLast_Some in F as (-> & Hx & _).
  apply stripPrefix_Some in Hx. subst b. now exists x.
Qed.

Lemma codeBlockAt_Some (b g : jsString) :
  codeBlockAt b = Some g -> g <> [] /\ occursIn (g ++ FENCE) b.
Proof.
  unfold codeBlockAt.
  destruct (stripPrefix FENCE b) as [r1|] eqn:E; [|discriminate].
  apply stripPrefix_Some in E. subst b.
  pose proof (takeWhile_dropWhile isWord r1) as Hr1.
  destruct (takeWhile isWord r1) as [|t tag] eqn:Ht.
  - intros H. apply codeGroupAt_Some in H as [Hg [x ->]]. split; [exact Hg|].
    exists FENCE, x. now rewrite <- !app_assoc.
  - destruct (dropWhile isWord r1) as [|d r2] eqn:Hd.
    + intros H. apply codeGroupAt_Some in H as [Hg [x ->]]. split; [exact Hg|].
      exists FENCE, x. now rewrite <- !app_assoc.
    + destruct (N.eqb LF d).
      * destruct (codeGroupAt r2) as [g'|] eqn:G.
        -- intros H; injection H as <-.
           apply codeGroupAt_Some in G as [Hg [x ->]]. split; [exact Hg|].
           exists (FENCE ++ (t :: tag) ++ [d]), x. rewrite <- Hr1.
           rewrite <- !app_assoc. reflexivity.
        -- intros H. apply codeGroupAt_Some in H as [Hg [x ->]]. split; [exact Hg|].
           exists FENCE, x. now rewrite <- !app_assoc.
      * intros H. apply codeGroupAt_Some in H as [Hg [x ->]]. split; [exact Hg|].
        exists FENCE, x. now rewrite <- !app_assoc.
Qed.

Lemma codeBlockAt_in_white_space (a2 b : jsString) :
  forallb isSpace a2 = true -> a2 <> [] -> codeBlockAt (a2 ++ b) = None.
Proof.
  intros Hws Hne. apply codeBlockAt_needs_fence.
  destruct a2 as [|d a2]; [congruence|].
  cbn [forallb] in Hws. apply andb_true_iff in Hws as [Hd _].
  unfold FENCE. cbn [app stripPrefix].
  destruct (N.eqb_spec BACKTICK d) as [<-|]; [discriminate|reflexivity].
Qed.

Lemma codeBlockAt_fenced (tag inner post : jsString) :
  forallb isWord tag = true ->
  forallb isSpace post = true ->
  isEmpty tag || negb (isEmpty inner) = true ->
  exists g, codeBlockAt (FENCE ++ tag ++ LF :: inner ++ FENCE ++ post) = Some g /\
            g <> [] /\ trim g = trim inner.
Proof.
  intros Htag Hpost Hshape. unfold codeBlockAt. rewrite stripPrefix_app.
  destruct (takeWhile_app_stop isWord tag LF (inner ++ FENCE ++ post) Htag eq_refl)
    as [-> ->].
  destruct tag as [|t tag].
  - cbn [app]. rewrite codeGroupAt_to_closing by exact Hpost.
    exists (LF :: inner). split; [reflexivity|]. split; [discriminate|].
    now apply trim_space_cons.
  - rewrite N.eqb_refl.
    destruct inner as [|c inner]; [discriminate|].
    cbn [app]. rewrite codeGroupAt_to_closing by exact Hpost.
    exists (c :: inner). split; [reflexivity|]. split; [discriminate|reflexivity].
Qed.

(** C4, as the code has it. [parseCodeFromResponse] is a function of
    every text: its result is the trimmed text, or the trimmed capture,
    not empty, that ends at a fence of the text. A text without a fence
    gives the text trimmed. A text that is one fenced block, white
    space around it, with a tag of word characters on the opening fence
    and then a line feed, gives the inner text trimmed, provided the
    inner text is not empty or there is no tag. *)
Theorem parseCodeFromResponse_fenced_or_trimmed (text : jsString) :
  (parseCodeFromResponse text = trim text \/
   exists g, g <> [] /\ occursIn (g ++ FENCE) text /\
             parseCodeFromResponse text = trim g) /\
  (occursInb FENCE text = false -> parseCodeFromResponse text = trim text) /\
  (forall pre tag inner post,
     text = pre ++ FENCE ++ tag ++ LF :: inner ++ FENCE ++ post ->
     forallb isSpace pre = true ->
     forallb isWord tag = true ->
     forallb isSpace post = true ->
     isEmpty tag || negb (isEmpty inner) = true ->
     parseCodeFromResponse text = trim inner).
Proof.
  rewrite parseCodeFromResponse_eq. split; [|split].
  - destruct (findFirst codeBlockAt text) as [[[a b] g]|] eqn:F; [|now left].
    destruct g as [|c g]; [now left|]. right.
    apply findFirst_Some in F as (-> & Hb & _).
    apply codeBlockAt_Some in Hb as [Hg (u & v & ->)].
    exists (c :: g). repeat split; trivial.
    exists (a ++ u), v. now rewrite <- !app_assoc.
  - intros H. now rewrite findFirst_codeBlockAt_no_fence by now apply occursInb_false.
  - intros pre tag inner post -> Hpre Htag Hpost Hshape.
    destruct (@codeBlockAt_fenced tag inner post Htag Hpost Hshape)
      as (g & Hg & Hne & Htrim).
    rewrite (@findFirst_intro _ codeBlockAt pre
               (FENCE ++ tag ++ LF :: inner ++ FENCE ++ post) g Hg).
    + destruct g as [|c g]; [congruence|exact Htrim].
    + intros a1 a2 -> Hne2. apply codeBlockAt_in_white_space; [|exact Hne2].
      rewrite forallb_app in Hpre. now apply andb_true_iff in Hpre.
Qed.

(* ================================================================== *)
(** ** Further properties of the parsers *)
(* ================================================================== *)

Lemma blocksOf_sound (r : jsString) (files : list ConvertedFile) :
  blocksOf r files ->
  forall file, In file files ->
    exists pre c post,
      r = pre ++ START_FILE ++ path file ++ LF :: c ++ END_FILE ++ path file ++ post /\
      content file = blockContent c /\
      ~ occursIn (END_FILE ++ path file) c.
Proof.
  induction 1 as [r F|r a b p c x files F _ IH]; intros file Hin; [easy|].
  apply findFirst_Some in F as (-> & Hb & _).
  apply fileBlockAt_Some in Hb as (-> & Hp & Hmin).
  destruct Hin as [<-|Hin].
  - exists a, c, x. cbn [path content]. repeat split; trivial.
    intros (u & v & ->).
    assert (Hne : (END_FILE ++ p) ++ v <> []) by discriminate.
    specialize (Hmin u ((END_FILE ++ p) ++ v) eq_refl Hne).
    rewrite <- app_assoc, stripPrefix_app in Hmin. discriminate.
  - destruct (IH file Hin) as (pre & c' & post & -> & Hc & Hno).
    exists (a ++ START_FILE ++ p ++ LF :: c ++ END_FILE ++ p ++ pre), c', post.
    repeat split; trivial.
    repeat (rewrite <- app_assoc; cbn [app]). reflexivity.
Qed.

(** X1. A block and what follows it. When the text before the block
    holds no start marker, the path of the block is a non-empty run of
    characters other than white space and the content does not hold the
    end marker of the path, the first file returned is the one of the
    block, and the files that follow are those of the text after the
    end marker, whatever that text is: the end marker need not end its
    line, and nothing of the block is read a second time. *)
Theorem parseAIResponse_block_then_rest (before p c rest : jsString) :
  occursInb START_FILE before = false ->
  isEmpty p = false ->
  forallb notSpace p = true ->
  occursInb (END_FILE ++ p) c = false ->
  parseAIResponse (before ++ START_FILE ++ p ++ LF :: c ++ END_FILE ++ p ++ rest) =
  mkFile p (blockContent c) :: parseAIResponse rest.
Proof.
  intros Hbefore Hne Hp Hc.
  assert (Hvalid : validPath p).
  { split; [|exact Hp]. intros ->. discriminate. }
  apply occursInb_false in Hbefore, Hc.
  apply parseAIResponse_blocksOf.
  apply (@blocksOf_step _ before
           (START_FILE ++ p ++ LF :: c ++ END_FILE ++ p ++ rest) p c rest).
  - apply findFirst_intro.
    + apply fileBlockAt_intro; [exact Hvalid|]. now apply content_minimal.
    + apply filler_skipped; [exact Hbefore|]. right. eauto.
  - now apply parseAIResponse_blocksOf.
Qed.

(** X2. Every file that [parseAIResponse] returns comes from a block
    of the text: a start marker with the path of the file, a line feed,
    a content, and the end marker with the same path, the content being
    the shortest one, so that it does not hold the end marker of the
    path. The content of the file is the content of the block without
    its fence and trimmed. A start marker whose path no end marker
    repeats gives no file. *)
Theorem parseAIResponse_files_come_from_blocks (text : jsString)
    (file : ConvertedFile) :
  In file (parseAIResponse text) ->
  exists pre c post,
    text = pre ++ START_FILE ++ path file ++ LF :: c
           ++ END_FILE ++ path file ++ post /\
    content file = blockContent c /\
    ~ occursIn (END_FILE ++ path file) c.
Proof.
  intros Hin. apply (@blocksOf_sound text (parseAIResponse text)); trivial.
  now apply parseAIResponse_blocksOf.
Qed.

Lemma findLast_None (A : Type) (T : jsString -> option A) (r : jsString) :
  (forall a b, r = a ++ b -> T b = None) -> findLast T r = None.
Proof.
  induction r as [|c r IH]; intros H; cbn [findLast].
  - now rewrite (H [] [] eq_refl).
  - rewrite IH.
    + now rewrite (H [] (c :: r) eq_refl).
    + intros a b ->. now apply (H (c :: a) b).
Qed.

Lemma first_failing (P : N -> bool) (l : jsString) :
  forallb P l = false ->
  exists q d l', l = q ++ d :: l' /\ forallb P q = true /\ P d = false.
Proof.
  induction l as [|c l IH]; [discriminate|]. cbn [forallb].
  destruct (P c) eqn:Hc; cbn [andb].
  - intros H. destruct (IH H) as (q & d & l' & -> & Hq & Hd).
    exists (c :: q), d, l'. cbn [forallb app]. now rewrite Hc.
  - intros _. now exists [], c, l.
Qed.

Lemma existsb_eqb_false (c : N) (s : jsString) :
  existsb (N.eqb c) s = false -> ~ In c s.
Proof.
  intros H Hin. assert (existsb (N.eqb c) s = true); [|congruence].
  apply existsb_exists. exists c. split; [exact Hin|apply N.eqb_refl].
Qed.

(** After a fence no further fence starts when no backtick follows. *)
Lemma fence_last_without_backtick (post : jsString) :
  ~ In BACKTICK post ->
  forall b1 b2, FENCE ++ post = b1 ++ b2 -> b1 <> [] -> stripPrefix FENCE b2 = None.
Proof.
  intros Hpost b1 b2 Hb Hne.
  destruct (stripPrefix FENCE b2) as [z|] eqn:E; [|reflexivity].
  exfalso. apply stripPrefix_Some in E. subst b2. apply Hpost.
  destruct b1 as [|d1 b1]; [congruence|].
  unfold FENCE in Hb. cbn [app] in Hb. injection Hb as _ Hb.
  destruct b1 as [|d2 b1]; cbn [app] in Hb.
  - injection Hb as Hb. rewrite Hb. now left.
  - injection Hb as _ Hb. destruct b1 as [|d3 b1]; cbn [app] in Hb.
    + injection Hb as Hb. rewrite Hb. now left.
    + injection Hb as _ Hb. rewrite Hb. apply in_or_app. right. now left.
Qed.

Lemma codeGroupAt_to_last_fence (c : N) (code post : jsString) :
  ~ In BACKTICK post ->
  codeGroupAt (c :: code ++ FENCE ++ post) = Some (c :: code).
Proof.
  intros Hpost. unfold codeGroupAt.
  rewrite (@findLast_intro _ (stripPrefix FENCE) code (FENCE ++ post) post).
  - reflexivity.
  - apply stripPrefix_app.
  - now apply fence_last_without_backtick.
Qed.

Lemma codeGroupAt_only_fence (post : jsString) :
  ~ In BACKTICK post -> codeGroupAt (FENCE ++ post) = None.
Proof.
  intros Hpost. unfold codeGroupAt, FENCE. cbn [app].
  rewrite findLast_None; [reflexivity|].
  intros a b Hab.
  apply (@fence_last_without_backtick post Hpost (BACKTICK :: a) b);
    [|discriminate].
  unfold FENCE. cbn [app]. now rewrite Hab.
Qed.

(** What the pattern captures at the fence of a single block. *)
Lemma codeBlockAt_single (first inner post : jsString) :
  ~ In LF first ->
  ~ In BACKTICK post ->
  codeBlockAt (FENCE ++ first ++ LF :: inner ++ FENCE ++ post) =
  Some (if negb (isEmpty first) && forallb isWord first && negb (isEmpty inner)
        then inner
        else first ++ LF :: inner).
Proof.
  intros Hfirst Hpost. unfold codeBlockAt. rewrite stripPrefix_app.
  assert (Hwhole : forall f0 first',
            codeGroupAt ((f0 :: first') ++ LF :: inner ++ FENCE ++ post)
            = Some ((f0 :: first') ++ LF :: inner)).
  { intros f0 first'.
    replace ((f0 :: first') ++ LF :: inner ++ FENCE ++ post)
      with (f0 :: (first' ++ LF :: inner) ++ FENCE ++ post)
      by (cbn [app]; now rewrite <- app_assoc).
    now rewrite codeGroupAt_to_last_fence. }
  destruct (forallb isWord first) eqn:Hword.
  - destruct (takeWhile_app_stop isWord first LF (inner ++ FENCE ++ post) Hword eq_refl)
      as [-> ->].
    destruct first as [|t tag].
    + cbn [app isEmpty negb andb]. now rewrite codeGroupAt_to_last_fence.
    + rewrite N.eqb_refl. destruct inner as [|c code].
      * cbn [isEmpty negb andb]. rewrite app_nil_l at 1.
        rewrite codeGroupAt_only_fence by exact Hpost. apply Hwhole.
      * cbn [app isEmpty negb andb].
        now rewrite codeGroupAt_to_last_fence.
  - rewrite andb_false_r. cbn [andb].
    destruct (first_failing isWord first Hword) as (q & d & l' & E & Hq & Hd).
    assert (Hlf : N.eqb LF d = false).
    { apply N.eqb_neq. intros <-. apply Hfirst. rewrite E.
      apply in_or_app. right. now left. }
    assert (Hnone :
      match takeWhile isWord (first ++ LF :: inner ++ FENCE ++ post),
            dropWhile isWord (first ++ LF :: inner ++ FENCE ++ post) with
      | _ :: _, d0 :: r2 => if N.eqb LF d0 then codeGroupAt r2 else None
      | _, _ => None
      end = None).
    { rewrite E, <- app_assoc. cbn [app].
      destruct (takeWhile_app_stop isWord q d
                  (l' ++ LF :: inner ++ FENCE ++ post) Hq Hd) as [-> ->].
      rewrite Hlf. now destruct q. }
    rewrite Hnone.
    destruct first as [|f0 first']; [discriminate|]. apply Hwhole.
Qed.

(** X3. A reply with one fenced block and text around it: the text
    before the opening fence and the text after the closing fence, both
    without a backtick, are dropped. When the line of the opening fence
    ends with a tag of word characters and the inner text is not empty,
    the result is the inner text, trimmed, even if the inner text holds
    fences of its own. Otherwise nothing of the first line is removed:
    a tag with another character, such as [c++], stays in the result,
    and so does a tag that is followed by no inner text. *)
Theorem parseCodeFromResponse_single_block (pre first inner post : jsString) :
  existsb (N.eqb BACKTICK) pre = false ->
  existsb (N.eqb LF) first = false ->
  existsb (N.eqb BACKTICK) post = false ->
  parseCodeFromResponse (pre ++ FENCE ++ first ++ LF :: inner ++ FENCE ++ post) =
  if negb (isEmpty first) && forallb isWord first && negb (isEmpty inner)
  then trim inner
  else trim (first ++ LF :: inner).
Proof.
  intros Hpre Hfirst Hpost.
  apply existsb_eqb_false in Hpre, Hfirst, Hpost.
  rewrite parseCodeFromResponse_eq.
  rewrite (@findFirst_intro _ codeBlockAt pre
             (FENCE ++ first ++ LF :: inner ++ FENCE ++ post) _
             (@codeBlockAt_single first inner post Hfirst Hpost)).
  - destruct (negb (isEmpty first) && forallb isWord first && negb (isEmpty inner))
      eqn:Hcase.
    + destruct inner as [|c code]; [|reflexivity].
      rewrite andb_false_r in Hcase. discriminate.
    + destruct first; reflexivity.
  - intros a1 a2 -> Hne. apply codeBlockAt_needs_fence.
    destruct a2 as [|d a2]; [congruence|].
    unfold FENCE. cbn [app stripPrefix].
    destruct (N.eqb_spec BACKTICK d) as [<-|]; [|reflexivity].
    exfalso. apply Hpre. apply in_or_app. right. now left.
Qed.

Lemma split_at_first_failing (P : N -> bool) (a a' : jsString) (x x' : N)
    (r r' : jsString) :
  forallb P a = true -> forallb P a' = true -> P x = false -> P x' = false ->
  a ++ x :: r = a' ++ x' :: r' -> a = a' /\ x = x' /\ r = r'.
Proof.
  revert a'; induction a as [|c a IH]; intros [|c' a'] Ha Ha' Hx Hx' E;
    cbn [app forallb] in *.
  - injection E as -> ->. auto.
  - injection E as -> _. apply andb_true_iff in Ha' as [Hc _]. congruence.
  - injection E as -> _. apply andb_true_iff in Ha as [Hc _]. congruence.
  - injection E as -> E. apply andb_true_iff in Ha as [_ Ha].
    apply andb_true_iff in Ha' as [_ Ha'].
    destruct (IH a' Ha Ha' Hx Hx' E) as (-> & -> & ->). auto.
Qed.

(** X4. When the fence of a block is not removed. The content of a
    block is returned with its fence, only trimmed, in each of these
    cases: the tag on the opening fence holds a character other than a
    lower-case letter, as in [JSON], [es6] or [c++]; the content has a
    character before the opening fence that is neither white space nor
    a backtick; the content ends with a character that is neither white
    space nor a backtick, as when a sentence follows the closing
    fence. *)
Theorem blockContent_keeps_an_unrecognized_fence :
  (forall ws l d rest,
     forallb isSpace ws = true -> forallb isLower l = true ->
     isLower d = false -> N.eqb LF d = false ->
     blockContent (ws ++ FENCE ++ l ++ d :: rest)
     = trim (ws ++ FENCE ++ l ++ d :: rest)) /\
  (forall ws x rest,
     forallb isSpace ws = true -> isSpace x = false -> N.eqb BACKTICK x = false ->
     blockContent (ws ++ x :: rest) = trim (ws ++ x :: rest)) /\
  (forall c z,
     isSpace z = false -> N.eqb BACKTICK z = false ->
     blockContent (c ++ [z]) = trim (c ++ [z])).
Proof.
  split; [|split].
  - intros ws l d rest Hws Hl Hd Hlf. rewrite blockContent_eq.
    destruct (fenceBody _) as [inner|] eqn:E; [exfalso|reflexivity].
    apply fenceBody_Some in E as (ws1 & tag & ws2 & H1 & H2 & _ & E).
    unfold FENCE in E. cbn [app] in E.
    destruct (@split_at_first_failing isSpace ws ws1 BACKTICK BACKTICK _ _
                Hws H1 eq_refl eq_refl E)
      as (_ & _ & E').
    injection E' as E'.
    destruct (@split_at_first_failing isLower l tag d LF _ _ Hl H2 Hd eq_refl E')
      as (_ & -> & _).
    discriminate.
  - intros ws x rest Hws Hx Hb. rewrite blockContent_eq.
    destruct (fenceBody _) as [inner|] eqn:E; [exfalso|reflexivity].
    apply fenceBody_Some in E as (ws1 & tag & ws2 & H1 & _ & _ & E).
    unfold FENCE in E. cbn [app] in E.
    destruct (@split_at_first_failing isSpace ws ws1 x BACKTICK _ _ Hws H1 Hx eq_refl E)
      as (_ & -> & _).
    discriminate.
  - intros c z Hz Hb. rewrite blockContent_eq.
    destruct (fenceBody _) as [inner|] eqn:E; [exfalso|reflexivity].
    apply fenceBody_Some in E as (ws1 & tag & ws2 & _ & _ & H3 & E).
    apply (f_equal (@rev N)) in E.
    rewrite rev_app_distr in E. cbn [rev app] in E.
    repeat (rewrite rev_app_distr in E; cbn [rev app] in E).
    destruct (rev ws2) as [|y r] eqn:R.
    + unfold FENCE in E. cbn [rev app] in E. repeat rewrite <- app_assoc in E.
      cbn [app] in E. injection E as -> _. discriminate.
    + repeat rewrite <- app_assoc in E. cbn [app] in E. injection E as -> _.
      rewrite forallb_forall in H3. rewrite H3 in Hz; [discriminate|].
      apply in_rev. rewrite R. now left.
Qed.

Lemma fileMatchEnd_min (p c : jsString) : p <> [] -> 32 <= fileMatchEnd 0 p c.
Proof.
  intros Hp. unfold fileMatchEnd. destruct p as [|d p]; [congruence|].
  change (length END_FILE) with 14. change (length START_FILE) with 15.
  cbn [length]. lia.
Qed.

Lemma blocksOf_length (r : jsString) (files : list ConvertedFile) :
  blocksOf r files -> 32 * length files <= length r.
Proof.
  induction 1 as [r F|r a b p c x files F _ IH]; cbn [length]; [lia|].
  pose proof (findFirst_fileBlockAt_shorter _ F) as Hlen.
  apply findFirst_Some in F as (_ & Hb & _).
  apply fileBlockAt_Some in Hb as (_ & [Hp _] & _).
  pose proof (fileMatchEnd_min c Hp). lia.
Qed.

(** X20. The loop of [parseAIResponse] ends on every text. A match
    that [exec] reports from [lastIndex] starts at or after it, spans at
    least 32 characters (the two markers, a path of one character twice
    and a line feed), and ends within the text, so that [lastIndex]
    grows with every turn of the loop. The loop therefore returns with
    any fuel above the length of the text, always with the same files,
    and a text holds at least 32 characters for each file returned. *)
Theorem parseAIResponse_loop_ends (text : jsString) :
  (forall lastIndex index m,
     lastIndex <= length text ->
     exec fileRegex text lastIndex = Some (index, m) ->
     lastIndex <= index /\ index + 32 <= endIndex m /\ endIndex m <= length text) /\
  (forall fuel,
     length text < fuel ->
     parseLoop fuel text 0 [] = Some (parseAIResponse text)) /\
  32 * length (parseAIResponse text) <= length text.
Proof.
  split; [|split].
  - intros lastIndex index m Hi. rewrite exec_fileRegex by exact Hi.
    destruct (findFirst fileBlockAt (skipn lastIndex text))
      as [[[a b] [[p c] x]]|] eqn:F; [|discriminate].
    intros H. injection H as <- <-. cbn [endIndex].
    pose proof (findFirst_fileBlockAt_shorter _ F) as Hlen.
    rewrite length_skipn in Hlen.
    pose proof (fileMatchEnd_pos (length a + lastIndex) p c) as [He _].
    apply findFirst_Some in F as (_ & Hb & _).
    apply fileBlockAt_Some in Hb as (_ & [Hp _] & _).
    pose proof (fileMatchEnd_min c Hp). lia.
  - intros fuel Hfuel. destruct (blocksOf_total text) as (f0 & Hf0 & Hle).
    rewrite (proj2 (parseAIResponse_blocksOf text f0) Hf0).
    now rewrite (@parseLoop_blocksOf text fuel 0 [] f0) by (trivial; lia).
  - apply blocksOf_length. now apply parseAIResponse_blocksOf.
Qed.

(* ================================================================== *)
(** ** From the reply to the archive *)
(* ================================================================== *)

(** X21. Whole-project mode, from a reply laid out as blocks to the
    archive. When the prompt was sent and the reply is a text without
    a start marker followed by one block or more, each with a path
    that is a non-empty run of characters other than white space, a
    content without the end marker of its path and a following text
    without a start marker, the response is decided by one archive, to
    which exactly one file is added for each block, in the order of
    the blocks: under the path of the block, the content of the block
    without its fence, trimmed and encoded. The buffer that the
    library returns for it is sent under the name of the upload; when
    the library or [res.set] throws, the request is answered with the
    server error. *)
Theorem whole_project_reply_of_clean_blocks (Buffer : Type)
    (platform : Platform Buffer) (GEMINI_API_KEY : option jsString)
    (req : Request Buffer) (now : jsString) (s : State Buffer)
    (prompt before : jsString) (blocks : list (Block * jsString)) :
  sent (fst (handleConvertWholeProject GEMINI_API_KEY req now s)) = sent s ++ [prompt] ->
  generateContent (sent s) prompt = ModelText (before ++ renderBlocks blocks) ->
  occursInb START_FILE before = false ->
  forallb cleanBlockb blocks = true ->
  blocks <> [] ->
  exists projectZip : UploadedFile Buffer,
    uploadOf req (js "sourceCode") = Some projectZip /\
    snd (handleConvertWholeProject GEMINI_API_KEY req now s) =
    packedResponse projectZip
      (zipOfFiles
         (map (fun bf => (blockPath (fst bf),
                          utf8_encode (blockContent (blockBody (fst bf)))))
            blocks)).
Proof.
  intros Hsent Hreply Hbefore Hblocks Hne.
  destruct (@handleConvertWholeProject_after_prompt Buffer platform
              GEMINI_API_KEY req now s prompt Hsent) as (zip & Hup & ->).
  exists zip. split; [exact Hup|]. rewrite Hreply. unfold answerTo.
  assert (E : parseAIResponse (before ++ renderBlocks blocks)
              = map (fun bf => fileOfBlock (fst bf)) blocks).
  { apply parseAIResponse_blocksOf, blocksOf_renderBlocks.
    - now apply occursInb_false.
    - rewrite forallb_forall in Hblocks. apply Forall_forall.
      intros bf Hin. now apply cleanBlockb_clean, Hblocks. }
  rewrite E. destruct blocks as [|bf blocks]; [congruence|].
  cbn [map]. rewrite map_map. reflexivity.
Qed.

(* ================================================================== *)
(** ** Examples *)
(* ================================================================== *)

Example parseAIResponse_two_blocks :
  parseAIResponse (js "Files:" ++ LF :: renderBlocks exampleBlocks) =
  [mkFile (js "src/App.vue") (js "<template/>");
   mkFile (js "package.json") (js "{ }")].
Proof. vm_compute. reflexivity. Qed.

Lemma parseAIResponse_clean_blocks_witness :
  parseAIResponse (js "Files:" ++ LF :: renderBlocks exampleBlocks)
    = map (fun bf => fileOfBlock (fst bf)) exampleBlocks /\
  length (parseAIResponse (js "Files:" ++ LF :: renderBlocks exampleBlocks))
    = length exampleBlocks /\
  map path (parseAIResponse (js "Files:" ++ LF :: renderBlocks exampleBlocks))
    = map (fun bf => blockPath (fst bf)) exampleBlocks.
Proof.
  apply (parseAIResponse_clean_blocks (js "Files:" ++ [LF]) exampleBlocks);
    vm_compute; reflexivity.
Defined.

(** One block whose path holds a space: no file is returned for it. *)
Lemma parseAIResponse_path_with_space :
  parseAIResponse (renderBlocks [(mkBlock (js "my file.js") (js "x"), [])]) = [] /\
  length (parseAIResponse (renderBlocks [(mkBlock (js "my file.js") (js "x"), [])]))
    <> length [(mkBlock (js "my file.js") (js "x"), @nil N)].
Proof. split; vm_compute; [reflexivity | discriminate]. Qed.

Lemma blockContent_fenced_or_trimmed_witness :
  blockContent (FENCE ++ js "json" ++ LF :: js " { } " ++ LF :: FENCE ++ [LF])
    = trim (js " { } ") /\
  blockContent (js "  x ") = trim (js "  x ").
Proof.
  split.
  - apply (proj1 (blockContent_fenced_or_trimmed
                    (FENCE ++ js "json" ++ LF :: js " { } " ++ LF :: FENCE ++ [LF]))).
    exists [], (js "json"), [LF]. repeat split.
  - apply (proj2 (blockContent_fenced_or_trimmed (js "  x "))).
    intros inner H. apply fenceBody_fenced in H. vm_compute in H. discriminate H.
Defined.

(** A content without a fence and with white space around it is not
    returned as it was captured. *)
Lemma blockContent_unfenced_is_trimmed :
  (forall inner, ~ fenced (js "  x ") inner) /\
  blockContent (js "  x ") = js "x" /\
  blockContent (js "  x ") <> js "  x " /\
  parseAIResponse (renderBlock (mkBlock (js "a.js") (js "  x ")))
    = [mkFile (js "a.js") (js "x")].
Proof.
  split; [|split; [|split]].
  - intros inner H. apply fenceBody_fenced in H. vm_compute in H. discriminate H.
  - vm_compute. reflexivity.
  - vm_compute. discriminate.
  - vm_compute. reflexivity.
Qed.

Lemma parsed_paths_have_no_white_space_witness :
  (path (mkFile (js "src/App.vue") (js "<template/>")) <> [] /\
   forallb notSpace (path (mkFile (js "src/App.vue") (js "<template/>"))) = true) /\
  (matchAt fileRegex (START_FILE ++ js "my file.js" ++ LF :: js "x"
                      ++ END_FILE ++ js "my file.js") (length (@nil N)) = None /\
   forall lastIndex index m,
     exec fileRegex
       ([] ++ START_FILE ++ js "my file.js" ++ LF :: js "x"
        ++ END_FILE ++ js "my file.js") lastIndex = Some (index, m) ->
     index <> length (@nil N)).
Proof.
  split.
  - apply (proj1 (parsed_paths_have_no_white_space
                    (js "Files:" ++ LF :: renderBlocks exampleBlocks))).
    vm_compute. left. reflexivity.
  - apply (proj2 (parsed_paths_have_no_white_space
                    ([] ++ START_FILE ++ js "my file.js" ++ LF :: js "x"
                     ++ END_FILE ++ js "my file.js"))
             [] (js "my file.js") (LF :: js "x" ++ END_FILE ++ js "my file.js"));
      reflexivity.
Defined.

Lemma parseCodeFromResponse_fenced_or_trimmed_witness :
  parseCodeFromResponse (js " hello ") = trim (js " hello ") /\
  parseCodeFromResponse
    ([LF] ++ FENCE ++ js "vue" ++ LF :: (js "<template/>" ++ [LF]) ++ FENCE ++ [LF])
    = trim (js "<template/>" ++ [LF]).
Proof.
  split.
  - apply (proj1 (proj2 (parseCodeFromResponse_fenced_or_trimmed (js " hello ")))).
    reflexivity.
  - apply (proj2 (proj2 (parseCodeFromResponse_fenced_or_trimmed
             ([LF] ++ FENCE ++ js "vue" ++ LF :: (js "<template/>" ++ [LF])
              ++ FENCE ++ [LF])))
             [LF] (js "vue") (js "<template/>" ++ [LF]) [LF]);
      reflexivity.
Defined.

(** A fenced block with a tag and no inner text: the tag is returned. *)
Lemma parseCodeFromResponse_empty_fenced_block :
  parseCodeFromResponse (FENCE ++ js "js" ++ LF :: [] ++ FENCE) = js "js" /\
  parseCodeFromResponse (FENCE ++ js "js" ++ LF :: [] ++ FENCE) <> trim [].
Proof. split; vm_compute; [reflexivity | discriminate]. Qed.

Ltac wf_tree :=
  repeat match goal with
  | |- wf (File _) => constructor
  | |- wf (Dir _) =>
      apply wf_Dir;
      [ simpl; repeat (constructor; [simpl; intuition discriminate|]); constructor
      | let H := fresh "H" in
        intros ? ? H; simpl in H;
        repeat (destruct H as [H|H]; [injection H as <- <-|]);
        try contradiction ]
  end.

Lemma example_source_wf : wf Example.source.
Proof. unfold Example.source. wf_tree. Qed.

(** Scenario A of the specification: one block in the reply, one file
    added to the archive, and no directory of the request afterwards. *)
Example whole_project_scenario :
  snd (Example.wholeProject Example.modelConverts (Some (js "key")) Example.request
         (js "1") Example.emptyState) =
  SendZip (js "attachment; filename=" ++ DQUOTE :: js "converted-app.zip" ++ [DQUOTE])
    (js "src/App.vue=<template/>;") /\
  fs (fst (Example.wholeProject Example.modelConverts (Some (js "key"))
             Example.request (js "1") Example.emptyState))
    (requestDirName (js "1")) = None.
Proof. split; vm_compute; reflexivity. Qed.

(** An exception in the body: the model throws in whole-project mode,
    or the extraction throws after it has written files. The response
    is the server error and the directory of the request is removed. *)
Example exceptions_are_reported_and_cleaned :
  snd (Example.wholeProject Example.modelThrows (Some (js "key")) Example.request
         (js "1") Example.emptyState) = Json 500 MSG_SERVER_ERROR /\
  fs (fst (Example.wholeProject Example.modelThrows (Some (js "key"))
             Example.request (js "1") Example.emptyState))
    (requestDirName (js "1")) = None /\
  snd (@handleConvertPerFile jsString Example.platformExtractThrows
         (Some (js "key")) Example.request (js "1") Example.emptyState)
    = Json 500 MSG_SERVER_ERROR /\
  fs (fst (@handleConvertPerFile jsString Example.platformExtractThrows
             (Some (js "key")) Example.request (js "1") Example.emptyState))
    (requestDirName (js "1")) = None.
Proof. repeat split; vm_compute; reflexivity. Qed.

(** The allow-list is read with the case of the extension. *)
Example extension_is_case_sensitive :
  CODE_EXTENSIONS_has (js ".js") = true /\
  CODE_EXTENSIONS_has (js ".JS") = false /\
  CODE_EXTENSIONS_has (js "js") = false /\
  CODE_EXTENSIONS_has (js ".png") = false.
Proof. repeat split. Qed.

(** Scenario C of the specification: one call throws, the others
    succeed. *)
Example per_file_scenario :
  snd (Example.perFile Example.modelFailsOnApp (Some (js "key")) Example.request
         (js "1") Example.emptyState) =
  SendZip (js "attachment; filename=" ++ DQUOTE :: js "converted-app.zip" ++ [DQUOTE])
    (js "App.jsx=code;logo.png=PNG;node_modules/x.js=lib;src/main.js=<template/>;").
Proof. vm_compute. reflexivity. Qed.

(** An upload whose name cannot be carried by a header: [res.set]
    throws once the work is done, and the request is answered with the
    server error, in both modes. *)
Example upload_name_that_no_header_carries :
  validHeaderValue (contentDispositionOf Example.uploadWithCheckMark) = false /\
  snd (Example.wholeProject Example.modelConverts (Some (js "key"))
         Example.requestWithCheckMark (js "1") Example.emptyState)
    = Json 500 MSG_SERVER_ERROR /\
  snd (Example.perFile Example.modelThrows (Some (js "key"))
         Example.requestWithCheckMark (js "1") Example.emptyState)
    = Json 500 MSG_SERVER_ERROR.
Proof. repeat split; vm_compute; reflexivity. Qed.

Lemma getAllFilePaths_skips_node_modules_and_git_witness :
  exists rel,
    [js "request-1"; js "source"; js "src"; js "main.js"]
      = [js "request-1"; js "source"] ++ rel /\ rel <> [] /\
    forall seg, In seg (removelast rel) ->
      seg <> js "node_modules" /\ seg <> js ".git".
Proof.
  apply (@getAllFilePaths_skips_node_modules_and_git jsString
           (fun n => if jsString_eqb n (js "request-1") then Some Example.root else None)
           [js "request-1"; js "source"]
           [[js "request-1"; js "source"; js "App.jsx"];
            [js "request-1"; js "source"; js "logo.png"];
            [js "request-1"; js "source"; js "src"; js "main.js"]]).
  - vm_compute. reflexivity.
  - right. right. left. reflexivity.
Defined.

Lemma workspace_removed_after_request_witness :
  existsSync
    (fs (fst (Example.wholeProject Example.modelApologizes (Some (js "key"))
                Example.request (js "1") Example.emptyState)))
    (requestDirName (js "1")) = false /\
  existsSync
    (fs (fst (Example.perFile Example.modelFailsOnApp (Some (js "key"))
                Example.request (js "1") Example.emptyState)))
    (requestDirName (js "1")) = false.
Proof.
  split.
  - apply (proj1 (@workspace_removed_after_request jsString (Example.platform Example.modelApologizes)
                    (Some (js "key")) Example.request (js "1") Example.emptyState
                    eq_refl eq_refl)).
    discriminate.
  - apply (proj2 (@workspace_removed_after_request jsString (Example.platform Example.modelFailsOnApp)
                    (Some (js "key")) Example.request (js "1") Example.emptyState
                    eq_refl eq_refl) Example.upload); reflexivity.
Defined.

Lemma validation_precedes_workspace_witness :
  fst (Example.wholeProject Example.modelApologizes (Some (js "key"))
         Example.requestWithoutUpload (js "1") Example.emptyState)
    = Example.emptyState /\
  exists message,
    snd (Example.wholeProject Example.modelApologizes (Some (js "key"))
           Example.requestWithoutUpload (js "1") Example.emptyState)
    = Json (if truthy (Some (js "key")) then 400 else 500) message.
Proof.
  apply (proj1 (@validation_precedes_workspace jsString (Example.platform Example.modelApologizes)
                  (Some (js "key")) Example.requestWithoutUpload (js "1")
                  Example.emptyState)).
  left. reflexivity.
Defined.

(** Without an API key, a request without the upload is answered with
    status 500, not 400. *)
Lemma missing_upload_without_key_is_500 :
  uploadOf Example.requestWithoutUpload (js "sourceCode") = None /\
  snd (Example.wholeProject Example.modelApologizes None
         Example.requestWithoutUpload (js "1") Example.emptyState)
    = Json 500 MSG_NO_KEY /\
  snd (Example.perFile Example.modelApologizes None
         Example.requestWithoutUpload (js "1") Example.emptyState)
    = Json 500 MSG_NO_KEY.
Proof. repeat split. Qed.






(* ================================================================== *)
(** ** Examples of the further properties *)
(* ================================================================== *)

Lemma parseAIResponse_block_then_rest_witness :
  parseAIResponse
    (js "Here:" ++ START_FILE ++ js "a.js" ++ LF :: js "x" ++ END_FILE ++ js "a.js"
     ++ js "x and more")
  = mkFile (js "a.js") (blockContent (js "x")) :: parseAIResponse (js "x and more").
Proof. apply parseAIResponse_block_then_rest; reflexivity. Defined.

Lemma parseAIResponse_files_come_from_blocks_witness :
  exists pre c post,
    js "Files:" ++ LF :: renderBlocks exampleBlocks
    = pre ++ START_FILE ++ path (mkFile (js "package.json") (js "{ }")) ++ LF :: c
      ++ END_FILE ++ path (mkFile (js "package.json") (js "{ }")) ++ post /\
    content (mkFile (js "package.json") (js "{ }")) = blockContent c /\
    ~ occursIn (END_FILE ++ path (mkFile (js "package.json") (js "{ }"))) c.
Proof.
  apply parseAIResponse_files_come_from_blocks.
  vm_compute. right. left. reflexivity.
Defined.

Lemma parseCodeFromResponse_single_block_witness :
  parseCodeFromResponse
    (js "Here is the component:" ++ [LF] ++ FENCE ++ js "vue" ++ LF
     :: (js "<template/>" ++ [LF]) ++ FENCE ++ LF :: js "Let me know.")
  = (if negb (isEmpty (js "vue")) && forallb isWord (js "vue")
        && negb (isEmpty (js "<template/>" ++ [LF]))
     then trim (js "<template/>" ++ [LF])
     else trim (js "vue" ++ LF :: js "<template/>" ++ [LF])).
Proof.
  apply (parseCodeFromResponse_single_block (js "Here is the component:" ++ [LF])
           (js "vue") (js "<template/>" ++ [LF]) (LF :: js "Let me know."));
    reflexivity.
Defined.

Lemma blockContent_keeps_an_unrecognized_fence_witness :
  blockContent ([] ++ FENCE ++ [] ++ 74%N :: js "SON" ++ LF :: js "{ }" ++ LF :: FENCE)
  = trim ([] ++ FENCE ++ [] ++ 74%N :: js "SON" ++ LF :: js "{ }" ++ LF :: FENCE) /\
  blockContent ((FENCE ++ js "js" ++ LF :: js "x" ++ LF :: FENCE ++ js " Done") ++ [46%N])
  = trim ((FENCE ++ js "js" ++ LF :: js "x" ++ LF :: FENCE ++ js " Done") ++ [46%N]).
Proof.
  split.
  - apply (proj1 blockContent_keeps_an_unrecognized_fence); reflexivity.
  - apply (proj2 (proj2 blockContent_keeps_an_unrecognized_fence)); reflexivity.
Defined.

Lemma example_source_with_blank_wf : wf Example.sourceWithBlank.
Proof. unfold Example.sourceWithBlank. wf_tree. Qed.

Lemma getAllFilePaths_lists_exactly_witness :
  In ([js "request-1"; js "source"] ++ [js "src"; js "main.js"])
     [[js "request-1"; js "source"; js "App.jsx"];
      [js "request-1"; js "source"; js "logo.png"];
      [js "request-1"; js "source"; js "src"; js "main.js"]] <->
  (exists bytes,
     fsReadFile Example.extractedWorld
       ([js "request-1"; js "source"] ++ [js "src"; js "main.js"]) = Some bytes) /\
  forallb (fun seg => negb (skippedDirectory seg))
    (removelast [js "src"; js "main.js"]) = true.
Proof.
  apply (@getAllFilePaths_lists_exactly jsString Example.extractedWorld
           [js "request-1"; js "source"]).
  - vm_compute. reflexivity.
  - intros t H. vm_compute in H. injection H as <-. apply example_source_wf.
Defined.

Lemma getAllFilePaths_lists_each_file_once_witness :
  NoDup [[js "request-1"; js "source"; js "App.jsx"];
         [js "request-1"; js "source"; js "logo.png"];
         [js "request-1"; js "source"; js "src"; js "main.js"]].
Proof.
  apply (@getAllFilePaths_lists_each_file_once jsString Example.extractedWorld
           [js "request-1"; js "source"]).
  - vm_compute. reflexivity.
  - intros t H. vm_compute in H. injection H as <-. apply example_source_wf.
Defined.

Lemma validation_errors_in_order_witness :
  Example.perFile Example.modelConverts (Some (js "key"))
    (mkRequest
       (Some (fun _ => Some (mkUpload (js "PK") (js "app.tar") (js "application/x-tar"))))
       (Some (js "Vue")))
    (js "1") Example.emptyState
  = (Example.emptyState, Json 400 (MSG_BAD_TYPE (js "application/x-tar"))) /\
  Example.wholeProject Example.modelConverts (Some (js "key"))
    (mkRequest None (Some [])) (js "1") Example.emptyState
  = (Example.emptyState, Json 400 (MSG_NO_UPLOAD (js "sourceCode"))).
Proof.
  split.
  - apply (proj2 (proj2 (proj2 (proj2
             (@validation_errors_in_order jsString
                (Example.platform Example.modelConverts) (Some (js "key"))
                (mkRequest
                   (Some (fun _ => Some (mkUpload (js "PK") (js "app.tar")
                                           (js "application/x-tar"))))
                   (Some (js "Vue")))
                (js "1") Example.emptyState) eq_refl)))
             (mkUpload (js "PK") (js "app.tar") (js "application/x-tar")));
      reflexivity.
  - apply (proj1 (proj2
             (@validation_errors_in_order jsString
                (Example.platform Example.modelConverts) (Some (js "key"))
                (mkRequest None (Some [])) (js "1") Example.emptyState) eq_refl)).
    reflexivity.
Defined.

Lemma failed_extraction_is_a_server_error_witness :
  (snd (@handleConvertPerFile jsString Example.platformExtractThrows
          (Some (js "key")) Example.request (js "1") Example.emptyState)
   = Json 500 MSG_SERVER_ERROR /\
   sent (fst (@handleConvertPerFile jsString Example.platformExtractThrows
                (Some (js "key")) Example.request (js "1") Example.emptyState))
   = sent Example.emptyState /\
   fs (fst (@handleConvertPerFile jsString Example.platformExtractThrows
              (Some (js "key")) Example.request (js "1") Example.emptyState))
     (requestDirName (js "1")) = None) /\
  (snd (@handleConvertWholeProject jsString Example.platformExtractsNothing
          (Some (js "key")) Example.request (js "1") Example.emptyState)
   = Json 500 MSG_SERVER_ERROR /\
   sent (fst (@handleConvertWholeProject jsString Example.platformExtractsNothing
                (Some (js "key")) Example.request (js "1") Example.emptyState))
   = sent Example.emptyState /\
   fs (fst (@handleConvertWholeProject jsString Example.platformExtractsNothing
              (Some (js "key")) Example.request (js "1") Example.emptyState))
     (requestDirName (js "1")) = None).
Proof.
  split.
  - apply (proj2 (@failed_extraction_is_a_server_error jsString
                    Example.platformExtractThrows (Some (js "key")) Example.request
                    (js "1") Example.emptyState Example.upload eq_refl eq_refl
                    (or_introl (ex_intro _ (Some Example.root) eq_refl)))
             eq_refl eq_refl).
  - apply (proj1 (@failed_extraction_is_a_server_error jsString
                    Example.platformExtractsNothing (Some (js "key")) Example.request
                    (js "1") Example.emptyState Example.upload eq_refl eq_refl
                    (or_intror (ex_intro _ None (conj eq_refl eq_refl))))
             eq_refl).
Defined.

Lemma whole_project_model_failure_is_a_server_error_witness :
  snd (Example.wholeProject Example.modelThrows (Some (js "key")) Example.request
         (js "1") Example.emptyState) = Json 500 MSG_SERVER_ERROR.
Proof.
  apply (@whole_project_model_failure_is_a_server_error jsString
           (Example.platform Example.modelThrows) (Some (js "key")) Example.request
           (js "1") Example.emptyState examplePrompt).
  - vm_compute. reflexivity.
  - reflexivity.
Defined.

Lemma whole_project_archive_is_the_parsed_files_witness :
  exists projectZip : UploadedFile jsString,
    uploadOf Example.request (js "sourceCode") = Some projectZip /\
    snd (Example.wholeProject Example.modelConverts (Some (js "key")) Example.request
           (js "1") Example.emptyState) =
    packedResponse projectZip
      (Example.zipText
         (map (fun file => (path file, content file))
            (parseAIResponse
               (renderBlock (mkBlock (js "src/App.vue") (js "<template/>")))))).
Proof.
  destruct (@whole_project_archive_is_the_parsed_files jsString
              (Example.platform Example.modelConverts) (Some (js "key")) Example.request
              (js "1") Example.emptyState examplePrompt
              (renderBlock (mkBlock (js "src/App.vue") (js "<template/>")))
              ltac:(vm_compute; reflexivity) eq_refl ltac:(vm_compute; discriminate))
    as (zip & Hup & Hresp & _).
  exists zip. split; [exact Hup|exact Hresp].
Defined.

Lemma whole_project_prompt_lists_the_code_files_witness :
  sent (fst (Example.wholeProject Example.modelConverts (Some (js "key"))
               Example.request (js "1") Example.emptyState))
  = [wholeProjectPrompt (js "Vue")
       (join contextSeparator
          [js "File: App.jsx" ++ LF :: FENCE ++ LF :: js "code" ++ LF :: FENCE;
           js "File: src/main.js" ++ LF :: FENCE ++ LF :: js "m" ++ LF :: FENCE])].
Proof.
  pose proof (proj1 (@whole_project_prompt_lists_the_code_files jsString
                       (Example.platform Example.modelConverts) (Some (js "key"))
                       Example.request (js "1") Example.emptyState Example.upload
                       (js "Vue") Example.root Example.sourceEntries
                       eq_refl eq_refl eq_refl eq_refl eq_refl eq_refl
                       example_source_wf)) as H.
  vm_compute in H. vm_compute. exact H.
Defined.

Lemma per_file_prompts_are_one_per_code_file_witness :
  sent (fst (Example.perFile Example.modelFailsOnApp (Some (js "key"))
               Example.request (js "1") Example.emptyState))
  = [filePrompt (js "Vue") (js "App.jsx") (js "code");
     filePrompt (js "Vue") (js "main.js") (js "m")] /\
  length (sent (fst (Example.perFile Example.modelFailsOnApp (Some (js "key"))
                       Example.request (js "1") Example.emptyState))) = 2.
Proof.
  pose proof (@per_file_prompts_are_one_per_code_file jsString
                (Example.platform Example.modelFailsOnApp) (Some (js "key"))
                Example.request (js "1") Example.emptyState Example.upload
                (js "Vue") Example.root Example.sourceEntries
                eq_refl eq_refl eq_refl eq_refl eq_refl eq_refl eq_refl
                example_source_wf) as H.
  vm_compute in H. vm_compute. exact H.
Defined.

Lemma per_file_success_replaces_the_content_witness :
  exists es',
    readPath [js "src"; js "main.js"] (Dir es')
    = Some (parseCodeFromResponse
              (FENCE ++ js "vue" ++ LF :: js "<template/>" ++ LF :: FENCE)) /\
    snd (Example.perFile Example.modelFailsOnApp (Some (js "key")) Example.request
           (js "1") Example.emptyState)
    = packedResponse Example.upload (Example.zipFolderText es').
Proof.
  destruct (@per_file_success_replaces_the_content jsString
              (Example.platform Example.modelFailsOnApp) (Some (js "key"))
              Example.request (js "1") Example.emptyState Example.upload (js "Vue")
              Example.root Example.sourceEntries [js "src"; js "main.js"] (js "m")
              (FENCE ++ js "vue" ++ LF :: js "<template/>" ++ LF :: FENCE)
              [[requestDirName (js "1"); js "source"; js "App.jsx"]] []
              eq_refl eq_refl eq_refl eq_refl eq_refl eq_refl eq_refl
              example_source_wf eq_refl ltac:(discriminate)
              ltac:(vm_compute; reflexivity) ltac:(vm_compute; reflexivity))
    as (es' & _ & Hr & Hresp).
  exists es'. split; [exact Hr|exact Hresp].
Defined.

Lemma per_file_skipped_directories_are_returned_witness :
  ~ In ([requestDirName (js "1"); js "source"] ++ [js "node_modules"; js "x.js"])
       (walk [requestDirName (js "1"); js "source"] (Dir Example.sourceEntries)) /\
  exists es',
    readPath [js "node_modules"; js "x.js"] (Dir es') = Some (js "lib") /\
    snd (Example.perFile Example.modelFailsOnApp (Some (js "key")) Example.request
           (js "1") Example.emptyState)
    = packedResponse Example.upload (Example.zipFolderText es').
Proof.
  destruct (@per_file_skipped_directories_are_returned jsString
              (Example.platform Example.modelFailsOnApp) (Some (js "key"))
              Example.request (js "1") Example.emptyState Example.upload (js "Vue")
              Example.root Example.sourceEntries [js "node_modules"; js "x.js"]
              (js "lib")
              eq_refl eq_refl eq_refl eq_refl eq_refl eq_refl eq_refl
              example_source_wf eq_refl eq_refl)
    as (Hnot & es' & _ & Hr & Hresp).
  split; [exact Hnot|]. exists es'. split; [exact Hr|exact Hresp].
Defined.

Lemma per_file_blank_files_are_passed_over_witness :
  sent (fst (@handleConvertPerFile jsString Example.platformWithBlank
               (Some (js "key")) Example.request (js "1") Example.emptyState))
  = [filePrompt (js "Vue") (js "App.jsx") (js "code")] /\
  exists es',
    readPath [js "empty.css"] (Dir es') = Some (js "  " ++ [LF]) /\
    snd (@handleConvertPerFile jsString Example.platformWithBlank
           (Some (js "key")) Example.request (js "1") Example.emptyState)
    = packedResponse Example.upload (Example.zipFolderText es').
Proof.
  destruct (@per_file_blank_files_are_passed_over jsString Example.platformWithBlank
              (Some (js "key")) Example.request (js "1") Example.emptyState
              Example.upload (js "Vue") Example.rootWithBlank
              Example.sourceWithBlankEntries [js "empty.css"] (js "  " ++ [LF])
              eq_refl eq_refl eq_refl eq_refl eq_refl eq_refl eq_refl
              example_source_with_blank_wf eq_refl eq_refl)
    as (Hsent & _ & es' & _ & Hr & Hresp).
  split; [refine (eq_trans Hsent _); vm_compute; reflexivity|].
  exists es'. split; [exact Hr|exact Hresp].
Defined.

Lemma per_file_archive_keeps_the_paths_witness :
  exists es',
    filePaths (Dir es')
    = [[js "App.jsx"]; [js "logo.png"]; [js "node_modules"; js "x.js"];
       [js "src"; js "main.js"]] /\
    snd (Example.perFile Example.modelFailsOnApp (Some (js "key")) Example.request
           (js "1") Example.emptyState)
    = packedResponse Example.upload (Example.zipFolderText es').
Proof.
  destruct (@per_file_archive_keeps_the_paths jsString
              (Example.platform Example.modelFailsOnApp) (Some (js "key"))
              Example.request (js "1") Example.emptyState Example.upload (js "Vue")
              Example.root Example.sourceEntries
              eq_refl eq_refl eq_refl eq_refl eq_refl eq_refl eq_refl
              example_source_wf)
    as (es' & _ & Hp & Hresp).
  exists es'. split; [exact Hp|exact Hresp].
Defined.

Lemma request_touches_only_its_directory_witness :
  fs (fst (Example.wholeProject Example.modelFailsOnApp (Some (js "key"))
             Example.request (js "1") Example.busyState)) (js "request-0")
  = fs Example.busyState (js "request-0") /\
  fs (fst (Example.perFile Example.modelFailsOnApp (Some (js "key"))
             Example.request (js "1") Example.busyState)) (js "request-0")
  = fs Example.busyState (js "request-0").
Proof.
  apply (@request_touches_only_its_directory jsString
           (Example.platform Example.modelFailsOnApp) (Some (js "key"))
           Example.request (js "1") Example.busyState (js "request-0")).
  discriminate.
Defined.

Lemma test_client_request_is_for_whole_project_mode_witness :
  Example.perFile Example.modelConverts (Some (js "key"))
    (runTest_request (js "PK") (js "application/zip")) (js "1") Example.emptyState
  = (Example.emptyState, Json 400 (MSG_NO_UPLOAD (js "projectZip"))) /\
  Example.wholeProject Example.modelConverts (Some (js "key"))
    (runTest_request (js "PK") (js "application/zip")) (js "1") Example.emptyState
  = guarded
      (@convertWholeProject jsString (Example.platform Example.modelConverts)
         (mkUpload (js "PK") (js "test-project.zip") (js "application/zip"))
         (js "Vue") (requestDirName (js "1")))
      (requestDirName (js "1")) Example.emptyState /\
  forall message,
    snd (Example.wholeProject Example.modelConverts (Some (js "key"))
           (runTest_request (js "PK") (js "application/zip")) (js "1") Example.emptyState)
    <> Json 400 message.
Proof.
  apply (@test_client_request_is_for_whole_project_mode jsString
           (Example.platform Example.modelConverts) (Some (js "key")) (js "PK")
           (js "application/zip") (js "1") Example.emptyState).
  reflexivity.
Defined.

Lemma parseAIResponse_loop_ends_witness :
  parseLoop 100 (renderBlock (mkBlock (js "a.js") (js "x"))) 0 []
  = Some (parseAIResponse (renderBlock (mkBlock (js "a.js") (js "x")))) /\
  32 * length (parseAIResponse (renderBlock (mkBlock (js "a.js") (js "x"))))
  <= length (renderBlock (mkBlock (js "a.js") (js "x"))).
Proof.
  split.
  - apply (proj1 (proj2 (parseAIResponse_loop_ends
                           (renderBlock (mkBlock (js "a.js") (js "x")))))).
    vm_compute. lia.
  - apply (proj2 (proj2 (parseAIResponse_loop_ends
                           (renderBlock (mkBlock (js "a.js") (js "x")))))).
Defined.

Lemma whole_project_reply_of_clean_blocks_witness :
  exists projectZip : UploadedFile jsString,
    uploadOf Example.request (js "sourceCode") = Some projectZip /\
    snd (Example.wholeProject Example.modelConverts (Some (js "key")) Example.request
           (js "1") Example.emptyState) =
    packedResponse projectZip
      (Example.zipText
         (map (fun bf => (blockPath (fst bf), blockContent (blockBody (fst bf))))
            [(mkBlock (js "src/App.vue") (js "<template/>"), @nil N)])).
Proof.
  apply (@whole_project_reply_of_clean_blocks jsString
           (Example.platform Example.modelConverts) (Some (js "key")) Example.request
           (js "1") Example.emptyState examplePrompt []
           [(mkBlock (js "src/App.vue") (js "<template/>"), [])]).
  - vm_compute. reflexivity.
  - vm_compute. reflexivity.
  - reflexivity.
  - reflexivity.
  - discriminate.
Defined.
